(** * bible-scripts: reference resolution, verse parsing and rendering

    A shallow embedding of the three scripts of the repository
    (dutch-diatheke.py, bible-to-format_v2.py, bible-format-wrapper.py)
    and the properties their specification states about them.

    Python [str] values are modelled as lists of code points.  The
    development covers the code points U+0000..U+00FF: one [ascii] value
    is one code point of that range (Latin-1).  On this range every
    Unicode property the scripts rely on ([unicodedata.normalize],
    [str.lower], the regex classes [\d], [\s], [\w]) is given by a finite
    table, written out below. *)

From Stdlib Require Import Ascii String ZArith Lia Bool DecimalString
  DecimalPos.
From stdpp Require Import base list gmap strings.

Open Scope list_scope.

(** ** Text *)

Abbreviation text := (list ascii).

Definition code (c : ascii) : N := N_of_ascii c.

(** String literals of the source.  This file is UTF-8 like the scripts,
    so a literal is read as bytes and decoded: a byte below 128 is its
    own code point, and the two-byte sequences led by 0xC2 and 0xC3 are
    the code points U+0080..U+00FF. *)
Fixpoint decode_utf8 (bytes : text) : text :=
  match bytes with
  | b :: ((b2 :: rest') as rest) =>
    if (code b =? 194)%N then b2 :: decode_utf8 rest'
    else if (code b =? 195)%N then ascii_of_N (code b2 + 64) :: decode_utf8 rest'
    else b :: decode_utf8 rest
  | _ => bytes
  end.

Definition str (s : string) : text :=
  decode_utf8 (String.list_ascii_of_string s).

(** The double quote, for the literals that contain one.  Where a
    pattern of the scripts is quoted in a comment, DQ stands for this
    character. *)
Definition dq : text := [ascii_of_N 34].

(** The newline character. *)
Definition newline : text := [ascii_of_N 10].

Definition in_range (lo hi : N) (c : ascii) : bool :=
  ((lo <=? code c) && (code c <=? hi))%N.

Definition text_eqb (a b : text) : bool := bool_decide (a = b).

(** *** Character classes of Python's [re] on [str] patterns *)

(** [\d]: Unicode decimal digits; on the modelled range these are 0-9. *)
Definition is_digit (c : ascii) : bool := in_range 48 57 c.

(** [[a-z]] *)
Definition is_az (c : ascii) : bool := in_range 97 122 c.

(** [[A-Za-z]] and [[A-Za-z0-9]] *)
Definition is_alpha (c : ascii) : bool := in_range 65 90 c || is_az c.
Definition is_alnum (c : ascii) : bool := is_alpha c || is_digit c.

(** [\s], [str.isspace], and the separators of [str.split()] and
    [str.strip()]: TAB..CR, FS..US, SPACE, NEL (U+0085), NBSP (U+00A0). *)
Definition is_space (c : ascii) : bool :=
  in_range 9 13 c || in_range 28 32 c
  || (code c =? 133)%N || (code c =? 160)%N.

(** [\w]: [str.isalnum] or underscore.  Beyond ASCII the range holds the
    letters U+00AA, U+00B5, U+00BA, U+00C0..U+00FF (without the two
    operators U+00D7 and U+00F7) and the numeric characters U+00B2,
    U+00B3, U+00B9, U+00BC..U+00BE. *)
Definition is_word (c : ascii) : bool :=
  is_alnum c || (code c =? 95)%N
  || (code c =? 170)%N || (code c =? 178)%N || (code c =? 179)%N
  || (code c =? 181)%N || (code c =? 185)%N || (code c =? 186)%N
  || in_range 188 190 c
  || (in_range 192 255 c && negb (code c =? 215)%N && negb (code c =? 247)%N).

(** *** Unicode tables *)

(** [''.join(c for c in unicodedata.normalize('NFD', text)
             if not unicodedata.combining(c))] on one code point: the
    canonical decomposition of a precomposed Latin-1 letter is its base
    letter followed by one combining mark, and the mark is dropped; every
    other code point of the range is its own decomposition and none is a
    combining mark. *)
Definition strip_accent (c : ascii) : ascii :=
  if in_range 192 197 c then "A"%char
  else if (code c =? 199)%N then "C"%char
  else if in_range 200 203 c then "E"%char
  else if in_range 204 207 c then "I"%char
  else if (code c =? 209)%N then "N"%char
  else if in_range 210 214 c then "O"%char
  else if in_range 217 220 c then "U"%char
  else if (code c =? 221)%N then "Y"%char
  else if in_range 224 229 c then "a"%char
  else if (code c =? 231)%N then "c"%char
  else if in_range 232 235 c then "e"%char
  else if in_range 236 239 c then "i"%char
  else if (code c =? 241)%N then "n"%char
  else if in_range 242 246 c then "o"%char
  else if in_range 249 252 c then "u"%char
  else if (code c =? 253)%N || (code c =? 255)%N then "y"%char
  else c.

(** [str.lower] on one code point: A-Z and U+00C0..U+00DE (without
    U+00D7) move up by 32, everything else is unchanged. *)
Definition lower_char (c : ascii) : ascii :=
  if in_range 65 90 c || (in_range 192 222 c && negb (code c =? 215)%N)
  then ascii_of_N (code c + 32)
  else c.

Definition lower (s : text) : text := map lower_char s.

(** ** String operations of Python *)

Fixpoint drop_while (p : ascii -> bool) (s : text) : text :=
  match s with
  | c :: s' => if p c then drop_while p s' else s
  | [] => []
  end.

Fixpoint take_while (p : ascii -> bool) (s : text) : text :=
  match s with
  | c :: s' => if p c then c :: take_while p s' else []
  | [] => []
  end.

(** [s.strip()] *)
Definition strip (s : text) : text :=
  reverse (drop_while is_space (reverse (drop_while is_space s))).

(** [s.split(sep)] for a one-character separator: every separator cuts,
    empty pieces are kept. *)
Fixpoint split_on (sep : ascii) (s : text) : list text :=
  match s with
  | [] => [[]]
  | c :: s' =>
    if Ascii.eqb c sep then [] :: split_on sep s'
    else match split_on sep s' with
         | piece :: pieces => (c :: piece) :: pieces
         | [] => [[c]]
         end
  end.

(** [s.split()]: pieces between runs of whitespace, no empty piece. *)
Fixpoint split_ws_from (cur : text) (s : text) : list text :=
  match s with
  | [] => match cur with [] => [] | _ => [reverse cur] end
  | c :: s' =>
    if is_space c
    then match cur with
         | [] => split_ws_from [] s'
         | _ => reverse cur :: split_ws_from [] s'
         end
    else split_ws_from (c :: cur) s'
  end.

Definition split_ws (s : text) : list text := split_ws_from [] s.

(** [sep.join(pieces)] *)
Fixpoint join (sep : text) (pieces : list text) : text :=
  match pieces with
  | [] => []
  | [p] => p
  | p :: rest => p ++ sep ++ join sep rest
  end.

(** [sub in s] *)
Fixpoint is_prefix (p s : text) : bool :=
  match p, s with
  | [], _ => true
  | a :: p', b :: s' => Ascii.eqb a b && is_prefix p' s'
  | _ :: _, [] => false
  end.

Fixpoint contains (sub s : text) : bool :=
  is_prefix sub s ||
  match s with
  | [] => false
  | _ :: s' => contains sub s'
  end.

(** ** Regular expressions

    Every pattern of the scripts is deterministic once read left to
    right: each starred class is followed by a character outside the
    class, so the greedy match is the only one, and each lazy [.*?] is
    followed by a literal, so it stops at the first occurrence of what
    follows.  A pattern is therefore embedded as a function that, placed
    at a position, says whether the pattern matches there and what is
    left after the match. *)

(** The literal [lit] at the head of [s]; the rest after it. *)
Fixpoint match_lit (lit s : text) : option text :=
  match lit, s with
  | [], _ => Some s
  | a :: lit', b :: s' => if Ascii.eqb a b then match_lit lit' s' else None
  | _ :: _, [] => None
  end.

(** [\b] between the characters [prev] and [next] ([None]: outside the
    string). *)
Definition is_word_opt (o : option ascii) : bool :=
  match o with Some c => is_word c | None => false end.

Definition word_boundary (prev next : option ascii) : bool :=
  xorb (is_word_opt prev) (is_word_opt next).

(** A pattern placed at a position: [prev] is the character before the
    position ([None] at the start of the string) and [s] the input from
    the position on.  [Some (a, rest)] says that the pattern matches the
    part of [s] before [rest]; [a] is what the caller keeps of the match
    (its groups, or the text that replaces it).  No pattern of the
    scripts matches the empty string. *)
Definition matcher (A : Type) := option ascii -> text -> option (A * text).

(** The scan shared by [re.sub], [re.findall] and [re.search]: the
    matches are found left to right in the original string and do not
    overlap; the characters outside them are kept.  [skip] counts the
    characters of the current match still to pass. *)
Inductive piece (A : Type) :=
  | Kept (c : ascii)
  | Matched (a : A).
Arguments Kept {A} c.
Arguments Matched {A} a.

Fixpoint re_scan_from {A} (m : matcher A) (skip : nat) (prev : option ascii)
    (s : text) : list (piece A) :=
  match s with
  | [] => []
  | c :: s' =>
    match skip with
    | S k => re_scan_from m k (Some c) s'
    | O =>
      match m prev s with
      | Some (a, rest) =>
        Matched a :: re_scan_from m (length s' - length rest) (Some c) s'
      | None => Kept c :: re_scan_from m 0 (Some c) s'
      end
    end
  end.

Definition re_scan {A} (m : matcher A) (s : text) : list (piece A) :=
  re_scan_from m 0 None s.

Definition piece_text (p : piece text) : text :=
  match p with
  | Kept c => [c]
  | Matched r => r
  end.

(** [re.sub(pattern, repl, s)], the matcher giving the text that
    replaces each match. *)
Definition re_sub (m : matcher text) (s : text) : text :=
  concat (map piece_text (re_scan m s)).

(** [re.findall(pattern, s)] *)
Definition re_findall {A} (m : matcher A) (s : text) : list A :=
  omap (fun p => match p with Matched a => Some a | Kept _ => None end)
       (re_scan m s).

(** [bool(re.search(pattern, s))] *)
Definition re_search {A} (m : matcher A) (s : text) : bool :=
  match re_findall m s with
  | [] => false
  | _ :: _ => true
  end.

(** A lazy [.*?] followed by the rest of the pattern [next]: the
    shortest stretch of characters allowed by [dot] after which [next]
    matches. *)
Fixpoint lazy_until {A} (dot : ascii -> bool) (next : text -> option A)
    (s : text) : option (text * A) :=
  match next s with
  | Some a => Some ([], a)
  | None =>
    match s with
    | c :: s' =>
      if dot c
      then match lazy_until dot next s' with
           | Some (g, a) => Some (c :: g, a)
           | None => None
           end
      else None
    | [] => None
    end
  end.

(** A greedy [[class]+] or [[class]*] followed by a character outside
    the class: the whole run. *)
Definition run1 (p : ascii -> bool) (s : text) : option (text * text) :=
  match take_while p s with
  | [] => None
  | r => Some (r, drop_while p s)
  end.

(** [.] with and without [re.DOTALL] *)
Definition any_char (c : ascii) : bool := true.
Definition not_newline (c : ascii) : bool := negb (code c =? 10)%N.

(** [int(s)] and [str(n)] for the digit strings the patterns capture. *)
Definition digit_value (c : ascii) : Z := Z.of_N (code c) - 48.

Definition int_of_digits (s : text) : Z :=
  fold_left (fun n c => 10 * n + digit_value c)%Z s 0%Z.

Definition str_of_int (n : Z) : text :=
  String.list_ascii_of_string
    (DecimalString.NilZero.string_of_int (Z.to_int n)).

(** ** Exceptions

    A function that can raise returns a [result]; [ValueError] carries
    the message it is raised with. *)

Inductive exn :=
  | ValueError (msg : text)
  | KeyError (key : text)
  | IndexError.

Inductive result (A : Type) :=
  | Ok (a : A)
  | Raise (e : exn).
Arguments Ok {A} a.
Arguments Raise {A} e.

Definition result_bind {A B} (r : result A) (k : A -> result B) : result B :=
  match r with
  | Ok a => k a
  | Raise e => Raise e
  end.

Notation "'do' x <- r ; k" := (result_bind r (fun x => k))
  (at level 10, x name, r at level 100, k at level 200).

(** A list comprehension whose element expression can raise. *)
Fixpoint map_result {A B} (f : A -> result B) (items : list A)
    : result (list B) :=
  match items with
  | [] => Ok []
  | x :: rest => do y <- f x; do ys <- map_result f rest; Ok (y :: ys)
  end.

(** A [for] loop whose body can raise: the first exception ends it. *)
Fixpoint for_each {S A} (body : S -> A -> result S) (st : S) (items : list A)
    : result S :=
  match items with
  | [] => Ok st
  | x :: rest => do st' <- body st x; for_each body st' rest
  end.

(** Python truthiness of a string that may be [None]. *)
Definition truthy (o : option text) : bool :=
  match o with
  | Some (_ :: _) => true
  | _ => false
  end.

(** ** dutch-diatheke.py *)

Module DutchDiatheke.

(** [[.,;!?()[]]: the class closes at the first [']'] and holds these
    eight characters. *)
Definition punct_class (c : ascii) : bool :=
  existsb (Ascii.eqb c) (str ".,;!?()[").

(** [r'[.,;!?()[]{}]']: one character of the class followed by the three
    literal characters that come after the class in the pattern. *)
Definition re_punct : matcher text := fun _ s =>
  match s with
  | c :: s1 =>
    if punct_class c
    then match match_lit (str "{}]") s1 with
         | Some rest => Some (str " ", rest)
         | None => None
         end
    else None
  | [] => None
  end.

(** [rf'\b{roman}\b'], replaced by [arabic]. *)
Definition re_roman (roman arabic : text) : matcher text := fun prev s =>
  if word_boundary prev (head s)
  then match match_lit roman s with
       | Some rest =>
         if word_boundary (last roman) (head rest)
         then Some (arabic, rest) else None
       | None => None
       end
  else None.

Definition roman_map : list (text * text) :=
  [ (str "i", str "1"); (str "ii", str "2"); (str "iii", str "3");
    (str "iv", str "4"); (str "v", str "5"); (str "vi", str "6") ].

(** [r'(\d)([a-z])'] with [r'\1 \2'] *)
Definition re_digit_letter : matcher text := fun _ s =>
  match s with
  | d :: l :: rest =>
    if is_digit d && is_az l then Some ([d; " "%char; l], rest) else None
  | _ => None
  end.

(** [r'([a-z])(\d)'] with [r'\1 \2'] *)
Definition re_letter_digit : matcher text := fun _ s =>
  match s with
  | l :: d :: rest =>
    if is_az l && is_digit d then Some ([l; " "%char; d], rest) else None
  | _ => None
  end.

(** [r'\s+'] with [' '] *)
Definition re_spaces : matcher text := fun _ s =>
  match s with
  | c :: s' =>
    if is_space c then Some (str " ", drop_while is_space s') else None
  | [] => None
  end.

Definition roman_to_arabic (s : text) : text :=
  fold_left (fun t ra => re_sub (re_roman ra.1 ra.2) t) roman_map s.

(** [normalize_text].  The two [replace] calls for U+2013 and U+2014 have
    nothing to replace in a string of the modelled range. *)
Definition normalize_text (s : text) : text :=
  let s := map strip_accent s in
  let s := lower s in
  let s := re_sub re_punct s in
  let s := roman_to_arabic s in
  let s := re_sub re_digit_letter s in
  let s := re_sub re_letter_digit s in
  let s := re_sub re_spaces s in
  strip s.

(** *** The alias tables *)

Definition CANONICAL_BOOKS_items : list (string * string) :=
  [ ("genesis", "Genesis"); ("gen", "Genesis"); ("ge", "Genesis");
    ("gn", "Genesis"); ("exodus", "Exodus"); ("ex", "Exodus");
    ("exo", "Exodus"); ("exod", "Exodus"); ("leviticus", "Leviticus");
    ("lev", "Leviticus"); ("le", "Leviticus"); ("levit", "Leviticus");
    ("lv", "Leviticus"); ("numeri", "Numbers"); ("numbers", "Numbers");
    ("num", "Numbers"); ("nu", "Numbers"); ("numb", "Numbers");
    ("nm", "Numbers"); ("nb", "Numbers"); ("deuteronomium", "Deuteronomy");
    ("deuteronomy", "Deuteronomy"); ("deut", "Deuteronomy");
    ("deu", "Deuteronomy"); ("dt", "Deuteronomy"); ("jozua", "Joshua");
    ("joshua", "Joshua"); ("joz", "Joshua"); ("jos", "Joshua");
    ("jo", "Joshua"); ("josh", "Joshua"); ("richteren", "Judges");
    ("rechters", "Judges"); ("richt", "Judges"); ("rech", "Judges");
    ("ri", "Judges"); ("judges", "Judges"); ("judg", "Judges");
    ("jdg", "Judges"); ("jgs", "Judges"); ("ruth", "Ruth"); ("ru", "Ruth");
    ("rt", "Ruth"); ("rut", "Ruth"); ("rth", "Ruth");
    ("1 samuel", "1Samuel"); ("1 samuelconsole", "1Samuel");
    ("1sam", "1Samuel"); ("1 sam", "1Samuel"); ("i samuel", "1Samuel");
    ("i sam", "1Samuel"); ("1 sm", "1Samuel"); ("1sa", "1Samuel");
    ("1s", "1Samuel"); ("2 samuel", "2Samuel");
    ("2 samuelconsole", "2Samuel"); ("2sam", "2Samuel");
    ("2 sam", "2Samuel"); ("ii samuel", "2Samuel"); ("ii sam", "2Samuel");
    ("2 sm", "2Samuel"); ("2sa", "2Samuel"); ("2s", "2Samuel");
    ("1 koningen", "1Kings"); ("1kings", "1Kings"); ("1 kings", "1Kings");
    ("1kon", "1Kings"); ("1 kon", "1Kings"); ("i koningen", "1Kings");
    ("i kon", "1Kings"); ("1kgs", "1Kings"); ("1 kgs", "1Kings");
    ("1ki", "1Kings"); ("1k", "1Kings"); ("2 koningen", "2Kings");
    ("2kings", "2Kings"); ("2 kings", "2Kings"); ("2kon", "2Kings");
    ("2 kon", "2Kings"); ("ii koningen", "2Kings"); ("ii kon", "2Kings");
    ("2kgs", "2Kings"); ("2 kgs", "2Kings"); ("2ki", "2Kings");
    ("2k", "2Kings"); ("1 kronieken", "1Chronicles");
    ("1chronicles", "1Chronicles"); ("1 chronicles", "1Chronicles");
    ("1kron", "1Chronicles"); ("1 kron", "1Chronicles");
    ("1 kr", "1Chronicles"); ("i kronieken", "1Chronicles");
    ("i kron", "1Chronicles"); ("1chr", "1Chronicles");
    ("1 chr", "1Chronicles"); ("1chron", "1Chronicles");
    ("1 chron", "1Chronicles"); ("1ch", "1Chronicles");
    ("2 kronieken", "2Chronicles"); ("2chronicles", "2Chronicles");
    ("2 chronicles", "2Chronicles"); ("2kron", "2Chronicles");
    ("2 kron", "2Chronicles"); ("2 kr", "2Chronicles");
    ("ii kronieken", "2Chronicles"); ("ii kron", "2Chronicles");
    ("2chr", "2Chronicles"); ("2 chr", "2Chronicles");
    ("2chron", "2Chronicles"); ("2 chron", "2Chronicles");
    ("2ch", "2Chronicles"); ("ezra", "Ezra"); ("ezr", "Ezra");
    ("ez", "Ezra"); ("nehemia", "Nehemiah"); ("nehemiah", "Nehemiah");
    ("neh", "Nehemiah"); ("ne", "Nehemiah"); ("ester", "Esther");
    ("esther", "Esther"); ("est", "Esther"); ("es", "Esther");
    ("job", "Job"); ("jb", "Job"); ("psalm", "Psalms"); ("psalms", "Psalms");
    ("psalmen", "Psalms"); ("ps", "Psalms"); ("psa", "Psalms");
    ("pss", "Psalms"); ("psm", "Psalms"); ("spreuken", "Proverbs");
    ("proverbs", "Proverbs"); ("spr", "Proverbs"); ("sp", "Proverbs");
    ("prov", "Proverbs"); ("pro", "Proverbs"); ("pr", "Proverbs");
    ("prv", "Proverbs"); ("prediker", "Ecclesiastes");
    ("ecclesiastes", "Ecclesiastes"); ("pred", "Ecclesiastes");
    ("eccl", "Ecclesiastes"); ("ecc", "Ecclesiastes");
    ("ec", "Ecclesiastes"); ("qoh", "Ecclesiastes");
    ("hooglied", "Song of Solomon"); ("song of solomon", "Song of Solomon");
    ("song of songs", "Song of Solomon"); ("hoogl", "Song of Solomon");
    ("hl", "Song of Solomon"); ("lied der liederen", "Song of Solomon");
    ("ldl", "Song of Solomon"); ("sos", "Song of Solomon");
    ("ss", "Song of Solomon"); ("cant", "Song of Solomon");
    ("song", "Song of Solomon"); ("jesaja", "Isaiah"); ("isaiah", "Isaiah");
    ("jes", "Isaiah"); ("js", "Isaiah"); ("isa", "Isaiah"); ("is", "Isaiah");
    ("jeremia", "Jeremiah"); ("jeremiah", "Jeremiah"); ("jer", "Jeremiah");
    ("je", "Jeremiah"); ("klaagliederen", "Lam"); ("lamentations", "Lam");
    ("klaagl", "Lam"); ("kla", "Lam"); ("lam", "Lam"); ("la", "Lam");
    ("ezechiel", "Ezekiel"); ("ezekiel", "Ezekiel"); ("ezech", "Ezekiel");
    ("eze", "Ezekiel"); ("ezk", "Ezekiel"); ("ek", "Ezekiel");
    ("daniel", "Daniel"); ("dan", "Daniel"); ("dn", "Daniel");
    ("da", "Daniel"); ("hosea", "Hosea"); ("hos", "Hosea"); ("ho", "Hosea");
    ("joel", "Joel"); ("jl", "Joel"); ("joe", "Joel"); ("jol", "Joel");
    ("amos", "Amos"); ("am", "Amos"); ("amo", "Amos"); ("obadja", "Obadiah");
    ("obadiah", "Obadiah"); ("ob", "Obadiah"); ("obad", "Obadiah");
    ("oba", "Obadiah"); ("jona", "Jonah"); ("jonah", "Jonah");
    ("jon", "Jonah"); ("jnh", "Jonah"); ("micha", "Micah");
    ("micah", "Micah"); ("mi", "Micah"); ("mic", "Micah");
    ("nahum", "Nahum"); ("nah", "Nahum"); ("na", "Nahum"); ("nah", "Nahum");
    ("habakuk", "Habakkuk"); ("habakkuk", "Habakkuk"); ("hab", "Habakkuk");
    ("hb", "Habakkuk"); ("sefanja", "Zephaniah"); ("zefanja", "Zephaniah");
    ("zephaniah", "Zephaniah"); ("sef", "Zephaniah"); ("zef", "Zephaniah");
    ("zep", "Zephaniah"); ("zph", "Zephaniah"); ("haggai", "Haggai");
    ("hag", "Haggai"); ("hg", "Haggai"); ("zacharia", "Zechariah");
    ("zechariah", "Zechariah"); ("zach", "Zechariah"); ("zac", "Zechariah");
    ("zec", "Zechariah"); ("zch", "Zechariah"); ("maleachi", "Malachi");
    ("malachi", "Malachi"); ("mal", "Malachi"); ("matteus", "Matthew");
    ("mattheüs", "Matthew"); ("matthéüs", "Matthew"); ("matth", "Matthew");
    ("matthew", "Matthew"); ("mat", "Matthew"); ("matt", "Matthew");
    ("mt", "Matthew"); ("marcus", "Mark"); ("markus", "Mark");
    ("mark", "Mark"); ("mar", "Mark"); ("marc", "Mark"); ("mr", "Mark");
    ("mk", "Mark"); ("mrk", "Mark"); ("lucas", "Luke"); ("lukas", "Luke");
    ("luke", "Luke"); ("luc", "Luke"); ("lc", "Luke"); ("lu", "Luke");
    ("luk", "Luke"); ("lk", "Luke"); ("johannes", "John"); ("john", "John");
    ("joh", "John"); ("jn", "John"); ("handelingen", "Acts");
    ("acts", "Acts"); ("hand", "Acts"); ("hd", "Acts"); ("hnd", "Acts");
    ("ac", "Acts"); ("act", "Acts"); ("romeinen", "Romans");
    ("romans", "Romans"); ("rom", "Romans"); ("rm", "Romans");
    ("ro", "Romans"); ("1 korinthe", "1Corinthians");
    ("1 korintiers", "1Corinthians"); ("1corinthians", "1Corinthians");
    ("1 corinthians", "1Corinthians"); ("1kor", "1Corinthians");
    ("1 kor", "1Corinthians"); ("1 cor", "1Corinthians");
    ("1cor", "1Corinthians"); ("i korinthe", "1Corinthians");
    ("i kor", "1Corinthians"); ("1co", "1Corinthians");
    ("2 korinthe", "2Corinthians"); ("2 korintiers", "2Corinthians");
    ("2corinthians", "2Corinthians"); ("2 corinthians", "2Corinthians");
    ("2kor", "2Corinthians"); ("2 kor", "2Corinthians");
    ("2 cor", "2Corinthians"); ("2cor", "2Corinthians");
    ("ii korinthe", "2Corinthians"); ("ii kor", "2Corinthians");
    ("2co", "2Corinthians"); ("galaten", "Galatians");
    ("galatians", "Galatians"); ("gal", "Galatians"); ("ga", "Galatians");
    ("glt", "Galatians"); ("efeze", "Ephesians"); ("efeziers", "Ephesians");
    ("ephesians", "Ephesians"); ("ef", "Ephesians"); ("eph", "Ephesians");
    ("ep", "Ephesians"); ("filippenzen", "Philippians");
    ("filipenzen", "Philippians"); ("philippians", "Philippians");
    ("fil", "Philippians"); ("phil", "Philippians"); ("php", "Philippians");
    ("pp", "Philippians"); ("kolossenzen", "Colossians");
    ("colossenzen", "Colossians"); ("colossians", "Colossians");
    ("kol", "Colossians"); ("col", "Colossians"); ("co", "Colossians");
    ("1 thessalonicenzen", "1Thessalonians");
    ("1 tessalonicenzen", "1Thessalonians");
    ("1thessalonians", "1Thessalonians");
    ("1 thessalonians", "1Thessalonians"); ("1thess", "1Thessalonians");
    ("1 thess", "1Thessalonians"); ("1thes", "1Thessalonians");
    ("1 thes", "1Thessalonians"); ("1 tes", "1Thessalonians");
    ("1th", "1Thessalonians"); ("i thessalonicenzen", "1Thessalonians");
    ("i thess", "1Thessalonians"); ("i tes", "1Thessalonians");
    ("1ts", "1Thessalonians"); ("2 thessalonicenzen", "2Thessalonians");
    ("2 tessalonicenzen", "2Thessalonians");
    ("2thessalonians", "2Thessalonians");
    ("2 thessalonians", "2Thessalonians"); ("2thess", "2Thessalonians");
    ("2 thess", "2Thessalonians"); ("2thes", "2Thessalonians");
    ("2 thes", "2Thessalonians"); ("2 tes", "2Thessalonians");
    ("2th", "2Thessalonians"); ("ii thessalonicenzen", "2Thessalonians");
    ("ii thess", "2Thessalonians"); ("ii tes", "2Thessalonians");
    ("2ts", "2Thessalonians"); ("1 timoteus", "1Timothy");
    ("1 timotheus", "1Timothy"); ("1timothy", "1Timothy");
    ("1 timothy", "1Timothy"); ("1tim", "1Timothy"); ("1 tim", "1Timothy");
    ("1ti", "1Timothy"); ("i timoteus", "1Timothy"); ("i tim", "1Timothy");
    ("1tm", "1Timothy"); ("2 timoteus", "2Timothy");
    ("2 timotheus", "2Timothy"); ("2timothy", "2Timothy");
    ("2 timothy", "2Timothy"); ("2tim", "2Timothy"); ("2 tim", "2Timothy");
    ("2ti", "2Timothy"); ("ii timoteus", "2Timothy"); ("ii tim", "2Timothy");
    ("2tm", "2Timothy"); ("titus", "Titus"); ("tit", "Titus");
    ("ti", "Titus"); ("tt", "Titus"); ("filemon", "Philemon");
    ("philemon", "Philemon"); ("filem", "Philemon"); ("flm", "Philemon");
    ("phm", "Philemon"); ("pm", "Philemon"); ("phlm", "Philemon");
    ("hebreeen", "Hebrews"); ("hebrews", "Hebrews"); ("hebr", "Hebrews");
    ("heb", "Hebrews"); ("he", "Hebrews"); ("jakobus", "James");
    ("jacobus", "James"); ("james", "James"); ("jak", "James");
    ("jac", "James"); ("jas", "James"); ("jms", "James"); ("jam", "James");
    ("jm", "James"); ("1 petrus", "1Peter"); ("1peter", "1Peter");
    ("1 peter", "1Peter"); ("1 petr", "1Peter"); ("1 pet", "1Peter");
    ("1pe", "1Peter"); ("i petrus", "1Peter"); ("i petr", "1Peter");
    ("i pet", "1Peter"); ("1pt", "1Peter"); ("1p", "1Peter");
    ("2 petrus", "2Peter"); ("2peter", "2Peter"); ("2 peter", "2Peter");
    ("2 petr", "2Peter"); ("2 pet", "2Peter"); ("2pe", "2Peter");
    ("ii petrus", "2Peter"); ("ii petr", "2Peter"); ("ii pet", "2Peter");
    ("2pt", "2Peter"); ("2p", "2Peter"); ("1 johannes", "1John");
    ("1john", "1John"); ("1 john", "1John"); ("1joh", "1John");
    ("1 joh", "1John"); ("1jn", "1John"); ("i johannes", "1John");
    ("i joh", "1John"); ("1j", "1John"); ("2 johannes", "2John");
    ("2john", "2John"); ("2 john", "2John"); ("2joh", "2John");
    ("2 joh", "2John"); ("2jn", "2John"); ("ii johannes", "2John");
    ("ii joh", "2John"); ("2j", "2John"); ("3 johannes", "3John");
    ("3john", "3John"); ("3 john", "3John"); ("3joh", "3John");
    ("3 joh", "3John"); ("3jn", "3John"); ("iii johannes", "3John");
    ("iii joh", "3John"); ("3j", "3John"); ("judas", "Jude");
    ("jude", "Jude"); ("jud", "Jude"); ("jd", "Jude");
    ("openbaring", "Revelation"); ("revelation", "Revelation");
    ("openb", "Revelation"); ("opb", "Revelation"); ("op", "Revelation");
    ("apocalyps", "Revelation"); ("apokalyps", "Revelation");
    ("rev", "Revelation"); ("re", "Revelation"); ("rv", "Revelation") ].

Definition APOCRYPHAL_BOOKS_items : list (string * string) :=
  [ ("tobit", "Tobit"); ("tobias", "Tobit"); ("tob", "Tobit");
    ("judit", "Judith"); ("judith", "Judith"); ("jdt", "Judith");
    ("wijsheid", "Wisdom"); ("wijsheid van salomo", "Wisdom");
    ("wijsh", "Wisdom"); ("wis", "Wisdom"); ("sirach", "Sirach");
    ("jezus sirach", "Sirach"); ("jesus sirach", "Sirach");
    ("sir", "Sirach"); ("ecclesiasticus", "Sirach"); ("eccli", "Sirach");
    ("baruch", "Baruch"); ("bar", "Baruch");
    ("brief van jeremia", "Letter of Jeremiah");
    ("brief van jeremias", "Letter of Jeremiah");
    ("brief jeremia", "Letter of Jeremiah");
    ("letjer", "Letter of Jeremiah"); ("1 makkabeeen", "1Maccabees");
    ("1 makkabeen", "1Maccabees"); ("1 makk", "1Maccabees");
    ("1 mak", "1Maccabees"); ("1macc", "1Maccabees");
    ("1 maccabeeen", "1Maccabees"); ("2 makkabeeen", "2Maccabees");
    ("2 makkabeen", "2Maccabees"); ("2 makk", "2Maccabees");
    ("2 mak", "2Maccabees"); ("2macc", "2Maccabees");
    ("2 maccabeeen", "2Maccabees"); ("3 makkabeeen", "3Maccabees");
    ("3 makkabeen", "3Maccabees"); ("3 makk", "3Maccabees");
    ("3 mak", "3Maccabees"); ("3macc", "3Maccabees");
    ("3 maccabeeen", "3Maccabees"); ("4 makkabeeen", "4Maccabees");
    ("4 makkabeen", "4Maccabees"); ("4 makk", "4Maccabees");
    ("4 mak", "4Maccabees"); ("4macc", "4Maccabees");
    ("4 maccabeeen", "4Maccabees");
    ("toevoegingen bij ester", "Additions to Esther");
    ("toevoegingen bij esther", "Additions to Esther");
    ("addesther", "Additions to Esther");
    ("gebed van azarja", "Prayer of Azariah");
    ("gebed azarja", "Prayer of Azariah"); ("azariah", "Prayer of Azariah");
    ("song of the three", "Prayer of Azariah");
    ("songofthree", "Prayer of Azariah"); ("susanna", "Susanna");
    ("sus", "Susanna"); ("bel en de draak", "Bel and the Dragon");
    ("bel en draak", "Bel and the Dragon");
    ("belandthedragon", "Bel and the Dragon");
    ("gebed van manasse", "Prayer of Manasseh");
    ("manasse", "Prayer of Manasseh") ].

(** A dict literal, in insertion order: a key written twice keeps its
    first place and takes the later value. *)
Fixpoint dict_set (k v : text) (d : list (text * text)) : list (text * text) :=
  match d with
  | [] => [(k, v)]
  | (k', v') :: d' =>
    if text_eqb k k' then (k, v) :: d' else (k', v') :: dict_set k v d'
  end.

Definition dict_update (d : list (text * text)) (items : list (text * text))
    : list (text * text) :=
  fold_left (fun d kv => dict_set kv.1 kv.2 d) items d.

Definition dict_literal (items : list (string * string)) : list (text * text) :=
  dict_update [] (map (fun kv => (str kv.1, str kv.2)) items).

Definition CANONICAL_BOOKS : list (text * text) :=
  dict_literal CANONICAL_BOOKS_items.

Definition APOCRYPHAL_BOOKS : list (text * text) :=
  dict_literal APOCRYPHAL_BOOKS_items.

(** [s.replace(' ', '')] *)
Definition remove_spaces (s : text) : text :=
  filter (fun c => c <> " "%char) s.

(** [build_book_mapping] *)
Definition build_book_mapping (include_apocrypha : bool) : gmap text text :=
  let mapping :=
    if include_apocrypha then dict_update CANONICAL_BOOKS APOCRYPHAL_BOOKS
    else CANONICAL_BOOKS in
  fold_left
    (fun normalized_mapping kv =>
       let norm_key := normalize_text kv.1 in
       let no_space_key := remove_spaces norm_key in
       <[no_space_key := kv.2]>
         (<[norm_key := kv.2]> (<[kv.1 := kv.2]> normalized_mapping)))
    mapping (∅ : gmap text text).

(** [key in mapping] *)
Definition has_key (mapping : gmap text text) (key : text) : bool :=
  bool_decide (is_Some (mapping !! key)).

(** The loop of [parse_reference] over [i = len(tokens) .. 1]: the values
    of [book_part] and [rest_part] when it ends, both empty when no [i]
    breaks out of it. *)
Fixpoint find_book (mapping : gmap text text) (tokens : list text) (i : nat)
    : text * text :=
  match i with
  | O => ([], [])
  | S i' =>
    let potential_book := join (str " ") (take i tokens) in
    let potential_rest := join (str " ") (drop i tokens) in
    if has_key mapping potential_book
    then (potential_book, potential_rest)
    else
      let potential_book_no_space := remove_spaces potential_book in
      if has_key mapping potential_book_no_space
      then (potential_book_no_space, potential_rest)
      else find_book mapping tokens i'
  end.

Definition single_chapter_books : list text :=
  [str "Jude"; str "Obadiah"; str "Philemon"; str "2John"; str "3John"].

(** The part of [parse_reference] after the mapping is built. *)
Definition parse_reference_in (mapping : gmap text text) (reference : text)
    : result text :=
  if bool_decide (strip reference = [])
  then Raise (ValueError (str "Empty reference provided"))
  else
    let norm_ref := normalize_text reference in
    let tokens := split_ws norm_ref in
    match tokens with
    | [] => Raise (ValueError (str "Invalid reference format"))
    | first :: _ =>
      let '(book_part, rest_part) := find_book mapping tokens (length tokens) in
      if bool_decide (book_part = [])
      then Raise (ValueError (str "Unknown Bible book: '" ++ first ++ str "'"))
      else
        match mapping !! book_part with
        | None => Raise (KeyError book_part)
        | Some english_book =>
          if bool_decide (rest_part = []) then Ok english_book
          else if negb (contains (str ":") rest_part)
                  && negb (bool_decide (strip rest_part = []))
                  && bool_decide (english_book ∈ single_chapter_books)
          then Ok (english_book ++ str " 1:" ++ strip rest_part)
          else Ok (english_book ++ str " " ++ strip rest_part)
        end
    end.

Definition parse_reference (reference : text) (include_apocrypha : bool)
    : result text :=
  parse_reference_in (build_book_mapping include_apocrypha) reference.

(** [re.match(r'^\d+(-\d+)?$', s)]: [$] also matches before a final
    newline. *)
Definition at_end (s : text) : bool :=
  bool_decide (s = []) || bool_decide (s = [ascii_of_N 10]).

Definition is_number_or_range (s : text) : bool :=
  match take_while is_digit s with
  | [] => false
  | _ :: _ =>
    let rest := drop_while is_digit s in
    at_end rest ||
    match rest with
    | "-"%char :: rest' =>
      match take_while is_digit rest' with
      | [] => false
      | _ :: _ => at_end (drop_while is_digit rest')
      end
    | _ => false
    end
  end.

(** [[p.strip() for p in s.split(sep) if p.strip()]] *)
Definition split_parts (sep : ascii) (s : text) : list text :=
  map strip (filter (fun p => strip p <> []) (split_on sep s)).

(** The state of [expand_reference_shorthand]. *)
Record expander := {
  result_list : list text;
  last_book : option text;
  last_chapter : option text;
}.

(** The loop over [i = len(tokens) .. 1] that looks for a book name at
    the head of a comma part: the first [i] that breaks. *)
Fixpoint find_book_prefix (mapping : gmap text text) (tokens : list text)
    (i : nat) : option nat :=
  match i with
  | O => None
  | S i' =>
    let potential_book := join (str " ") (map normalize_text (take i tokens)) in
    if has_key mapping potential_book
       || has_key mapping (remove_spaces potential_book)
    then Some i
    else find_book_prefix mapping tokens i'
  end.

(** [rest.split(':')[0].strip()] *)
Definition before_colon (s : text) : text :=
  strip (default [] (head (split_on ":" s))).

(** The body of the inner loop, for one comma part. *)
Definition expand_comma_part (mapping : gmap text text) (st : expander)
    (comma_part : text) : result expander :=
  let tokens := split_ws comma_part in
  match find_book_prefix mapping tokens (length tokens) with
  | Some i =>
    let rest := join (str " ") (drop i tokens) in
    Ok {| result_list := result_list st ++ [comma_part];
          last_book := Some (join (str " ") (take i tokens));
          last_chapter :=
            if negb (bool_decide (rest = [])) && contains (str ":") rest
            then Some (before_colon rest)
            else last_chapter st |}
  | None =>
    if contains (str ":") comma_part then
      if truthy (last_book st) then
        Ok {| result_list :=
                result_list st ++
                [default [] (last_book st) ++ str " " ++ comma_part];
              last_book := last_book st;
              last_chapter := Some (before_colon comma_part) |}
      else
        Raise (ValueError (str "Reference '" ++ comma_part
                           ++ str "' has no book context"))
    else if is_number_or_range comma_part then
      if truthy (last_book st) && truthy (last_chapter st) then
        Ok {| result_list :=
                result_list st ++
                [default [] (last_book st) ++ str " "
                 ++ default [] (last_chapter st) ++ str ":" ++ comma_part];
              last_book := last_book st;
              last_chapter := last_chapter st |}
      else if truthy (last_book st) then
        Ok {| result_list :=
                result_list st ++
                [default [] (last_book st) ++ str " " ++ comma_part];
              last_book := last_book st;
              last_chapter := Some comma_part |}
      else
        Raise (ValueError (str "Reference '" ++ comma_part
                           ++ str "' has no book/chapter context"))
    else
      Ok {| result_list := result_list st ++ [comma_part];
            last_book := last_book st;
            last_chapter := last_chapter st |}
  end.

(** The body of the outer loop, for one semicolon part. *)
Definition expand_semi_part (mapping : gmap text text) (st : expander)
    (semi_part : text) : result expander :=
  do st' <- for_each (expand_comma_part mapping) st (split_parts "," semi_part);
  Ok {| result_list := result_list st';
        last_book := last_book st';
        last_chapter := None |}.

(** [expand_reference_shorthand].  The source rebuilds the mapping for
    every comma part; it is the same value each time. *)
Definition expand_reference_shorthand (reference : text)
    (include_apocrypha : bool) : result (list text) :=
  if bool_decide (strip reference = []) then Ok []
  else
    let mapping := build_book_mapping include_apocrypha in
    do st <- for_each (expand_semi_part mapping)
               {| result_list := []; last_book := None; last_chapter := None |}
               (split_parts ";" reference);
    Ok (result_list st).

(** *** The command line driver *)

(** What the run leaves behind: lines on the two output streams and the
    processes it starts. *)
Inductive event :=
  | Stdout (line : text)
  | Stderr (line : text)
  | Spawn (cmd : list text).

(** How [subprocess.run(cmd, check=True)] ends once the process is
    started: the process exits with a return code (a non-zero one is the
    [CalledProcessError] that [run_diatheke] turns back into the code),
    or the program is not found. *)
Inductive outcome :=
  | Exited (returncode : Z)
  | FileNotFound.

(** A command with a NUL character in one of its words is refused
    before anything is started: [ValueError: embedded null byte]. *)
Definition has_nul (cmd : list text) : bool :=
  existsb (existsb (Ascii.eqb zero)) cmd.

Record arguments := {
  arg_module : text;
  arg_format : text;
  arg_options : option text;
  arg_echo : bool;
  arg_dry_run : bool;
  arg_apocrypha : bool;
}.

Section Driver.

(** The world outside: the outcome of the [n]-th process the run starts,
    given its command line. *)
Variable subprocess_run : nat -> list text -> outcome.

(** [run_diatheke]: the events it causes, whether it started a process,
    and the code it returns or the exception it lets through. *)
Definition run_diatheke (n : nat) (module reference format_type : text)
    (options : option text) (echo dry_run : bool)
    : list event * bool * result Z :=
  let cmd :=
    [str "diatheke"; str "-b"; module; str "-f"; format_type]
    ++ (if truthy options then [str "-o"; default [] options] else [])
    ++ [str "-k"; reference] in
  let shown :=
    if echo || dry_run
    then [Stdout (str "[CMD] " ++ join (str " ") cmd)] else [] in
  if dry_run then (shown, false, Ok 0%Z)
  else if has_nul cmd
  then (shown, false, Raise (ValueError (str "embedded null byte")))
  else
    match subprocess_run n cmd with
    | Exited returncode => (shown ++ [Spawn cmd], true, Ok returncode)
    | FileNotFound =>
      (shown ++ [Spawn cmd;
                 Stderr (str "ERROR: diatheke command not found. Please install SWORD tools.")],
       true, Ok 1%Z)
    end.

(** The [try] block of the loop of [main] up to the call of
    [run_diatheke]: one reference to the compound key. *)
Definition resolve (args : arguments) (ref : text) : result text :=
  do expanded_refs <- expand_reference_shorthand ref (arg_apocrypha args);
  do english_refs <-
    map_result (fun r => parse_reference r (arg_apocrypha args)) expanded_refs;
  Ok (join (str "; ") english_refs).

Record run_state := {
  exit_code : Z;
  events : list event;
  spawned : nat;
}.

(** One turn of the loop of [main].  [except ValueError] reports and
    goes on, for the [ValueError] of the resolution and for the one of
    [subprocess.run] alike; any other exception leaves the loop. *)
Definition main_step (args : arguments) (st : run_state) (ref : text)
    : result run_state :=
  match resolve args ref with
  | Ok combined_english_ref =>
    let '(evs, started, result) :=
      run_diatheke (spawned st) (arg_module args) combined_english_ref
        (arg_format args) (arg_options args) (arg_echo args)
        (arg_dry_run args) in
    let spawned := if started then S (spawned st) else spawned st in
    match result with
    | Ok result =>
      Ok {| exit_code := Z.max (exit_code st) result;
            events := events st ++ evs;
            spawned := spawned |}
    | Raise (ValueError msg) =>
      Ok {| exit_code := 1;
            events := events st ++ evs ++ [Stderr (str "ERROR: " ++ msg)];
            spawned := spawned |}
    | Raise e => Raise e
    end
  | Raise (ValueError msg) =>
    Ok {| exit_code := 1;
          events := events st ++ [Stderr (str "ERROR: " ++ msg)];
          spawned := spawned st |}
  | Raise e => Raise e
  end.

(** The loop of [main] over the collected references.  Its handler of
    [KeyboardInterrupt], which ends [main] at once with 130, has no
    counterpart here: no interrupt arrives in a run of the model. *)
Definition main_loop (args : arguments) (references : list text)
    : result run_state :=
  for_each (main_step args)
    {| exit_code := 0; events := []; spawned := 0 |} references.

End Driver.

End DutchDiatheke.

(** ** bible-to-format_v2.py *)

Module BibleToFormat.

(** *** Book names and version tags *)

Definition DUTCH_MODULES : list text :=
  [str "HSV"; str "DutSVV"; str "NBV21"; str "BGT"; str "GBS"; str "DutSVVA"].

Definition DUTCH_BOOK_NAMES_items : list (string * string) :=
  [ ("Genesis", "Genesis"); ("Exodus", "Exodus"); ("Leviticus", "Leviticus");
    ("Numbers", "Numeri"); ("Deuteronomy", "Deuteronomium");
    ("Joshua", "Jozua"); ("Judges", "Richteren"); ("Ruth", "Ruth");
    ("1Samuel", "1 Samuël"); ("2Samuel", "2 Samuël");
    ("I Samuel", "1 Samuël"); ("II Samuel", "2 Samuël");
    ("1Kings", "1 Koningen"); ("2Kings", "2 Koningen");
    ("I Kings", "1 Koningen"); ("II Kings", "2 Koningen");
    ("1Chronicles", "1 Kronieken"); ("2Chronicles", "2 Kronieken");
    ("I Chronicles", "1 Kronieken"); ("II Chronicles", "2 Kronieken");
    ("Ezra", "Ezra"); ("Nehemiah", "Nehemia"); ("Esther", "Esther");
    ("Job", "Job"); ("Psalms", "Psalmen"); ("Proverbs", "Spreuken");
    ("Ecclesiastes", "Prediker"); ("Song of Solomon", "Hooglied");
    ("Isaiah", "Jesaja"); ("Jeremiah", "Jeremia");
    ("Lamentations", "Klaagliederen"); ("Ezekiel", "Ezechiël");
    ("Daniel", "Daniël"); ("Hosea", "Hosea"); ("Joel", "Joël");
    ("Amos", "Amos"); ("Obadiah", "Obadja"); ("Jonah", "Jona");
    ("Micah", "Micha"); ("Nahum", "Nahum"); ("Habakkuk", "Habakuk");
    ("Zephaniah", "Zefanja"); ("Haggai", "Haggaï");
    ("Zechariah", "Zacharia"); ("Malachi", "Maleachi");
    ("Matthew", "Mattheüs"); ("Mark", "Marcus"); ("Luke", "Lucas");
    ("John", "Johannes"); ("Acts", "Handelingen"); ("Romans", "Romeinen");
    ("1Corinthians", "1 Korinthe"); ("2Corinthians", "2 Korinthe");
    ("I Corinthians", "1 Korinthe"); ("II Corinthians", "2 Korinthe");
    ("Galatians", "Galaten"); ("Ephesians", "Efeze");
    ("Philippians", "Filippenzen"); ("Colossians", "Kolossenzen");
    ("1Thessalonians", "1 Thessalonicenzen");
    ("2Thessalonians", "2 Thessalonicenzen"); ("1Timothy", "1 Timotheüs");
    ("2Timothy", "2 Timotheüs"); ("I Timothy", "1 Timotheüs");
    ("II Timothy", "2 Timotheüs"); ("Titus", "Titus");
    ("Philemon", "Filemon"); ("Hebrews", "Hebreeën"); ("James", "Jakobus");
    ("1Peter", "1 Petrus"); ("2Peter", "2 Petrus"); ("I Peter", "1 Petrus");
    ("II Peter", "2 Petrus"); ("1John", "1 Johannes");
    ("2John", "2 Johannes"); ("3John", "3 Johannes"); ("Jude", "Judas");
    ("Revelation", "Openbaring") ].

Definition DUTCH_BOOK_ABBREV_items : list (string * string) :=
  [ ("Genesis", "Gen."); ("Exodus", "Ex."); ("Leviticus", "Lev.");
    ("Numbers", "Num."); ("Deuteronomy", "Deut."); ("Joshua", "Joz.");
    ("Judges", "Richt."); ("Ruth", "Ruth"); ("1Samuel", "1 Sam.");
    ("2Samuel", "2 Sam."); ("I Samuel", "1 Sam."); ("II Samuel", "2 Sam.");
    ("1Kings", "1 Kon."); ("2Kings", "2 Kon."); ("I Kings", "1 Kon.");
    ("II Kings", "2 Kon."); ("1Chronicles", "1 Kron.");
    ("2Chronicles", "2 Kron."); ("I Chronicles", "1 Kron.");
    ("II Chronicles", "2 Kron."); ("Ezra", "Ezra"); ("Nehemiah", "Neh.");
    ("Esther", "Est."); ("Job", "Job"); ("Psalms", "Ps.");
    ("Proverbs", "Spr."); ("Ecclesiastes", "Pred.");
    ("Song of Solomon", "Hoogl."); ("Isaiah", "Jes."); ("Jeremiah", "Jer.");
    ("Lamentations", "Klaagl."); ("Ezekiel", "Ez."); ("Daniel", "Dan.");
    ("Hosea", "Hos."); ("Joel", "Joël"); ("Amos", "Am."); ("Obadiah", "Ob.");
    ("Jonah", "Jona"); ("Micah", "Micha"); ("Nahum", "Nah.");
    ("Habakkuk", "Hab."); ("Zephaniah", "Zef."); ("Haggai", "Hag.");
    ("Zechariah", "Zach."); ("Malachi", "Mal."); ("Matthew", "Matt.");
    ("Mark", "Mark"); ("Luke", "Luk."); ("John", "Joh."); ("Acts", "Hand.");
    ("Romans", "Rom."); ("1Corinthians", "1 Kor.");
    ("2Corinthians", "2 Kor."); ("I Corinthians", "1 Kor.");
    ("II Corinthians", "2 Kor."); ("Galatians", "Gal.");
    ("Ephesians", "Ef."); ("Philippians", "Fil."); ("Colossians", "Kol.");
    ("1Thessalonians", "1 Thess."); ("2Thessalonians", "2 Thess.");
    ("1Timothy", "1 Tim."); ("2Timothy", "2 Tim."); ("I Timothy", "1 Tim.");
    ("II Timothy", "2 Tim."); ("Titus", "Tit."); ("Philemon", "Filem.");
    ("Hebrews", "Hebr."); ("James", "Jak."); ("1Peter", "1 Petr.");
    ("2Peter", "2 Petr."); ("I Peter", "1 Petr."); ("II Peter", "2 Petr.");
    ("1John", "1 Joh."); ("2John", "2 Joh."); ("3John", "3 Joh.");
    ("Jude", "Judas"); ("Revelation", "Openb.") ].

Definition VERSION_ABBREV_items : list (string * string) :=
  [ ("DutSVV", "SV"); ("GBS2", "SV-GBS") ].

Definition ENGLISH_BOOK_ABBREV_items : list (string * string) :=
  [ ("Genesis", "Gen."); ("Exodus", "Ex."); ("Leviticus", "Lev.");
    ("Numbers", "Num."); ("Deuteronomy", "Deut."); ("Joshua", "Josh.");
    ("Judges", "Judg."); ("Ruth", "Ruth"); ("1Samuel", "1 Sam.");
    ("2Samuel", "2 Sam."); ("I Samuel", "1 Sam."); ("II Samuel", "2 Sam.");
    ("1Kings", "1 Kings"); ("2Kings", "2 Kings"); ("I Kings", "1 Kings");
    ("II Kings", "2 Kings"); ("1Chronicles", "1 Chron.");
    ("2Chronicles", "2 Chron."); ("I Chronicles", "1 Chron.");
    ("II Chronicles", "2 Chron."); ("Ezra", "Ezra"); ("Nehemiah", "Neh.");
    ("Esther", "Est."); ("Job", "Job"); ("Psalms", "Ps.");
    ("Proverbs", "Prov."); ("Ecclesiastes", "Eccl.");
    ("Song of Solomon", "Song"); ("Isaiah", "Isa."); ("Jeremiah", "Jer.");
    ("Lamentations", "Lam."); ("Ezekiel", "Ezek."); ("Daniel", "Dan.");
    ("Hosea", "Hos."); ("Joel", "Joel"); ("Amos", "Amos");
    ("Obadiah", "Obad."); ("Jonah", "Jon."); ("Micah", "Mic.");
    ("Nahum", "Nah."); ("Habakkuk", "Hab."); ("Zephaniah", "Zeph.");
    ("Haggai", "Hag."); ("Zechariah", "Zech."); ("Malachi", "Mal.");
    ("Matthew", "Matt."); ("Mark", "Mark"); ("Luke", "Luke");
    ("John", "John"); ("Acts", "Acts"); ("Romans", "Rom.");
    ("1Corinthians", "1 Cor."); ("2Corinthians", "2 Cor.");
    ("I Corinthians", "1 Cor."); ("II Corinthians", "2 Cor.");
    ("Galatians", "Gal."); ("Ephesians", "Eph."); ("Philippians", "Phil.");
    ("Colossians", "Col."); ("1Thessalonians", "1 Thess.");
    ("2Thessalonians", "2 Thess."); ("1Timothy", "1 Tim.");
    ("2Timothy", "2 Tim."); ("I Timothy", "1 Tim.");
    ("II Timothy", "2 Tim."); ("Titus", "Titus"); ("Philemon", "Philem.");
    ("Hebrews", "Heb."); ("James", "Jas."); ("1Peter", "1 Pet.");
    ("2Peter", "2 Pet."); ("I Peter", "1 Pet."); ("II Peter", "2 Pet.");
    ("1John", "1 John"); ("2John", "2 John"); ("3John", "3 John");
    ("Jude", "Jude"); ("Revelation", "Rev.") ].

(** A table read with [d.get(key, default)]. *)
Definition table (items : list (string * string)) : gmap text text :=
  list_to_map (reverse (map (fun kv => (str kv.1, str kv.2)) items)).

Definition get_book_name (book : text) (module : option text)
    (book_style : text) : text :=
  if truthy module && bool_decide (default [] module ∈ DUTCH_MODULES) then
    if bool_decide (book_style = str "abbr")
    then default book (table DUTCH_BOOK_ABBREV_items !! book)
    else default book (table DUTCH_BOOK_NAMES_items !! book)
  else if bool_decide (book_style = str "abbr")
  then default book (table ENGLISH_BOOK_ABBREV_items !! book)
  else book.

Definition get_version_tag (module : option text) (version_abbrev : text)
    : text :=
  if negb (truthy module) || bool_decide (version_abbrev = str "none") then []
  else if bool_decide (version_abbrev = str "auto")
  then default (default [] module)
               (table VERSION_ABBREV_items !! default [] module)
  else default [] module.

(** [format_ref_text] *)
Definition format_ref_text (book chapter verse_range module : option text)
    (book_style version_abbrev : text) : text :=
  if negb (truthy book) || negb (truthy chapter) || negb (truthy verse_range)
  then []
  else
    let display_book := get_book_name (default [] book) module book_style in
    let version_tag := get_version_tag module version_abbrev in
    let ref := display_book ++ str " " ++ default [] chapter ++ str ":"
               ++ default [] verse_range in
    match version_tag with
    | [] => ref
    | _ => ref ++ str " " ++ version_tag
    end.

(** *** The parser *)

(** A note: [(label, content, marker)]. *)
Record note := {
  n_label : text;
  n_content : text;
  n_marker : text;
}.

(** A parsed verse:
    [(book, chapter, verse_number, lines, has_smallcaps, notes)]. *)
Record verse := {
  v_book : text;
  v_chapter : text;
  v_number : Z;
  v_lines : list text;
  v_smallcaps : bool;
  v_notes : list note;
}.

Definition not_gt (c : ascii) : bool := negb (Ascii.eqb c ">"%char).
Definition not_lt (c : ascii) : bool := negb (Ascii.eqb c "<"%char).
Definition not_dq (c : ascii) : bool := negb (code c =? 34)%N.

(** [[^>]*/>]: the run up to the next ['>'] has to end with ['/']. *)
Definition self_closing (s : text) : option text :=
  match drop_while not_gt s with
  | ">"%char :: rest =>
    if bool_decide (last (take_while not_gt s) = Some "/"%char)
    then Some rest else None
  | _ => None
  end.

(** [[^>]*>] and [[^>]*/?>]: up to and with the next ['>']. *)
Definition to_gt (s : text) : option text :=
  match drop_while not_gt s with
  | ">"%char :: rest => Some rest
  | _ => None
  end.

(** [[^DQ]*DQ] followed by [lit] *)
Definition to_dq_then (lit : text) (s : text) : option text :=
  match drop_while not_dq s with
  | _ :: rest => match_lit lit rest
  | [] => None
  end.

(** [r'<(chapter|div)[^>]*/>'], removed *)
Definition re_structural : matcher text := fun _ s =>
  s1 ← match_lit (str "<") s;
  s2 ← match match_lit (str "chapter") s1 with
       | Some r => Some r
       | None => match_lit (str "div") s1
       end;
  rest ← self_closing s2;
  Some ([], rest).

(** [r'<span[^>]*>'] *)
Definition re_span_open : matcher unit := fun _ s =>
  s1 ← match_lit (str "<span") s;
  rest ← to_gt s1;
  Some ((), rest).

(** [book chapter:verse:] with the class of the book name given. *)
Definition verse_header (book_char : ascii -> bool) (s : text)
    : option (text * text * text * text) :=
  '(book, s1) ← run1 book_char s;
  s2 ← match_lit (str " ") s1;
  '(chapter, s3) ← run1 is_digit s2;
  s4 ← match_lit (str ":") s3;
  '(verse_number, s5) ← run1 is_digit s4;
  s6 ← match_lit (str ":") s5;
  Some (book, chapter, verse_number, s6).

(** [(?=\n(?:[A-Za-z]+ \d+:\d+:|\Z))] *)
Definition plain_verse_end (s : text) : option text :=
  match s with
  | c :: s' =>
    if (code c =? 10)%N
       && (bool_decide (is_Some (verse_header is_alpha s'))
           || bool_decide (s' = []))
    then Some s else None
  | [] => None
  end.

(** [r'([A-Za-z]+) (\d+):(\d+): (.+?)(?=\n(?:[A-Za-z]+ \d+:\d+:|\Z))']
    with [re.DOTALL]. *)
Definition re_plain_verse : matcher (text * text * text * text) := fun _ s =>
  '(book, chapter, verse_number, s1) ← verse_header is_alpha s;
  s2 ← match_lit (str " ") s1;
  match s2 with
  | c :: s3 =>
    '(g, rest) ← lazy_until any_char plain_verse_end s3;
    Some ((book, chapter, verse_number, c :: g), rest)
  | [] => None
  end.

(** [r'([A-Za-z0-9]+) (\d+):(\d+): <span[^>]*>(.*?)</span><br\s*/>']
    with [re.DOTALL]. *)
Definition span_close (s : text) : option text :=
  s1 ← match_lit (str "</span><br") s;
  match_lit (str "/>") (drop_while is_space s1).

Definition re_html_verse : matcher (text * text * text * text) := fun _ s =>
  '(book, chapter, verse_number, s1) ← verse_header is_alnum s;
  s2 ← match_lit (str " <span") s1;
  s3 ← to_gt s2;
  '(verse_content, rest) ← lazy_until any_char span_close s3;
  Some ((book, chapter, verse_number, verse_content), rest).

(** [r'<milestone type=DQlineDQ[^>]*/?>'], replaced by a newline *)
Definition re_milestone : matcher text := fun _ s =>
  s1 ← match_lit (str "<milestone type=" ++ dq ++ str "line" ++ dq) s;
  rest ← to_gt s1;
  Some (newline, rest).

(** [r'<note([^>]* )>(.*?)</note>'] with [re.DOTALL] (a space is put
    after the star here, as wherever a quoted pattern has a star before
    a closing parenthesis): the groups *)
Definition re_note : matcher (text * text) := fun _ s =>
  s1 ← match_lit (str "<note") s;
  s2 ← to_gt s1;
  '(content, rest) ← lazy_until any_char (match_lit (str "</note>")) s2;
  Some ((take_while not_gt s1, content), rest).

(** [r'<note[^>]*/>'] and [r'<note[^>]*></note>'], removed *)
Definition re_note_empty : matcher text := fun _ s =>
  s1 ← match_lit (str "<note") s;
  rest ← self_closing s1;
  Some ([], rest).

Definition re_note_open_close : matcher text := fun _ s =>
  s1 ← match_lit (str "<note") s;
  s2 ← to_gt s1;
  rest ← match_lit (str "</note>") s2;
  Some ([], rest).

(** [r'\bn=DQ([^DQ]+)DQ']: the group *)
Definition re_marker_attr : matcher text := fun prev s =>
  if word_boundary prev (head s) then
    s1 ← match_lit (str "n=" ++ dq) s;
    '(marker, s2) ← run1 not_dq s1;
    rest ← match_lit dq s2;
    Some (marker, rest)
  else None.

(** The nested [repl] of [extract_notes], with the two variables it
    shares with the enclosing call. *)
Definition extract_repl (st : list note * Z) (groups : text * text)
    : list note * Z * text :=
  let '(notes, note_idx) := st in
  let '(attrs, content) := groups in
  let content := strip content in
  match content with
  | [] => (notes, note_idx, [])
  | _ =>
    let label :=
      if contains (str "type=" ++ dq ++ str "crossReference" ++ dq) attrs
      then str "ref" else str "note" in
    let note_idx := (note_idx + 1)%Z in
    let marker :=
      default (str_of_int note_idx) (head (re_findall re_marker_attr attrs)) in
    (notes ++ [{| n_label := label; n_content := content; n_marker := marker |}],
     note_idx,
     str "__NOTE" ++ str_of_int note_idx ++ str "__")
  end.

(** [extract_notes] *)
Definition extract_notes (s : text) (inline_notes : bool) : text * list note :=
  let '(notes, _, out) :=
    fold_left
      (fun (acc : list note * Z * text) p =>
         let '(notes, note_idx, out) := acc in
         match p with
         | Kept c => (notes, note_idx, out ++ [c])
         | Matched groups =>
           let '(notes, note_idx, r) := extract_repl (notes, note_idx) groups in
           (notes, note_idx, out ++ r)
         end)
      (re_scan re_note s) ([], 0%Z, []) in
  let out := re_sub re_note_empty out in
  let out := re_sub re_note_open_close out in
  (out, notes).

(** [r'<l sID=DQ[^DQ]*DQ/>'] *)
Definition re_l_start : matcher unit := fun _ s =>
  s1 ← match_lit (str "<l sID=" ++ dq) s;
  rest ← to_dq_then (str "/>") s1;
  Some ((), rest).

(** [r'<l eID=DQ[^DQ]*DQ/>\s*<l sID=DQ[^DQ]*DQ/>'], replaced by a newline *)
Definition re_l_pair : matcher text := fun _ s =>
  s1 ← match_lit (str "<l eID=" ++ dq) s;
  s2 ← to_dq_then (str "/>") s1;
  s3 ← match_lit (str "<l sID=" ++ dq) (drop_while is_space s2);
  rest ← to_dq_then (str "/>") s3;
  Some (newline, rest).

(** [r'<l [se]ID=DQ[^DQ]*DQ/>'], removed *)
Definition re_l_marker : matcher text := fun _ s =>
  s1 ← match_lit (str "<l ") s;
  match s1 with
  | c :: s2 =>
    if Ascii.eqb c "s"%char || Ascii.eqb c "e"%char then
      s3 ← match_lit (str "ID=" ++ dq) s2;
      rest ← to_dq_then (str "/>") s3;
      Some ([], rest)
    else None
  | [] => None
  end.

(** [r'<chapter[^>]*/?>'], removed *)
Definition re_chapter : matcher text := fun _ s =>
  s1 ← match_lit (str "<chapter") s;
  rest ← to_gt s1;
  Some ([], rest).

(** [[line.strip() for line in s.split('\n') if line.strip()]] *)
Definition clean_lines (s : text) : list text :=
  map strip (filter (fun line => strip line <> []) (split_on (ascii_of_N 10) s)).

Definition smallcaps_tag : text :=
  str "<hi type=" ++ dq ++ str "small-caps" ++ dq ++ str ">".

(** The poetic branch of [parse_html_verses]: the lines of one verse. *)
Definition poetic_lines (verse_content : text) : list text :=
  let processed := re_sub re_l_pair verse_content in
  let processed := re_sub re_l_marker processed in
  let processed := re_sub re_chapter processed in
  clean_lines processed.

(** The body of the loop of the plain branch: the verse it appends, if
    any. *)
Definition plain_verse (inline_notes : bool) (block : text * text * text * text)
    : option verse :=
  let '(book, chapter, verse_number, verse_content) := block in
  let verse_content := re_sub re_milestone verse_content in
  let '(verse_content, notes) := extract_notes verse_content inline_notes in
  let lines := clean_lines verse_content in
  let has_smallcaps := contains smallcaps_tag verse_content in
  match lines with
  | [] => None
  | _ => Some {| v_book := book; v_chapter := chapter;
                 v_number := int_of_digits verse_number; v_lines := lines;
                 v_smallcaps := has_smallcaps; v_notes := notes |}
  end.

(** The body of the loop of the HTML branch. *)
Definition html_verse (inline_notes has_l_tags : bool)
    (block : text * text * text * text) : option verse :=
  let '(book, chapter, verse_number, verse_content) := block in
  let verse_number := int_of_digits verse_number in
  let '(verse_content, notes) := extract_notes verse_content inline_notes in
  let has_smallcaps := contains smallcaps_tag verse_content in
  let lines :=
    if has_l_tags then poetic_lines verse_content
    else [strip verse_content] in
  match lines with
  | [] => None
  | _ => Some {| v_book := book; v_chapter := chapter;
                 v_number := verse_number; v_lines := lines;
                 v_smallcaps := has_smallcaps; v_notes := notes |}
  end.

(** [parse_html_verses] *)
Definition parse_html_verses (html_content : text) (inline_notes : bool)
    : list verse :=
  let html_content := re_sub re_structural html_content in
  let has_verse_html_tags := re_search re_span_open html_content in
  if negb has_verse_html_tags then
    omap (plain_verse inline_notes) (re_findall re_plain_verse html_content)
  else
    let has_l_tags := re_search re_l_start html_content in
    omap (html_verse inline_notes has_l_tags)
         (re_findall re_html_verse html_content).

(** *** Passages *)

(** A verse inside a passage:
    [(verse_num, lines, has_smallcaps, notes)]. *)
Record pverse := {
  pv_number : Z;
  pv_lines : list text;
  pv_smallcaps : bool;
  pv_notes : list note;
}.

(** A passage: [(book, chapter, verses)]. *)
Record passage := {
  p_book : text;
  p_chapter : text;
  p_verses : list pverse;
}.

(** The two variables of [group_passages].  [current] names the tuple
    whose verse list the loop appends to; that tuple is an element of
    [passages], so [current] is kept as its position there and an append
    through [current] is seen in [passages]. *)
Record grouping := {
  passages : list passage;
  current : option nat;
}.

Definition append_verse (v : pverse) (p : passage) : passage :=
  {| p_book := p_book p; p_chapter := p_chapter p;
     p_verses := p_verses p ++ [v] |}.

Definition starts_passage (g : grouping) (v : verse) : bool :=
  match current g with
  | None => true
  | Some i =>
    match passages g !! i with
    | Some cur =>
      bool_decide (p_book cur <> v_book v)
      || bool_decide (p_chapter cur <> v_chapter v)
    | None => true
    end
  end.

(** The body of the loop of [group_passages]. *)
Definition group_step (g : grouping) (v : verse) : grouping :=
  let g :=
    if starts_passage g v
    then {| passages :=
              passages g ++ [{| p_book := v_book v; p_chapter := v_chapter v;
                                p_verses := [] |}];
            current := Some (length (passages g)) |}
    else g in
  match current g with
  | Some i =>
    {| passages :=
         alter (append_verse {| pv_number := v_number v; pv_lines := v_lines v;
                                pv_smallcaps := v_smallcaps v;
                                pv_notes := v_notes v |}) i (passages g);
       current := current g |}
  | None => g
  end.

Definition group_passages (verses : list verse) : list passage :=
  passages (fold_left group_step verses {| passages := []; current := None |}).

(** *** Rendering *)

Definition fmt_is (fmt : text) (name : string) : bool :=
  bool_decide (fmt = str name).

(** [r'<hi type=DQsmall-capsDQ>([^<]+)</hi>'], the group wrapped in
    [pre] and [post] *)
Definition re_smallcaps (pre post : text) : matcher text := fun _ s =>
  s1 ← match_lit smallcaps_tag s;
  '(g, s2) ← run1 not_lt s1;
  rest ← match_lit (str "</hi>") s2;
  Some (pre ++ g ++ post, rest).

(** [r'<i>(.*?)</i>'], the group wrapped in [pre] and [post] *)
Definition re_italic (pre post : text) : matcher text := fun _ s =>
  s1 ← match_lit (str "<i>") s;
  '(g, rest) ← lazy_until not_newline (match_lit (str "</i>")) s1;
  Some (pre ++ g ++ post, rest).

(** [r'<[^>]+>'], removed *)
Definition re_tag : matcher text := fun _ s =>
  s1 ← match_lit (str "<") s;
  '(_, s2) ← run1 not_gt s1;
  rest ← match_lit (str ">") s2;
  Some ([], rest).

(** [process_text] *)
Definition process_text (s : text) (format : text) (options : text) : text :=
  let s :=
    if fmt_is format "typ" then
      re_sub (re_italic (str "#emph[") (str "]"))
        (re_sub (re_smallcaps (str "#smallcaps[") (str "]")) s)
    else if fmt_is format "tex" then
      re_sub (re_italic (str "\emph{") (str "}"))
        (re_sub (re_smallcaps (str "\textsc{") (str "}")) s)
    else if fmt_is format "md" then
      re_sub (re_italic (str "*") (str "*"))
        (re_sub (re_smallcaps (str "**") (str "**")) s)
    else if fmt_is format "org" then
      re_sub (re_italic (str "/") (str "/"))
        (re_sub (re_smallcaps (str "*") (str "*")) s)
    else s in
  strip (re_sub re_tag s).

(** [note_marker] *)
Definition note_marker (fmt marker : text) : text :=
  if fmt_is fmt "org" then str "[fn:" ++ marker ++ str "]"
  else if fmt_is fmt "md" then str "[^" ++ marker ++ str "]"
  else str "[" ++ marker ++ str "]".

(** [r'__NOTE(\d+)__']: the group *)
Definition re_note_ref : matcher text := fun _ s =>
  s1 ← match_lit (str "__NOTE") s;
  '(digits, s2) ← run1 is_digit s1;
  rest ← match_lit (str "__") s2;
  Some (digits, rest).

(** [notes[i]] for an index that may be negative *)
Definition list_index {A} (l : list A) (i : Z) : result A :=
  let j := if (i <? 0)%Z then (i + Z.of_nat (length l))%Z else i in
  if (j <? 0)%Z then Raise IndexError
  else match l !! Z.to_nat j with
       | Some x => Ok x
       | None => Raise IndexError
       end.

(** [render_notes_in_text] *)
Definition render_note_ref (fmt : text) (notes : list note) (options : text)
    (inline_notes : bool) (digits : text) : result text :=
  let idx := int_of_digits digits in
  do n <- list_index notes (idx - 1);
  let marker := n_marker n in
  let content_txt := process_text (n_content n) fmt options in
  if inline_notes then
    if fmt_is fmt "org"
    then Ok (str "[fn:: " ++ marker ++ str ". " ++ content_txt ++ str "] ")
    else if fmt_is fmt "md"
    then Ok (str "^[" ++ marker ++ str ". " ++ content_txt ++ str "] ")
    else if fmt_is fmt "tex"
    then Ok (str "\footnote{" ++ marker ++ str ". " ++ content_txt ++ str "} ")
    else if fmt_is fmt "typ"
    then Ok (str "#footnote[" ++ marker ++ str ". " ++ content_txt ++ str "] ")
    else Ok (str "[" ++ marker ++ str ". " ++ content_txt ++ str "] ")
  else if fmt_is fmt "tex"
  then Ok (str "\textsuperscript{" ++ marker ++ str "}")
  else if fmt_is fmt "typ"
  then Ok (str "#super[" ++ marker ++ str "]")
  else Ok (note_marker fmt marker).

Definition render_notes_in_text (s : text) (fmt : text) (notes : list note)
    (options : text) (inline_notes : bool) : result text :=
  do parts <-
    map_result
      (fun p => match p with
                | Kept c => Ok [c]
                | Matched digits =>
                  render_note_ref fmt notes options inline_notes digits
                end)
      (re_scan re_note_ref s);
  Ok (concat parts).

(** [format_note_text] *)
Definition format_note_text (fmt marker label content options : text) : text :=
  let label_txt := if bool_decide (label = str "ref") then str "ref" else str "note" in
  let content_txt := process_text content fmt options in
  if fmt_is fmt "tex" then
    str "\textsuperscript{" ++ marker ++ str "} " ++ label_txt ++ str ": "
    ++ content_txt
  else if fmt_is fmt "typ" then
    str "#super[" ++ marker ++ str "] " ++ label_txt ++ str ": " ++ content_txt
  else note_marker fmt marker ++ str " " ++ label_txt ++ str ": " ++ content_txt.

(** [format_verse_prefix] and [format_verse_label] *)
Definition format_verse_prefix (fmt : text) (verse_num : Z) (verse_nums : text)
    : text :=
  if bool_decide (verse_nums = str "none") then []
  else if fmt_is fmt "tex" || fmt_is fmt "typ" then []
  else if bool_decide (verse_nums = str "colons")
  then str_of_int verse_num ++ str ": "
  else str_of_int verse_num ++ str ". ".

Definition format_verse_label (fmt : text) (verse_num : Z) (verse_nums : text)
    : text :=
  if bool_decide (verse_nums = str "none") then []
  else
    let suffix := if bool_decide (verse_nums = str "colons")
                  then str ":" else str "." in
    str_of_int verse_num ++ suffix.

(** [enumerate(lines)] with the first line set apart *)
Definition render_lines (fmt : text) (notes : list note) (options : text)
    (inline_notes : bool) (first other : text) (lines : list text)
    : result (list text) :=
  map_result
    (fun il : nat * text =>
       do line_text <-
         render_notes_in_text (process_text il.2 fmt options) fmt notes
           options inline_notes;
       Ok ((if bool_decide (il.1 = 0%nat) then first else other) ++ line_text))
    (imap (fun i line => (i, line)) lines).

(** The lines [format_latex], [format_org] and the others append per
    note when [inline_notes] is off. *)
Definition note_lines (fmt : text) (indent : text) (notes : list note)
    (options : text) (inline_notes : bool) : list text :=
  if inline_notes then []
  else map (fun n => indent ++ format_note_text fmt (n_marker n) (n_label n)
                                 (n_content n) options) notes.

(** [any(len(lines) > 1 for _, lines, _, _ in verses)] *)
Definition has_poetry (verses : list pverse) : bool :=
  existsb (fun v => bool_decide (1 < length (pv_lines v))%nat) verses.

(** The loop of [format_latex]: what one verse appends to [output]. *)
Definition latex_verse (options verse_nums : text) (inline_notes : bool)
    (v : pverse) : result (list text) :=
  let label := format_verse_label (str "tex") (pv_number v) verse_nums in
  let verse_marker :=
    match label with
    | [] => []
    | _ => str "\textsuperscript{" ++ label ++ str "} "
    end in
  do verse_text <-
    match pv_lines v with
    | [line] =>
      do line_text <-
        render_notes_in_text (process_text line (str "tex") options)
          (str "tex") (pv_notes v) options inline_notes;
      Ok (verse_marker ++ line_text)
    | lines =>
      do verse_lines <-
        render_lines (str "tex") (pv_notes v) options inline_notes
          verse_marker (str "\vin ") lines;
      Ok (join (str "\\" ++ newline) verse_lines)
    end;
  Ok (verse_text
      :: note_lines (str "tex") (str "\quad ") (pv_notes v) options inline_notes).

(** [format_latex] *)
Definition format_latex (verses : list pverse) (options verse_nums : text)
    (inline_notes : bool) : result text :=
  do output <- map_result (latex_verse options verse_nums inline_notes) verses;
  let output := concat output in
  if has_poetry verses
  then Ok (str "\begin{verse}" ++ newline
           ++ join (str "\\" ++ newline ++ newline) output
           ++ newline ++ str "\end{verse}")
  else Ok (join (newline ++ newline) output).

(** The loop of [format_org_verse]: what one verse appends to [output]. *)
Definition org_verse (options verse_nums : text) (inline_notes : bool)
    (v : pverse) : result text :=
  do verse_lines <-
    render_lines (str "org") (pv_notes v) options inline_notes
      (format_verse_prefix (str "org") (pv_number v) verse_nums) (str "   ")
      (pv_lines v);
  Ok (join newline
        (verse_lines
         ++ note_lines (str "org") (str "   ") (pv_notes v) options inline_notes)).

(** [format_org_verse] *)
Definition format_org_verse (verses : list pverse) (options verse_nums : text)
    (inline_notes : bool) : result text :=
  let has_poetry := has_poetry verses in
  do output <- map_result (org_verse options verse_nums inline_notes) verses;
  let content := join (newline ++ newline) output in
  if has_poetry
  then Ok (str "#+BEGIN_VERSE" ++ newline ++ content ++ newline
           ++ str "#+END_VERSE")
  else Ok content.

(** *** The citation of a passage in [main] *)

(** [verse_range], from the first and the last verse of the passage. *)
Definition main_verse_range (verses : list pverse) : result text :=
  do first <- list_index verses 0;
  do final <- list_index verses (-1);
  let first_verse := str_of_int (pv_number first) in
  let last_verse := str_of_int (pv_number final) in
  Ok (if bool_decide (first_verse = last_verse) then first_verse
      else first_verse ++ str "-" ++ last_verse).

(** The text of the citation: [format_ref_text] on that range. *)
Definition main_ref_text (p : passage) (module : option text)
    (book_style version_abbrev : text) : result text :=
  do verse_range <- main_verse_range (p_verses p);
  Ok (format_ref_text (Some (p_book p)) (Some (p_chapter p)) (Some verse_range)
        module book_style version_abbrev).

(** *** The simple Org backend *)

(** [format_org] *)
Definition format_org (verses : list pverse) (options verse_nums : text)
    (inline_notes : bool) : result text :=
  do output <- map_result (org_verse options verse_nums inline_notes) verses;
  Ok (join (newline ++ newline) output).

(** *** The other backends *)

(** The table style of [format_typst]: the rows of one verse. *)
Definition typst_rows (options verse_nums : text) (inline_notes : bool)
    (v : pverse) : result (list text) :=
  let label := format_verse_label (str "typ") (pv_number v) verse_nums in
  do rows <-
    map_result
      (fun il : nat * text =>
         do line_text <-
           render_notes_in_text (process_text il.2 (str "typ") options)
             (str "typ") (pv_notes v) options inline_notes;
         Ok (if bool_decide (il.1 = 0%nat) && negb (bool_decide (label = []))
             then str "    [#text(size:11pt)[" ++ label ++ str "]], ["
                  ++ line_text ++ str "],"
             else str "    [], [" ++ line_text ++ str "],"))
      (imap (fun i line => (i, line)) (pv_lines v));
  Ok (rows
      ++ (if inline_notes then []
          else map (fun n => str "    [], ["
                             ++ format_note_text (str "typ") (n_marker n)
                                  (n_label n) (n_content n) options
                             ++ str "],")
                   (pv_notes v))).

(** The simple style of [format_typst]: the text of one verse. *)
Definition typst_simple_verse (options verse_nums : text) (inline_notes : bool)
    (v : pverse) : result text :=
  let label := format_verse_label (str "typ") (pv_number v) verse_nums in
  do rendered <-
    map_result
      (fun line =>
         render_notes_in_text (process_text line (str "typ") options)
           (str "typ") (pv_notes v) options inline_notes)
      (pv_lines v);
  let verse_text := join newline rendered in
  let verse_text :=
    if inline_notes then verse_text
    else
      let note_text :=
        join newline
          (map (fun n => format_note_text (str "typ") (n_marker n) (n_label n)
                           (n_content n) options) (pv_notes v)) in
      match note_text with
      | [] => verse_text
      | _ => verse_text ++ newline ++ note_text
      end in
  let prefix :=
    match label with
    | [] => []
    | _ => str "#super[" ++ label ++ str "] "
    end in
  Ok (prefix ++ verse_text).

(** [format_typst] *)
Definition format_typst (verses : list pverse) (style options verse_nums : text)
    (inline_notes : bool) : result text :=
  if bool_decide (style = str "table") then
    do rows <- map_result (typst_rows options verse_nums inline_notes) verses;
    Ok (str "#table(columns: (auto, auto), stroke: none," ++ newline
        ++ join newline (concat rows) ++ newline ++ str ")")
  else
    do output <-
      map_result (typst_simple_verse options verse_nums inline_notes) verses;
    Ok (join (newline ++ newline) output).

(** The loop of [format_latex_simple]: what one verse appends. *)
Definition latex_simple_verse (options verse_nums : text) (inline_notes : bool)
    (v : pverse) : result text :=
  let label := format_verse_label (str "tex") (pv_number v) verse_nums in
  let verse_marker :=
    match label with
    | [] => []
    | _ => str "\textsuperscript{" ++ label ++ str "} "
    end in
  do verse_lines <-
    render_lines (str "tex") (pv_notes v) options inline_notes
      verse_marker [] (pv_lines v);
  Ok (join (str " \\" ++ newline)
        (verse_lines
         ++ note_lines (str "tex") (str "\quad ") (pv_notes v) options
              inline_notes)).

(** [format_latex_simple] *)
Definition format_latex_simple (verses : list pverse)
    (options verse_nums : text) (inline_notes : bool) : result text :=
  do output <-
    map_result (latex_simple_verse options verse_nums inline_notes) verses;
  Ok (join (str " \\" ++ newline ++ newline) output).

(** The loop of [format_markdown], [format_markdown_simple] and
    [format_plain]: what one verse appends, for the format, the indent
    of the lines after the first and of the notes, and the text the
    lines are joined with. *)
Definition block_verse (fmt indent sep : text) (options verse_nums : text)
    (inline_notes : bool) (v : pverse) : result text :=
  do verse_lines <-
    render_lines fmt (pv_notes v) options inline_notes
      (format_verse_prefix fmt (pv_number v) verse_nums) indent (pv_lines v);
  Ok (join sep
        (verse_lines ++ note_lines fmt indent (pv_notes v) options inline_notes)).

(** [format_markdown] *)
Definition format_markdown (verses : list pverse) (options verse_nums : text)
    (inline_notes : bool) : result text :=
  do output <-
    map_result (block_verse (str "md") (str "    ") newline options verse_nums
                  inline_notes) verses;
  Ok (join (newline ++ newline) output).

(** [format_markdown_simple] *)
Definition format_markdown_simple (verses : list pverse)
    (options verse_nums : text) (inline_notes : bool) : result text :=
  do output <-
    map_result (block_verse (str "md") [] (str "  " ++ newline) options
                  verse_nums inline_notes) verses;
  Ok (join (newline ++ newline) output).

(** [format_plain] *)
Definition format_plain (verses : list pverse) (options verse_nums : text)
    (inline_notes : bool) : result text :=
  do output <-
    map_result (block_verse (str "plain") (str "    ") newline options
                  verse_nums inline_notes) verses;
  Ok (join (newline ++ newline) output).

(** *** The backend of a format and a style *)

(** The call of [main] for a format and a style, as far as it calls a
    backend. *)
Definition backend_call (fmt style : text) (verses : list pverse)
    (options verse_nums : text) (inline_notes : bool) : option (result text) :=
  if fmt_is fmt "typ"
  then Some (format_typst verses style options verse_nums inline_notes)
  else if fmt_is fmt "tex" then
    if bool_decide (style = str "simple")
    then Some (format_latex_simple verses options verse_nums inline_notes)
    else Some (format_latex verses options verse_nums inline_notes)
  else if fmt_is fmt "md" then
    if bool_decide (style = str "simple")
    then Some (format_markdown_simple verses options verse_nums inline_notes)
    else Some (format_markdown verses options verse_nums inline_notes)
  else if fmt_is fmt "org" then
    if bool_decide (style = str "simple")
    then Some (format_org verses options verse_nums inline_notes)
    else Some (format_org_verse verses options verse_nums inline_notes)
  else if fmt_is fmt "plain"
  then Some (format_plain verses options verse_nums inline_notes)
  else None.

End BibleToFormat.

(** ** bible-format-wrapper.py *)

Module FormatWrapper.

Import BibleToFormat.

(** *** Verse text *)

(** [r'<note[^>]*/>\s*'] and [r'<note[^>]*></note>\s*'], removed *)
Definition re_note_empty_ws : matcher text := fun _ s =>
  s1 ← match_lit (str "<note") s;
  rest ← self_closing s1;
  Some ([], drop_while is_space rest).

Definition re_note_open_close_ws : matcher text := fun _ s =>
  s1 ← match_lit (str "<note") s;
  s2 ← to_gt s1;
  rest ← match_lit (str "</note>") s2;
  Some ([], drop_while is_space rest).

(** [r'<hi type=DQsuperDQ>([^<]+)</hi>'], removed *)
Definition re_super : matcher text := fun _ s =>
  s1 ← match_lit (str "<hi type=" ++ dq ++ str "super" ++ dq ++ str ">") s;
  '(_, s2) ← run1 not_lt s1;
  rest ← match_lit (str "</hi>") s2;
  Some ([], rest).

(** [r'</?w[^>]*>'], removed *)
Definition re_w_any : matcher text := fun _ s =>
  s1 ← match_lit (str "<") s;
  s2 ← match_lit (str "w")
         (match s1 with
          | c :: s1' => if Ascii.eqb c "/"%char then s1' else s1
          | [] => s1
          end);
  rest ← to_gt s2;
  Some ([], rest).

(** [r'<w\b([^>]* )>(.*?)</w>']: the groups *)
Definition re_w : matcher (text * text) := fun _ s =>
  s1 ← match_lit (str "<w") s;
  if word_boundary (Some "w"%char) (head s1) then
    s2 ← to_gt s1;
    '(content, rest) ← lazy_until not_newline (match_lit (str "</w>")) s2;
    Some ((take_while not_gt s1, content), rest)
  else None.

(** [r'strong:([A-Za-z0-9]+)'], [r'lemma\.[^:]+:([^\sDQ]+)'] and
    [r'morph:([^\sDQ]+)']: the group *)
Definition value_char (c : ascii) : bool := negb (is_space c) && not_dq c.
Definition not_colon (c : ascii) : bool := negb (Ascii.eqb c ":"%char).

Definition re_strong : matcher text := fun _ s =>
  s1 ← match_lit (str "strong:") s;
  run1 is_alnum s1.

Definition re_lemma : matcher text := fun _ s =>
  s1 ← match_lit (str "lemma.") s;
  '(_, s2) ← run1 not_colon s1;
  s3 ← match_lit (str ":") s2;
  run1 value_char s3.

Definition re_morph : matcher text := fun _ s =>
  s1 ← match_lit (str "morph:") s;
  run1 value_char s1.

(** [c in options] *)
Definition has_char (c : ascii) (s : text) : bool := existsb (Ascii.eqb c) s.

(** The nested [repl] of [render_w_tags]. *)
Definition w_repl (options : text) (groups : text * text) : text :=
  let '(attrs, content) := groups in
  let annotation (wanted : bool) (kind : string) (m : matcher text) :=
    if wanted
    then match re_findall m attrs with
         | [] => []
         | found => [str kind ++ join (str ",") found]
         end
    else [] in
  let annotations :=
    annotation (has_char "n" options) "Str " re_strong
    ++ annotation (has_char "l" options) "Lemma " re_lemma
    ++ annotation (has_char "m" options || has_char "M" options) "Morph " re_morph in
  match annotations with
  | [] => content
  | _ => content ++ str " [" ++ join (str " | ") annotations ++ str "]"
  end.

(** [render_w_tags] *)
Definition render_w_tags (src options : text) : text :=
  match options with
  | [] => re_sub re_w_any src
  | _ =>
    re_sub (fun prev s =>
              '(groups, rest) ← re_w prev s; Some (w_repl options groups, rest))
           src
  end.

(** [r'<note[^>]*>(.*?)</note>'], the group in square brackets *)
Definition re_note_inline : matcher text := fun _ s =>
  s1 ← match_lit (str "<note") s;
  s2 ← to_gt s1;
  '(g, rest) ← lazy_until not_newline (match_lit (str "</note>")) s2;
  Some (str "[" ++ g ++ str "]", rest).

(** The steps of [process_verse_text] from the line markers on. *)
Definition break_lines (s : text) : list text :=
  let s := re_sub re_l_pair s in
  let s := re_sub re_l_marker s in
  let s := re_sub re_tag s in
  clean_lines s.

(** [process_verse_text] *)
Definition process_verse_text (s : text) (output_format options : text) : text :=
  match s with
  | [] => []
  | _ =>
    let s := re_sub re_note_empty_ws s in
    let s := re_sub re_note_open_close_ws s in
    let s :=
      if bool_decide (lower output_format = str "plain")
      then re_sub re_super (re_sub (re_smallcaps [] []) s)
      else re_sub (re_smallcaps (str "*") (str "*")) s in
    let s := re_sub re_chapter s in
    let s := render_w_tags s options in
    let s := re_sub re_note_inline s in
    join newline (break_lines s)
  end.

(** *** Passages *)

(** A passage of the wrapper:
    [[book, chapter, first_verse, last_verse, verse_lines]], the verse
    numbers kept as the strings the pattern captured. *)
Record passage := {
  p_book : text;
  p_chapter : text;
  p_first : text;
  p_last : text;
  p_verse_lines : list (text * text);
}.

(** The variables [parse_diatheke_output] shares with its nested
    functions. *)
Record parser := {
  passages : list passage;
  current_passage : option passage;
  current_verse_parts : list text;
  current_verse_info : option (text * text * text);
}.

(** [finalize_current_verse] *)
Definition finalize_current_verse (output_format options : text) (st : parser)
    : parser :=
  let st' :=
    match current_verse_info st, current_verse_parts st with
    | Some (verse_num, book, chapter), _ :: _ =>
      let processed_parts :=
        filter (fun part => part <> [])
          (map (fun part => process_verse_text part output_format options)
               (current_verse_parts st)) in
      let formatted_text :=
        if existsb (contains newline) processed_parts
        then join newline processed_parts
        else join (str " ") processed_parts in
      match formatted_text with
      | [] => st
      | _ =>
        let starts :=
          match current_passage st with
          | None => true
          | Some cur =>
            bool_decide (p_book cur <> book)
            || bool_decide (p_chapter cur <> chapter)
          end in
        let passages' :=
          if starts
          then match current_passage st with
               | Some cur => passages st ++ [cur]
               | None => passages st
               end
          else passages st in
        let cur :=
          if starts
          then {| p_book := book; p_chapter := chapter; p_first := verse_num;
                  p_last := verse_num; p_verse_lines := [] |}
          else default {| p_book := book; p_chapter := chapter;
                          p_first := verse_num; p_last := verse_num;
                          p_verse_lines := [] |} (current_passage st) in
        {| passages := passages';
           current_passage :=
             Some {| p_book := p_book cur; p_chapter := p_chapter cur;
                     p_first := p_first cur; p_last := verse_num;
                     p_verse_lines :=
                       p_verse_lines cur ++ [(verse_num, formatted_text)] |};
           current_verse_parts := current_verse_parts st;
           current_verse_info := current_verse_info st |}
      end
    | _, _ => st
    end in
  {| passages := passages st';
     current_passage := current_passage st';
     current_verse_parts := [];
     current_verse_info := None |}.

(** [r'\s+(\d+):(\d+):\s*(.* )$'] at the head of [s], for a line without
    newline: the groups. *)
Definition verse_line_tail (s : text) : option (text * text * text) :=
  match s with
  | c :: _ =>
    if is_space c then
      '(chapter, s1) ← run1 is_digit (drop_while is_space s);
      s2 ← match_lit (str ":") s1;
      '(verse, s3) ← run1 is_digit s2;
      s4 ← match_lit (str ":") s3;
      Some (chapter, verse, drop_while is_space s4)
    else None
  | [] => None
  end.

(** [re.match(r'^(.+)\s+(\d+):(\d+):\s*(.* )$', line)] for a line without
    newline: the greedy first group gives way from the right, so the
    match is the one with the longest book part. *)
Fixpoint verse_line_from (book_rev : text) (s : text)
    : option (text * text * text * text) :=
  match s with
  | [] => None
  | c :: s' =>
    match verse_line_from (c :: book_rev) s' with
    | Some groups => Some groups
    | None =>
      '(chapter, verse, rest) ← verse_line_tail s';
      Some (reverse (c :: book_rev), chapter, verse, rest)
    end
  end.

Definition verse_line (line : text) : option (text * text * text * text) :=
  verse_line_from [] line.

(** [if current_passage: passages.append(current_passage)] *)
Definition flush_passage (st : parser) : list passage :=
  match current_passage st with
  | Some cur => passages st ++ [cur]
  | None => passages st
  end.

(** The body of the loop of [parse_diatheke_output] over the lines. *)
Definition parse_line (module output_format options : text) (st : parser)
    (line : text) : parser :=
  let line := strip line in
  if bool_decide (line = str "(" ++ module ++ str ")") then
    let st := finalize_current_verse output_format options st in
    {| passages := flush_passage st; current_passage := None;
       current_verse_parts := current_verse_parts st;
       current_verse_info := current_verse_info st |}
  else
    match line with
    | [] => st
    | _ =>
      match verse_line line with
      | Some (book, chapter, verse, rest) =>
        let st := finalize_current_verse output_format options st in
        let rest := strip rest in
        {| passages := passages st; current_passage := current_passage st;
           current_verse_parts := match rest with [] => [] | _ => [rest] end;
           current_verse_info := Some (verse, book, chapter) |}
      | None =>
        match current_verse_info st with
        | Some _ =>
          {| passages := passages st; current_passage := current_passage st;
             current_verse_parts := current_verse_parts st ++ [line];
             current_verse_info := current_verse_info st |}
        | None => st
        end
      end
    end.

(** [parse_diatheke_output] *)
Definition parse_diatheke_output (output module output_format options : text)
    : list passage :=
  let lines := split_on (ascii_of_N 10) (strip output) in
  let st :=
    fold_left (parse_line module output_format options) lines
      {| passages := []; current_passage := None;
         current_verse_parts := []; current_verse_info := None |} in
  flush_passage (finalize_current_verse output_format options st).

(** *** The rendered passage *)

(** A configuration of [BIBLE_CONFIGS], as [format_passage] reads it. *)
Record config := {
  tag : text;
  dutch_names : option (gmap text text);
  abbreviations : gmap text text;
}.

(** [convert_book_name] *)
Definition convert_book_name (book : text) (cfg : config)
    (use_dutch_names : bool) : text :=
  match dutch_names cfg with
  | Some names =>
    if use_dutch_names && negb (bool_decide (names = ∅))
    then default book (names !! book)
    else default book (abbreviations cfg !! book)
  | None => default book (abbreviations cfg !! book)
  end.

(** [int(s)] reads white space, a sign, digits with single underscores
    between them, and white space.  The white space it skips is the
    ASCII white space and U+0085 and U+00A0, which it reads as a space;
    U+001C to U+001F, white space to [str.strip], are not. *)
Definition is_int_space (c : ascii) : bool :=
  in_range 9 13 c || (code c =? 32)%N || (code c =? 133)%N
  || (code c =? 160)%N.

(** The run of digits and underscores at the head of [s]: its value,
    the number of its digits and what follows it; nothing when the run
    is empty or an underscore stands first, last or next to another. *)
Fixpoint digits_run (acc count : Z) (after_digit : bool) (s : text)
    : option (Z * Z * text) :=
  match s with
  | [] => if after_digit then Some (acc, count, []) else None
  | c :: s' =>
    if is_digit c
    then digits_run (10 * acc + digit_value c)%Z (count + 1)%Z true s'
    else if Ascii.eqb c "_"%char then
      if after_digit
      then match s' with
           | d :: _ => if is_digit d then digits_run acc count false s' else None
           | [] => None
           end
      else None
    else if after_digit then Some (acc, count, s) else None
  end.

(** [sys.get_int_max_str_digits()], as it is set when the interpreter
    starts. *)
Definition int_max_str_digits : Z := 4300.

(** [int(s)].  The run of digits is read first; more digits than the
    limit are refused before what follows the run is looked at. *)
Definition py_int (s : text) : result Z :=
  let bad := Raise (ValueError (str "invalid literal for int() with base 10")) in
  let s := drop_while is_int_space s in
  let '(negative, ds) :=
    match s with
    | c :: ds =>
      if Ascii.eqb c "-"%char then (true, ds)
      else if Ascii.eqb c "+"%char then (false, ds)
      else (false, s)
    | [] => (false, [])
    end in
  match digits_run 0 0 false ds with
  | None => bad
  | Some (n, count, rest) =>
    if (int_max_str_digits <? count)%Z
    then Raise (ValueError
                  (str "Exceeds the limit (4300 digits) for integer string conversion: value has "
                   ++ str_of_int count
                   ++ str " digits; use sys.set_int_max_str_digits() to increase the limit"))
    else match drop_while is_int_space rest with
         | [] => Ok (if negative then - n else n)%Z
         | _ => bad
         end
  end.

(** [all(verse_nums[i] + 1 == verse_nums[i + 1]
         for i in range(len(verse_nums) - 1))] *)
Fixpoint consecutive (verse_nums : list Z) : bool :=
  match verse_nums with
  | a :: ((b :: _) as rest) => (a + 1 =? b)%Z && consecutive rest
  | _ => true
  end.

(** The part of the reference between the colon and the version tag. *)
Definition verse_part (first_verse last_verse : text)
    (verse_lines : list (text * text)) : result text :=
  if bool_decide (first_verse = last_verse) then Ok first_verse
  else
    do verse_nums <- map_result (fun v => py_int v.1) verse_lines;
    if consecutive verse_nums
    then Ok (first_verse ++ str "-" ++ last_verse)
    else Ok (join (str ",") (map fst verse_lines)).

(** [format_passage] *)
Definition format_passage (book chapter first_verse last_verse : text)
    (verse_lines : list (text * text)) (cfg : config) (reference_style : text)
    : result text :=
  let show_verse_numbers := negb (bool_decide (first_verse = last_verse)) in
  let output_lines :=
    map (fun v => if show_verse_numbers then v.1 ++ str ". " ++ v.2 else v.2)
        verse_lines in
  let use_dutch_names := bool_decide (is_Some (dutch_names cfg)) in
  let abbreviated :=
    bool_decide (reference_style = str "abbreviated-with-version")
    || bool_decide (reference_style = str "abbreviated-no-version") in
  let versioned :=
    negb (bool_decide (reference_style = str "full-no-version")
          || bool_decide (reference_style = str "abbreviated-no-version")) in
  let book_name :=
    convert_book_name book cfg (if abbreviated then false else use_dutch_names) in
  let version_tag := if versioned then str " " ++ tag cfg else [] in
  do verses <- verse_part first_verse last_verse verse_lines;
  let reference :=
    str "(" ++ book_name ++ str " " ++ chapter ++ str ":" ++ verses
    ++ version_tag ++ str ")" in
  Ok (join newline (output_lines ++ [reference])).

(** *** The reference handed to diatheke *)

(** What the first [try] block of [main] makes of the output of
    [dutch-diatheke.py --dry-run]: the English reference, or the
    [RuntimeError] it raises. *)
Inductive extracted :=
  | Reference (english_reference : text)
  | RuntimeError (msg : text).

(** The loop over [result.stdout.split('\n')]: the first line that
    starts with ['[CMD] '], without these six characters. *)
Definition cmd_line (stdout : text) : option text :=
  head (omap (match_lit (str "[CMD] ")) (split_on (ascii_of_N 10) stdout)).

(** [cmd_parts.index('-k')], for a list that holds it or not *)
Fixpoint index_of (x : text) (l : list text) : option nat :=
  match l with
  | [] => None
  | y :: l' => if text_eqb y x then Some 0 else S <$> index_of x l'
  end.

Definition english_reference (stdout : text) : extracted :=
  match cmd_line stdout with
  | Some ((_ :: _) as cmd_line) =>
    let cmd_parts := split_ws cmd_line in
    match index_of (str "-k") cmd_parts with
    | Some k_index =>
      if bool_decide (k_index + 1 < length cmd_parts)
      then Reference (join (str " ") (drop (k_index + 1) cmd_parts))
      else RuntimeError (str "Invalid diatheke command format")
    | None => RuntimeError (str "No -k parameter found in diatheke command")
    end
  | _ =>
    RuntimeError
      (str "Could not extract diatheke command from dutch-diatheke.py")
  end.

End FormatWrapper.

(** * Properties *)

(** ** The normalizer on concrete references *)

Section NormalizerExamples.

Import DutchDiatheke.

(** The three spellings named by the specification share one key. *)
Lemma normalize_text_spellings :
  normalize_text (str "Mattheüs") = str "mattheus"
  /\ normalize_text (str "MATTHEUS") = str "mattheus"
  /\ normalize_text (str "mattheus") = str "mattheus".
Proof. repeat apply conj; vm_compute; reflexivity. Qed.

(** C1, counterexample: a numeral written against a digit is set apart
    by the first application and only then read as a Roman numeral by
    the second: ["1i"] gives ["1 i"], which gives ["1 1"]. *)
Lemma normalize_text_not_idempotent :
  normalize_text (str "1i") = str "1 i"
  /\ normalize_text (normalize_text (str "1i")) = str "1 1"
  /\ normalize_text (normalize_text (str "1i")) <> normalize_text (str "1i").
Proof.
  split; [|split]; vm_compute; [reflexivity | reflexivity | discriminate].
Qed.

(** C2: the punctuation pattern only matches one of [.,;!?()[] that is
    directly followed by the three characters [{}]]; every other
    punctuation character stays in the key. *)
Theorem normalize_text_keeps_punctuation :
  normalize_text (str "Gen. 1:1") = str "gen. 1:1"
  /\ normalize_text (str "a.b,c;d!e?f(g)h[j]k{l}m") = str "a.b,c;d!e?f(g)h[j]k{l}m"
  /\ normalize_text (str "a.{}]b") = str "a b".
Proof. repeat apply conj; vm_compute; reflexivity. Qed.

End NormalizerExamples.

(** ** The shorthand expander on the literal cases *)

Section ExpanderExamples.

Import DutchDiatheke.

(** C4: the four expansions the specification lists. *)
Theorem expand_reference_shorthand_literal_cases :
  expand_reference_shorthand (str "Ex 9:9,25") false
    = Ok [str "Ex 9:9"; str "Ex 9:25"]
  /\ expand_reference_shorthand (str "Ex 9:9;25") false
    = Ok [str "Ex 9:9"; str "Ex 25"]
  /\ expand_reference_shorthand (str "Ex 9:9,25; 10:1") false
    = Ok [str "Ex 9:9"; str "Ex 9:25"; str "Ex 10:1"]
  /\ expand_reference_shorthand (str "Ex 9:9, Gen 10:10") false
    = Ok [str "Ex 9:9"; str "Gen 10:10"].
Proof. repeat apply conj; vm_compute; reflexivity. Qed.

(** The same expansions with the apocryphal aliases loaded. *)
Lemma expand_reference_shorthand_literal_cases_apocrypha :
  expand_reference_shorthand (str "Ex 9:9,25") true
    = Ok [str "Ex 9:9"; str "Ex 9:25"]
  /\ expand_reference_shorthand (str "Ex 9:9,25; 10:1") true
    = Ok [str "Ex 9:9"; str "Ex 9:25"; str "Ex 10:1"].
Proof. repeat apply conj; vm_compute; reflexivity. Qed.

End ExpanderExamples.

(** ** The parser on concrete payloads *)

Section ParserExamples.

Import BibleToFormat.

(** A verse whose span holds nothing but an empty footnote placeholder. *)
Definition placeholder_only : text :=
  str "Genesis 1:1: <span><note type=" ++ dq ++ str "x-footnote" ++ dq
  ++ str "/></span><br />".

(** C7: in the prose branch the lines of a verse are the one-element list
    of its stripped text, so the test [if lines] cannot fail: the verse
    whose only content was the placeholder is in the output, with one
    empty line. *)
Theorem parse_html_verses_keeps_empty_verse :
  parse_html_verses placeholder_only false
  = [ {| v_book := str "Genesis"; v_chapter := str "1"; v_number := 1;
         v_lines := [[]]; v_smallcaps := false; v_notes := [] |} ].
Proof. vm_compute. reflexivity. Qed.

(** The same verse in a poetic payload is dropped, as it is by the plain
    branch and by the wrapper. *)
Lemma parse_html_verses_drops_empty_poetic_verse :
  parse_html_verses
    (placeholder_only ++ newline
     ++ str "Genesis 1:2: <span><l sID=" ++ dq ++ str "a" ++ dq
     ++ str "/>text<l eID=" ++ dq ++ str "a" ++ dq ++ str "/></span><br />")
    false
  = [ {| v_book := str "Genesis"; v_chapter := str "1"; v_number := 2;
         v_lines := [str "text"]; v_smallcaps := false; v_notes := [] |} ].
Proof. vm_compute. reflexivity. Qed.

Lemma parse_diatheke_output_drops_empty_verse :
  FormatWrapper.parse_diatheke_output
    (str "Genesis 1:1: <note type=" ++ dq ++ str "x-footnote" ++ dq ++ str "/>"
     ++ newline ++ str "Genesis 1:2: text" ++ newline ++ str "(KJV)")
    (str "KJV") (str "plain") []
  = [ {| FormatWrapper.p_book := str "Genesis";
         FormatWrapper.p_chapter := str "1";
         FormatWrapper.p_first := str "2"; FormatWrapper.p_last := str "2";
         FormatWrapper.p_verse_lines := [(str "2", str "text")] |} ].
Proof. vm_compute. reflexivity. Qed.

(** A verse whose text holds a newline, in a payload with a line
    marker. *)
Definition two_raw_lines : text :=
  str "Psalms 1:1: <span>first line" ++ newline ++ str "second line<l sID="
  ++ dq ++ str "a" ++ dq ++ str "/></span><br />".


End ParserExamples.

(** ** The verse range of a citation *)

Section CitationExamples.

Import BibleToFormat.

Definition one_line (n : Z) (line : string) : pverse :=
  {| pv_number := n; pv_lines := [str line]; pv_smallcaps := false;
     pv_notes := [] |}.

(** C6: [main] of bible-to-format_v2.py joins the first and the last
    verse number with a dash whenever they differ; verses 9 and 11 are
    cited as [9-11]. *)
Theorem main_verse_range_not_consecutive :
  main_verse_range [one_line 9 "a"; one_line 11 "b"] = Ok (str "9-11")
  /\ main_ref_text
       {| p_book := str "Exodus"; p_chapter := str "9";
          p_verses := [one_line 9 "a"; one_line 11 "b"] |}
       (Some (str "KJV")) (str "full") (str "auto")
     = Ok (str "Exodus 9:9-11 KJV").
Proof. apply conj; vm_compute; reflexivity. Qed.

Lemma main_verse_range_consecutive :
  main_verse_range [one_line 9 "a"; one_line 10 "b"; one_line 11 "c"]
  = Ok (str "9-11").
Proof. vm_compute. reflexivity. Qed.

End CitationExamples.

(** ** Passage grouping *)

Section Grouping.

Import BibleToFormat.

(** The verses of a passage, each with the book and chapter of the
    passage put back. *)
Definition verses_of (p : passage) : list verse :=
  map (fun v => {| v_book := p_book p; v_chapter := p_chapter p;
                   v_number := pv_number v; v_lines := pv_lines v;
                   v_smallcaps := pv_smallcaps v; v_notes := pv_notes v |})
      (p_verses p).

Definition same_chapter (p q : passage) : Prop :=
  p_book p = p_book q /\ p_chapter p = p_chapter q.

Fixpoint neighbours_differ (ps : list passage) : Prop :=
  match ps with
  | p :: ((q :: _) as rest) => ~ same_chapter p q /\ neighbours_differ rest
  | _ => True
  end.

(** What holds of the two variables of the loop after the verses [seen]. *)
Record grouped (g : grouping) (seen : list verse) : Prop := {
  grouped_verses : concat (map verses_of (passages g)) = seen;
  grouped_nonempty : Forall (fun p => p_verses p <> []) (passages g);
  grouped_differ : neighbours_differ (passages g);
  grouped_current :
    current g = match passages g with
                | [] => None
                | _ :: _ => Some (length (passages g) - 1)
                end;
}.

Lemma neighbours_differ_snoc ps p q :
  neighbours_differ (ps ++ [p]) -> ~ same_chapter p q ->
  neighbours_differ (ps ++ [p; q]).
Proof.
  induction ps as [|a [|b ps] IH]; simpl; intros H Hpq.
  - auto.
  - destruct H as [Hab _]. auto.
  - destruct H as [Hab H]. split; [exact Hab|]. apply IH; assumption.
Qed.

Lemma neighbours_differ_last ps p p' :
  neighbours_differ (ps ++ [p]) -> same_chapter p p' ->
  neighbours_differ (ps ++ [p']).
Proof.
  induction ps as [|a [|b ps] IH]; simpl; intros H Hpp.
  - exact I.
  - destruct H as [Hap _]. split; [|exact I].
    intros [Hb Hc]. apply Hap. destruct Hpp as [Hb' Hc'].
    split; congruence.
  - destruct H as [Hab H]. split; [exact Hab|]. apply IH; assumption.
Qed.

Lemma neighbours_differ_lookup ps i p q :
  neighbours_differ ps -> ps !! i = Some p -> ps !! S i = Some q ->
  p_book p <> p_book q \/ p_chapter p <> p_chapter q.
Proof.
  revert i. induction ps as [|a [|b ps] IH]; intros i H Hp Hq.
  - discriminate.
  - destruct i; discriminate.
  - destruct H as [Hab H]. destruct i as [|i].
    + simpl in Hp, Hq. injection Hp as ->. injection Hq as ->.
      destruct (decide (p_book p = p_book q)) as [Hb|Hb]; [|left; exact Hb].
      right. intros Hc. apply Hab. split; assumption.
    + apply (IH i H); assumption.
Qed.

Lemma grouped_start : grouped {| passages := []; current := None |} [].
Proof. split; simpl; auto. Qed.

Lemma grouped_step g seen v :
  grouped g seen -> grouped (group_step g v) (seen ++ [v]).
Proof.
  intros [Hv Hn Hd Hc]. destruct g as [ps cur]. simpl in *.
  destruct (decide (ps = [])) as [->|Hne].
  - subst cur. unfold group_step, starts_passage. simpl.
    subst seen. split; simpl; auto.
    destruct v; reflexivity.
  - apply exists_last in Hne as (ps0 & p0 & ->).
    assert (Hcur : cur = Some (length ps0)).
    { rewrite Hc. destruct ps0; simpl; [reflexivity|].
      rewrite length_app. simpl. f_equal. lia. }
    clear Hc. subst cur.
    unfold group_step, starts_passage. simpl.
    rewrite lookup_app_r by lia. rewrite Nat.sub_diag. simpl.
    rewrite map_app, concat_app in Hv. simpl in Hv. rewrite app_nil_r in Hv.
    apply Forall_app in Hn as [Hn0 Hn1].
    destruct (bool_decide (p_book p0 <> v_book v)
              || bool_decide (p_chapter p0 <> v_chapter v)) eqn:Hnew; simpl.
    + (* a new passage *)
      rewrite length_app. simpl.
      replace (length ps0 + 1) with (length (ps0 ++ [p0]) + 0)
        by (rewrite length_app; simpl; lia).
      rewrite alter_app_r. simpl.
      split; simpl.
      * rewrite !map_app, !concat_app. simpl. rewrite !app_nil_r.
        rewrite Hv. f_equal. destruct v; reflexivity.
      * apply Forall_app. split; [apply Forall_app; split; assumption|].
        repeat constructor. discriminate.
      * rewrite <- app_assoc. simpl. apply neighbours_differ_snoc; [assumption|].
        intros [Hb Hch]. simpl in Hb, Hch.
        apply orb_true_iff in Hnew as [H|H]; apply bool_decide_eq_true in H;
          contradiction.
      * rewrite <- app_assoc. simpl.
        destruct ps0; simpl; [reflexivity|].
        rewrite !length_app. simpl. f_equal. lia.
    + (* the current passage goes on *)
      apply orb_false_iff in Hnew as [Hb Hch].
      apply bool_decide_eq_false in Hb, Hch.
      assert (Hb' : p_book p0 = v_book v)
        by (destruct (decide (p_book p0 = v_book v)); [assumption|contradiction]).
      assert (Hch' : p_chapter p0 = v_chapter v)
        by (destruct (decide (p_chapter p0 = v_chapter v));
            [assumption|contradiction]).
      replace (length ps0) with (length ps0 + 0) by lia.
      rewrite alter_app_r. simpl.
      split; simpl.
      * rewrite map_app, concat_app. simpl. rewrite app_nil_r.
        unfold verses_of at 2. simpl. rewrite map_app. simpl.
        rewrite app_assoc. fold (verses_of p0). rewrite Hv.
        f_equal. rewrite Hb', Hch'. destruct v; reflexivity.
      * apply Forall_app. split; [assumption|].
        repeat constructor. simpl. destruct (p_verses p0); discriminate.
      * eapply neighbours_differ_last; [eassumption|]. split; reflexivity.
      * destruct ps0; simpl; [reflexivity|].
        rewrite !length_app. simpl. f_equal. lia.
Qed.

Lemma grouped_fold verses g seen :
  grouped g seen -> grouped (fold_left group_step verses g) (seen ++ verses).
Proof.
  revert g seen. induction verses as [|v verses IH]; intros g seen H; simpl.
  - rewrite app_nil_r. exact H.
  - replace (seen ++ v :: verses) with ((seen ++ [v]) ++ verses)
      by (rewrite <- app_assoc; reflexivity).
    apply IH. apply grouped_step. exact H.
Qed.

(** C10: [group_passages] cuts the verse sequence into passages without
    losing, repeating or moving a verse, every verse under the book and
    chapter it came with; no passage is empty, and two passages that
    follow each other differ in book or chapter, so a passage ends only
    where the book or the chapter changes. *)
Theorem group_passages_partition (verses : list verse) :
  concat (map verses_of (group_passages verses)) = verses
  /\ (forall p, p ∈ group_passages verses -> p_verses p <> [])
  /\ (forall i p q,
        group_passages verses !! i = Some p ->
        group_passages verses !! S i = Some q ->
        p_book p <> p_book q \/ p_chapter p <> p_chapter q).
Proof.
  pose proof (grouped_fold verses _ _ grouped_start) as [Hv Hn Hd _].
  simpl in Hv. unfold group_passages.
  split; [exact Hv|]. split.
  - intros p Hp. rewrite Forall_forall in Hn. apply Hn. exact Hp.
  - intros i p q. apply neighbours_differ_lookup. exact Hd.
Qed.

End Grouping.

(** ** The poetry envelope *)

Section Envelope.

Import BibleToFormat.

(** The two renderers that have an envelope. *)
Inductive backend :=
  | LatexTable
  | OrgVerseBlock.

Definition render (b : backend) (verses : list pverse)
    (options verse_nums : text) (inline_notes : bool) : result text :=
  match b with
  | LatexTable => format_latex verses options verse_nums inline_notes
  | OrgVerseBlock => format_org_verse verses options verse_nums inline_notes
  end.

(** The rendered verses, before they are joined. *)
Definition verse_blocks (b : backend) (verses : list pverse)
    (options verse_nums : text) (inline_notes : bool) : result (list text) :=
  match b with
  | LatexTable =>
    do output <- map_result (latex_verse options verse_nums inline_notes) verses;
    Ok (concat output)
  | OrgVerseBlock => map_result (org_verse options verse_nums inline_notes) verses
  end.

Definition bare (blocks : list text) : text := join (newline ++ newline) blocks.

Definition enveloped (b : backend) (blocks : list text) : text :=
  match b with
  | LatexTable =>
    str "\begin{verse}" ++ newline
    ++ join (str "\\" ++ newline ++ newline) blocks
    ++ newline ++ str "\end{verse}"
  | OrgVerseBlock =>
    str "#+BEGIN_VERSE" ++ newline ++ join (newline ++ newline) blocks
    ++ newline ++ str "#+END_VERSE"
  end.

Definition multi_line (v : pverse) : Prop := 2 <= length (pv_lines v).

Lemma has_poetry_multi_line verses :
  has_poetry verses = true <-> Exists multi_line verses.
Proof.
  unfold has_poetry. rewrite existsb_exists, Exists_exists.
  split; intros (v & Hin & Hv); exists v.
  - split; [apply list_elem_of_In; exact Hin|].
    apply bool_decide_eq_true in Hv. unfold multi_line. lia.
  - split; [apply list_elem_of_In; exact Hin|].
    apply bool_decide_eq_true. unfold multi_line in Hv. lia.
Qed.

(** C9: whenever the verses render, the passage is returned inside the
    envelope if some verse has two or more lines and bare otherwise; a
    passage of one-line verses is bare. *)
Theorem poetry_envelope (b : backend) (verses : list pverse)
    (options verse_nums : text) (inline_notes : bool) (blocks : list text) :
  verse_blocks b verses options verse_nums inline_notes = Ok blocks ->
  render b verses options verse_nums inline_notes
    = Ok (if decide (Exists multi_line verses)
          then enveloped b blocks else bare blocks)
  /\ ((forall v, v ∈ verses -> length (pv_lines v) = 1) ->
      render b verses options verse_nums inline_notes = Ok (bare blocks)).
Proof.
  intros Hblocks.
  assert (Hmain : render b verses options verse_nums inline_notes
                  = Ok (if decide (Exists multi_line verses)
                        then enveloped b blocks else bare blocks)).
  { destruct b; simpl in *; unfold format_latex, format_org_verse.
    - destruct (map_result _ verses) as [output|e]; simpl in *; [|discriminate].
      injection Hblocks as <-.
      destruct (decide (Exists multi_line verses)) as [Hex|Hex].
      + apply has_poetry_multi_line in Hex. rewrite Hex. reflexivity.
      + destruct (has_poetry verses) eqn:Hp; [|reflexivity].
        apply has_poetry_multi_line in Hp. contradiction.
    - rewrite Hblocks. simpl.
      destruct (decide (Exists multi_line verses)) as [Hex|Hex].
      + apply has_poetry_multi_line in Hex. rewrite Hex. reflexivity.
      + destruct (has_poetry verses) eqn:Hp; [|reflexivity].
        apply has_poetry_multi_line in Hp. contradiction. }
  split; [exact Hmain|].
  intros Hone. rewrite Hmain.
  destruct (decide (Exists multi_line verses)) as [Hex|Hex]; [|reflexivity].
  apply Exists_exists in Hex as (v & Hin & Hv).
  specialize (Hone v Hin). unfold multi_line in Hv. lia.
Qed.

Definition psalm_verse : pverse :=
  {| pv_number := 9;
     pv_lines := [str "Het heil is van de HEERE;"; str "Uw zegen is over Uw volk."];
     pv_smallcaps := false; pv_notes := [] |}.

Definition prose_verse : pverse :=
  {| pv_number := 1; pv_lines := [str "In het begin"]; pv_smallcaps := false;
     pv_notes := [] |}.

Lemma poetry_envelope_witness :
  format_latex [prose_verse; psalm_verse] [] (str "dots") false
    = Ok (str "\begin{verse}" ++ newline
          ++ str "\textsuperscript{1.} In het begin\\" ++ newline ++ newline
          ++ str "\textsuperscript{9.} Het heil is van de HEERE;\\" ++ newline
          ++ str "\vin Uw zegen is over Uw volk." ++ newline
          ++ str "\end{verse}")
  /\ format_org_verse [prose_verse] [] (str "dots") false
    = Ok (str "1. In het begin").
Proof.
  split.
  - refine (eq_trans
      (proj1 (poetry_envelope LatexTable [prose_verse; psalm_verse] []
                (str "dots") false
                [str "\textsuperscript{1.} In het begin";
                 str "\textsuperscript{9.} Het heil is van de HEERE;\\"
                 ++ newline ++ str "\vin Uw zegen is over Uw volk."] _)) _).
    + vm_compute. reflexivity.
    + vm_compute. reflexivity.
  - refine (proj2 (poetry_envelope OrgVerseBlock [prose_verse] []
                     (str "dots") false [str "1. In het begin"] _) _).
    + vm_compute. reflexivity.
    + intros v Hv. apply list_elem_of_singleton in Hv. subst v. reflexivity.
Defined.

End Envelope.

(** ** The citation of the wrapper *)

Section WrapperCitation.

Import FormatWrapper.

Lemma consecutive_spec (nums : list Z) :
  consecutive nums = true <->
  (forall i a b, nums !! i = Some a -> nums !! S i = Some b -> b = (a + 1)%Z).
Proof.
  induction nums as [|a [|b nums] IH].
  - split; [intros _ i ? ? H; discriminate | reflexivity].
  - split; [intros _ [|i] ? ? H1 H2; discriminate | reflexivity].
  - change (consecutive (a :: b :: nums))
      with ((a + 1 =? b)%Z && consecutive (b :: nums)).
    rewrite andb_true_iff, IH, Z.eqb_eq. split.
    + intros [Hab Hrest] [|i] x y Hx Hy.
      * simpl in Hx, Hy. injection Hx as <-. injection Hy as <-. lia.
      * apply (Hrest i); assumption.
    + intros H. split.
      * symmetry. apply (H 0%nat); reflexivity.
      * intros i x y Hx Hy. apply (H (S i)); assumption.
Qed.

(** [format_passage] of the wrapper does what C6 says: when the first
    and the last verse differ, the range is [first-last] exactly when
    the verse numbers go up by one, and the comma list otherwise. *)
Lemma format_passage_verse_part first_verse last_verse verse_lines verse_nums :
  first_verse <> last_verse ->
  map_result (fun v => py_int v.1) verse_lines = Ok verse_nums ->
  verse_part first_verse last_verse verse_lines
  = Ok (if consecutive verse_nums
        then first_verse ++ str "-" ++ last_verse
        else join (str ",") (map fst verse_lines)).
Proof.
  intros Hne Hnums. unfold verse_part.
  rewrite bool_decide_eq_false_2 by exact Hne.
  rewrite Hnums. simpl. destruct (consecutive verse_nums); reflexivity.
Qed.

Definition plain_config : config :=
  {| tag := str "KJV"; dutch_names := None; abbreviations := ∅ |}.

Lemma format_passage_examples :
  format_passage (str "Exodus") (str "9") (str "9") (str "11")
    [(str "9", str "a"); (str "10", str "b"); (str "11", str "c")]
    plain_config (str "full-no-version")
  = Ok (str "9. a" ++ newline ++ str "10. b" ++ newline ++ str "11. c"
        ++ newline ++ str "(Exodus 9:9-11)")
  /\ format_passage (str "Exodus") (str "9") (str "9") (str "11")
    [(str "9", str "a"); (str "11", str "c")]
    plain_config (str "full-no-version")
  = Ok (str "9. a" ++ newline ++ str "11. c" ++ newline
        ++ str "(Exodus 9:9,11)").
Proof. apply conj; vm_compute; reflexivity. Qed.

End WrapperCitation.

(** ** A batch of references *)

Section Batch.

Import DutchDiatheke.

(** Only [ValueError] is raised while a reference is resolved. *)
Definition raises_value_error {A} (r : result A) : Prop :=
  forall e, r = Raise e -> exists msg, e = ValueError msg.

Lemma for_each_raises {S A} (body : S -> A -> result S) items :
  (forall st x, raises_value_error (body st x)) ->
  forall st, raises_value_error (for_each body st items).
Proof.
  intros Hbody. induction items as [|x items IH]; intros st e; simpl.
  - discriminate.
  - destruct (body st x) as [st'|e'] eqn:Hx; simpl.
    + apply IH.
    + intros [= <-]. exact (Hbody st x e' Hx).
Qed.

Lemma map_result_raises {A B} (f : A -> result B) items :
  (forall x, raises_value_error (f x)) ->
  raises_value_error (map_result f items).
Proof.
  intros Hf. induction items as [|x items IH]; intros e; simpl.
  - discriminate.
  - destruct (f x) as [y|e'] eqn:Hx; simpl.
    + destruct (map_result f items) as [ys|e'']; simpl; [discriminate|].
      intros [= <-]. apply IH. reflexivity.
    + intros [= <-]. exact (Hf x e' Hx).
Qed.

Lemma find_book_key mapping tokens i book rest :
  find_book mapping tokens i = (book, rest) -> book <> [] ->
  is_Some (mapping !! book).
Proof.
  induction i as [|i IH]; simpl.
  - intros [= <- <-] H. contradiction.
  - destruct (has_key mapping (join (str " ") (take (S i) tokens))) eqn:H1.
    + intros [= <- <-] _. apply bool_decide_eq_true in H1. exact H1.
    + destruct (has_key mapping
                  (remove_spaces (join (str " ") (take (S i) tokens)))) eqn:H2.
      * intros [= <- <-] _. apply bool_decide_eq_true in H2. exact H2.
      * exact IH.
Qed.

Lemma parse_reference_in_raises mapping reference :
  raises_value_error (parse_reference_in mapping reference).
Proof.
  intros e. unfold parse_reference_in.
  destruct (bool_decide (strip reference = [])); [intros [= <-]; eauto|].
  destruct (split_ws (normalize_text reference)) as [|first tokens] eqn:Htok;
    [intros [= <-]; eauto|].
  destruct (find_book mapping (first :: tokens) (length (first :: tokens)))
    as [book rest] eqn:Hfind.
  destruct (bool_decide (book = [])) eqn:Hbook; [intros [= <-]; eauto|].
  apply bool_decide_eq_false in Hbook.
  destruct (find_book_key _ _ _ _ _ Hfind Hbook) as [english ->].
  destruct (bool_decide (rest = [])); [discriminate|].
  destruct (_ && _); discriminate.
Qed.

Lemma expand_comma_part_raises mapping st comma_part :
  raises_value_error (expand_comma_part mapping st comma_part).
Proof.
  intros e. unfold expand_comma_part.
  destruct (find_book_prefix _ _ _); [discriminate|].
  destruct (contains (str ":") comma_part).
  - destruct (truthy (last_book st)); [discriminate|intros [= <-]; eauto].
  - destruct (is_number_or_range comma_part); [|discriminate].
    destruct (truthy (last_book st) && truthy (last_chapter st));
      [discriminate|].
    destruct (truthy (last_book st)); [discriminate|intros [= <-]; eauto].
Qed.

Lemma expand_reference_shorthand_raises reference include_apocrypha :
  raises_value_error (expand_reference_shorthand reference include_apocrypha).
Proof.
  intros e. unfold expand_reference_shorthand.
  destruct (bool_decide (strip reference = [])); [discriminate|].
  destruct (for_each _ _ _) as [st|e'] eqn:Hloop; simpl; [discriminate|].
  intros [= <-]. revert e' Hloop. apply for_each_raises.
  intros st x e'. unfold expand_semi_part.
  destruct (for_each _ st _) as [st'|e''] eqn:Hinner; simpl; [discriminate|].
  intros [= <-]. revert e'' Hinner. apply for_each_raises.
  apply expand_comma_part_raises.
Qed.

Variable subprocess_run : nat -> list text -> outcome.
Variable args : arguments.

Lemma resolve_raises ref : raises_value_error (resolve args ref).
Proof.
  intros e. unfold resolve.
  destruct (expand_reference_shorthand ref (arg_apocrypha args))
    as [expanded|e'] eqn:Hexp; simpl.
  - destruct (map_result _ expanded) as [english|e''] eqn:Hmap; simpl;
      [discriminate|].
    intros [= <-]. revert e'' Hmap. apply map_result_raises.
    intros x. apply parse_reference_in_raises.
  - intros [= <-]. exact (expand_reference_shorthand_raises _ _ e' Hexp).
Qed.

(** The events of the call of [run_diatheke] on the compound key [key],
    as the [n]-th process: what [run_diatheke] leaves and, when it
    raises, the report of [main]. *)
Definition run_events (n : nat) (key : text) : list event :=
  let '(evs, _, result) :=
    run_diatheke subprocess_run n (arg_module args) key (arg_format args)
      (arg_options args) (arg_echo args) (arg_dry_run args) in
  evs ++ match result with
         | Raise (ValueError msg) => [Stderr (str "ERROR: " ++ msg)]
         | _ => []
         end.


(** What one reference of the batch leaves in the run: the events of
    [run_diatheke] on its key when it resolves, and one error line when
    it does not. *)
Inductive turn : text -> list event -> Prop :=
  | turn_run ref key n :
      resolve args ref = Ok key -> turn ref (run_events n key)
  | turn_report ref msg :
      resolve args ref = Raise (ValueError msg) ->
      turn ref [Stderr (str "ERROR: " ++ msg)].




(** A reference that resolves is followed by its call whatever came
    before it in the batch. *)
Lemma turn_of_resolved ref key chunk :
  resolve args ref = Ok key -> turn ref chunk ->
  exists n, chunk = run_events n key.
Proof.
  intros Hres Hturn. destruct Hturn as [ref key' n Hres'|ref msg Hres'].
  - rewrite Hres in Hres'. injection Hres' as <-. exists n. reflexivity.
  - rewrite Hres in Hres'. discriminate.
Qed.

Lemma run_events_spawn n key :
  arg_dry_run args = false ->
  exists cmd,
    last cmd = Some key
    /\ (has_nul cmd = false -> Spawn cmd ∈ run_events n key).
Proof.
  intros Hdry. unfold run_events, run_diatheke. rewrite Hdry.
  set (cmd := _ ++ _ ++ [str "-k"; key]).
  exists cmd. split.
  - unfold cmd.
    change [str "-k"; key] with ([str "-k"] ++ [key]).
    rewrite !app_assoc. apply last_snoc.
  - intros ->. destruct (subprocess_run n cmd); simpl;
      rewrite app_nil_r; apply elem_of_app; right; apply elem_of_cons; left;
      reflexivity.
Qed.

End Batch.



(** ** The scan, as a relation *)

Section Scan.

Context {A : Type}.

(** A match takes at least one character and leaves a suffix of the
    input. *)
Definition consumes (m : matcher A) : Prop :=
  forall prev s a rest, m prev s = Some (a, rest) ->
    exists t, t <> [] /\ s = t ++ rest.

(** [scans m prev s ps]: scanning [s], with [prev] before it, cuts it
    into the pieces [ps]. *)
Inductive scans (m : matcher A) : option ascii -> text -> list (piece A) -> Prop :=
  | scans_nil prev : scans m prev [] []
  | scans_kept prev c s ps :
      m prev (c :: s) = None ->
      scans m (Some c) s ps ->
      scans m prev (c :: s) (Kept c :: ps)
  | scans_matched prev t rest a ps :
      t <> [] ->
      m prev (t ++ rest) = Some (a, rest) ->
      scans m (last t) rest ps ->
      scans m prev (t ++ rest) (Matched a :: ps).

Lemma re_scan_from_skip (m : matcher A) t rest prev :
  re_scan_from m (length t) prev (t ++ rest)
  = re_scan_from m 0 (from_option Some prev (last t)) rest.
Proof.
  revert prev. induction t as [|c t IH]; intros prev; simpl.
  - destruct rest; reflexivity.
  - rewrite IH. f_equal. destruct t as [|c' t]; [reflexivity|].
    rewrite last_cons_cons. destruct (last (c' :: t)) eqn:Hl; [reflexivity|].
    apply last_None in Hl. discriminate.
Qed.

Lemma re_scan_from_scans (m : matcher A) :
  consumes m -> forall n s prev, length s <= n ->
  scans m prev s (re_scan_from m 0 prev s).
Proof.
  intros Hm. induction n as [|n IH]; intros s prev Hlen.
  - destruct s; [constructor|simpl in Hlen; lia].
  - destruct s as [|c s]; [constructor|]. simpl in Hlen. simpl.
    destruct (m prev (c :: s)) as [[a rest]|] eqn:Hmatch.
    + destruct (Hm _ _ _ _ Hmatch) as (t & Ht & Hs).
      destruct t as [|c' t]; [contradiction|].
      simpl in Hs. injection Hs as <- ->.
      rewrite length_app, Nat.add_sub.
      rewrite re_scan_from_skip.
      change (c :: t ++ rest) with ((c :: t) ++ rest).
      apply scans_matched; [discriminate|exact Hmatch|].
      replace (from_option Some (Some c) (last t)) with (last (c :: t)).
      * apply IH. rewrite length_app in Hlen. lia.
      * destruct t as [|c' t]; [reflexivity|].
        rewrite last_cons_cons. destruct (last (c' :: t)) eqn:Hl; [reflexivity|].
        apply last_None in Hl. discriminate.
    + apply scans_kept; [exact Hmatch|]. apply IH. lia.
Qed.

Lemma re_scan_scans (m : matcher A) s :
  consumes m -> scans m None s (re_scan m s).
Proof. intros Hm. apply (re_scan_from_scans m Hm (length s)). lia. Qed.

(** A pattern that matches nowhere in [s], whatever comes before. *)
Definition never (m : matcher A) (s : text) : Prop :=
  forall pre post prev, s = pre ++ post -> m prev post = None.

Lemma never_suffix (m : matcher A) a b : never m (a ++ b) -> never m b.
Proof.
  intros H pre post prev ->. apply (H (a ++ pre) post prev).
  rewrite app_assoc. reflexivity.
Qed.

Lemma never_nil (m : matcher A) :
  (forall prev, m prev [] = None) -> never m [].
Proof.
  intros H pre post prev Heq. symmetry in Heq.
  apply app_eq_nil in Heq as [_ ->]. apply H.
Qed.

Lemma never_cons (m : matcher A) c s :
  (forall prev, m prev (c :: s) = None) -> never m s -> never m (c :: s).
Proof.
  intros Hc Hs pre post prev Heq. destruct pre as [|c' pre]; simpl in Heq.
  - subst post. apply Hc.
  - injection Heq as <- ->. apply (Hs pre post prev). reflexivity.
Qed.

Lemma never_head (m : matcher A) s prev : never m s -> m prev s = None.
Proof. intros H. apply (H [] s prev). reflexivity. Qed.

Lemma never_scan (m : matcher A) s prev :
  never m s -> re_scan_from m 0 prev s = map Kept s.
Proof.
  revert prev. induction s as [|c s IH]; intros prev H; simpl; [reflexivity|].
  rewrite (never_head m _ prev H). f_equal. apply IH.
  apply (never_suffix m [c] s). exact H.
Qed.

End Scan.

Lemma concat_kept (s : text) : concat (map piece_text (map Kept s)) = s.
Proof. induction s as [|c s IH]; simpl; [reflexivity|]. f_equal. exact IH. Qed.

(** A substitution whose pattern matches nowhere changes nothing. *)
Lemma re_sub_never (m : matcher text) s : never m s -> re_sub m s = s.
Proof.
  intros H. unfold re_sub, re_scan. rewrite never_scan by exact H.
  apply concat_kept.
Qed.

(** Induction on a substitution: the output follows the pieces. *)
Lemma re_sub_scans (m : matcher text) s :
  consumes m ->
  exists ps, scans m None s ps /\ re_sub m s = concat (map piece_text ps).
Proof.
  intros Hm. exists (re_scan m s). split; [|reflexivity].
  apply re_scan_scans. exact Hm.
Qed.

(** *** What a substitution keeps *)

Section Preserve.

Variable m : matcher text.
Hypothesis m_consumes : consumes m.

(** A property of characters that holds of the input and of every
    replacement holds of the output. *)
Lemma scans_Forall (P : ascii -> Prop) prev s ps :
  (forall prev s r rest, Forall P s -> m prev s = Some (r, rest) -> Forall P r) ->
  scans m prev s ps -> Forall P s -> Forall P (concat (map piece_text ps)).
Proof.
  intros Hr Hscan. induction Hscan as [|prev c s ps Hnone Hscan IH
                                      |prev t rest r ps Ht Hmatch Hscan IH];
    intros Hs; simpl.
  - constructor.
  - apply Forall_cons in Hs as [Hc Hs]. constructor; auto.
  - apply Forall_app. split.
    + exact (Hr _ _ _ _ Hs Hmatch).
    + apply IH. apply Forall_app in Hs as [_ Hs]. exact Hs.
Qed.

Lemma re_sub_Forall (P : ascii -> Prop) s :
  (forall prev s r rest, Forall P s -> m prev s = Some (r, rest) -> Forall P r) ->
  Forall P s -> Forall P (re_sub m s).
Proof.
  intros Hr Hs. destruct (re_sub_scans m s m_consumes) as (ps & Hscan & ->).
  exact (scans_Forall P None s ps Hr Hscan Hs).
Qed.

(** Replacements that are not empty and made of characters outside a
    class [C] cannot bring two characters of [C] together: a stretch of
    characters of [C] at the head of the output is at the head of the
    input. *)
Variable C : ascii -> bool.
Hypothesis m_outside : forall prev s r rest,
  m prev s = Some (r, rest) -> r <> [] /\ Forall (fun c => C c = false) r.

Lemma scans_prefix prev s ps q :
  scans m prev s ps -> Forall (fun c => C c = true) q ->
  q `prefix_of` concat (map piece_text ps) -> q `prefix_of` s.
Proof.
  intros Hscan. revert q.
  induction Hscan as [|prev c s ps Hnone Hscan IH
                     |prev t rest r ps Ht Hmatch Hscan IH];
    intros q Hq Hpre; simpl in Hpre.
  - exact Hpre.
  - destruct q as [|c' q]; [apply prefix_nil|].
    apply prefix_cons_inv_1 in Hpre as Hc. subst c'.
    apply prefix_cons_inv_2 in Hpre.
    apply Forall_cons in Hq as [_ Hq].
    apply prefix_cons. apply IH; assumption.
  - destruct q as [|c' q]; [apply prefix_nil|].
    destruct (m_outside _ _ _ _ Hmatch) as [Hr Hout].
    destruct r as [|c r]; [contradiction|].
    simpl in Hpre. apply prefix_cons_inv_1 in Hpre as Hc. subst c'.
    apply Forall_cons in Hq as [Hc _]. apply Forall_cons in Hout as [Hc' _].
    congruence.
Qed.

(** A pattern [bad] whose matches are told by a stretch of characters of
    [C] at the head of the input. *)
Variable bad : matcher text.
Hypothesis bad_window : forall prev s,
  bad prev s <> None ->
  exists q, q <> [] /\ Forall (fun c => C c = true) q /\ q `prefix_of` s
            /\ forall prev' s', q `prefix_of` s' -> bad prev' s' <> None.

(** If [bad] matches nowhere the scan keeps a character, it matches
    nowhere in the output. *)
Lemma scans_window_free (K : text -> Prop) prev s ps :
  (forall a b, K (a ++ b) -> K b) ->
  (forall prev prev' c s, K (c :: s) -> m prev (c :: s) = None ->
                          bad prev' (c :: s) = None) ->
  scans m prev s ps -> K s -> never bad (concat (map piece_text ps)).
Proof.
  intros Ksuffix Kkept Hscan.
  induction Hscan as [|prev c s ps Hnone Hscan IH
                     |prev t rest r ps Ht Hmatch Hscan IH];
    intros Hs; simpl.
  - intros pre post prev' Heq. symmetry in Heq.
    apply app_eq_nil in Heq as [_ ->].
    destruct (bad prev' []) eqn:Hb; [|reflexivity].
    destruct (bad_window prev' []) as (q & Hq & _ & Hpre & _); [congruence|].
    apply prefix_nil_inv in Hpre. contradiction.
  - apply never_cons; [|apply IH; exact (Ksuffix [c] s Hs)].
    intros prev'.
    destruct (bad prev' (c :: concat (map piece_text ps))) eqn:Hb; [|reflexivity].
    destruct (bad_window prev' (c :: concat (map piece_text ps)))
      as (q & Hq & HqC & Hpre & Hall); [congruence|].
    destruct q as [|c' q]; [contradiction|].
    apply prefix_cons_inv_1 in Hpre as Hc. subst c'.
    apply prefix_cons_inv_2 in Hpre.
    apply Forall_cons in HqC as [HcC HqC].
    pose proof (scans_prefix _ _ _ q Hscan HqC Hpre) as Hpre'.
    exfalso. apply (Hall prev' (c :: s)); [apply prefix_cons; exact Hpre'|].
    exact (Kkept prev prev' c s Hs Hnone).
  - destruct (m_outside _ _ _ _ Hmatch) as [_ Hout].
    specialize (IH (Ksuffix t rest Hs)).
    clear Hmatch Ht. induction r as [|c r IHr]; simpl; [exact IH|].
    apply Forall_cons in Hout as [Hc Hout].
    apply never_cons; [|apply IHr; exact Hout].
    intros prev'.
    destruct (bad prev' (c :: r ++ concat (map piece_text ps))) eqn:Hb;
      [|reflexivity].
    destruct (bad_window prev' (c :: r ++ concat (map piece_text ps)))
      as (q & Hq & HqC & Hpre & _); [congruence|].
    destruct q as [|c' q]; [contradiction|].
    apply prefix_cons_inv_1 in Hpre as Hc'. subst c'.
    apply Forall_cons in HqC as [HcC _]. congruence.
Qed.

Lemma re_sub_never_preserved s :
  (forall prev prev' s, bad prev s = None -> bad prev' s = None) ->
  never bad s -> never bad (re_sub m s).
Proof.
  intros Hctx Hs. destruct (re_sub_scans m s m_consumes) as (ps & Hscan & ->).
  apply (scans_window_free (never bad) None s ps); [| |exact Hscan|exact Hs].
  - intros a b. apply never_suffix.
  - intros prev prev' c s' Hn _. apply never_head. exact Hn.
Qed.

End Preserve.

(** ** Characters and strings *)

Section Strings.

(** Every character is among the 256 listed here, so a property of
    characters can be checked by running through them. *)
Definition all_ascii : list ascii := map ascii_of_nat (seq 0 256).

Lemma ascii_forallb (P : ascii -> bool) :
  forallb P all_ascii = true -> forall c, P c = true.
Proof.
  intros H c. rewrite forallb_forall in H. apply H.
  unfold all_ascii. apply in_map_iff. exists (nat_of_ascii c).
  split; [apply ascii_nat_embedding|].
  apply in_seq. pose proof (nat_ascii_bounded c). lia.
Qed.

Lemma match_lit_Some lit s rest : match_lit lit s = Some rest -> s = lit ++ rest.
Proof.
  revert s. induction lit as [|a lit IH]; intros s; simpl.
  - intros [= ->]. reflexivity.
  - destruct s as [|b s]; [discriminate|].
    destruct (Ascii.eqb a b) eqn:Hab; [|discriminate].
    apply Ascii.eqb_eq in Hab. subst b. intros H. f_equal. exact (IH s H).
Qed.

Lemma match_lit_app lit rest : match_lit lit (lit ++ rest) = Some rest.
Proof.
  induction lit as [|a lit IH]; simpl; [reflexivity|].
  rewrite Ascii.eqb_refl. exact IH.
Qed.

Lemma take_drop_while p s : take_while p s ++ drop_while p s = s.
Proof.
  induction s as [|c s IH]; simpl; [reflexivity|].
  destruct (p c); simpl; [f_equal; exact IH|reflexivity].
Qed.

Lemma drop_while_head p s c : head (drop_while p s) = Some c -> p c = false.
Proof.
  induction s as [|c' s IH]; simpl; [discriminate|].
  destruct (p c') eqn:Hc; [exact IH|]. simpl. intros [= <-]. exact Hc.
Qed.

Lemma drop_while_fix p s :
  (forall c, head s = Some c -> p c = false) -> drop_while p s = s.
Proof.
  destruct s as [|c s]; simpl; [reflexivity|].
  intros H. rewrite (H c); reflexivity.
Qed.

Lemma drop_while_suffix p s : exists a, s = a ++ drop_while p s.
Proof. exists (take_while p s). symmetry. apply take_drop_while. Qed.

Lemma drop_while_all p s : Forall (fun c => p c = true) s -> drop_while p s = [].
Proof.
  induction 1 as [|c s Hc _ IH]; simpl; [reflexivity|]. rewrite Hc. exact IH.
Qed.

(** [strip] takes a stretch out of the middle of the string. *)
Lemma strip_infix s : exists a b, s = a ++ strip s ++ b.
Proof.
  unfold strip.
  destruct (drop_while_suffix is_space s) as [a Ha].
  destruct (drop_while_suffix is_space (reverse (drop_while is_space s)))
    as [b Hb].
  exists a, (reverse b). rewrite <- reverse_app, <- Hb, reverse_involutive.
  exact Ha.
Qed.

Lemma strip_ends s :
  (forall c, head (strip s) = Some c -> is_space c = false)
  /\ (forall c, last (strip s) = Some c -> is_space c = false).
Proof.
  unfold strip.
  set (u := drop_while is_space s).
  destruct (drop_while_suffix is_space (reverse u)) as [b Hb].
  set (v := drop_while is_space (reverse u)) in *.
  split; intros c Hc.
  - rewrite head_reverse in Hc.
    assert (Hlast : last (reverse u) = Some c).
    { rewrite Hb. destruct v as [|c' v'] using rev_ind; [discriminate|].
      rewrite last_snoc in Hc. rewrite app_assoc, last_snoc. exact Hc. }
    rewrite last_reverse in Hlast.
    exact (drop_while_head is_space s c Hlast).
  - rewrite last_reverse in Hc.
    exact (drop_while_head is_space (reverse u) c Hc).
Qed.

Lemma strip_fix s :
  (forall c, head s = Some c -> is_space c = false) ->
  (forall c, last s = Some c -> is_space c = false) ->
  strip s = s.
Proof.
  intros Hh Hl. unfold strip. rewrite (drop_while_fix is_space s Hh).
  rewrite drop_while_fix; [apply reverse_involutive|].
  intros c. rewrite head_reverse. apply Hl.
Qed.

Lemma strip_idempotent s : strip (strip s) = strip s.
Proof. destruct (strip_ends s) as [Hh Hl]. apply strip_fix; assumption. Qed.

Lemma strip_blank s : Forall (fun c => is_space c = true) s -> strip s = [].
Proof. intros H. unfold strip. rewrite (drop_while_all _ _ H). reflexivity. Qed.

Lemma strip_Forall (P : ascii -> Prop) s : Forall P s -> Forall P (strip s).
Proof.
  intros H. destruct (strip_infix s) as (a & b & Heq). rewrite Heq in H.
  apply Forall_app in H as [_ H]. apply Forall_app in H as [H _]. exact H.
Qed.

End Strings.

(** ** The steps of the normalizer *)

Section NormalizerSteps.

Import DutchDiatheke.

(** *** The patterns take characters *)

Lemma re_punct_consumes : consumes re_punct.
Proof.
  intros prev s r rest. unfold re_punct.
  destruct s as [|c s]; [discriminate|].
  destruct (punct_class c); [|discriminate].
  destruct (match_lit (str "{}]") s) as [rest'|] eqn:Hlit; [|discriminate].
  intros [= <- <-]. apply match_lit_Some in Hlit. subst s.
  exists (c :: str "{}]"). split; [discriminate|reflexivity].
Qed.

Lemma re_roman_Some roman arabic prev s r rest :
  re_roman roman arabic prev s = Some (r, rest) ->
  r = arabic /\ s = roman ++ rest
  /\ word_boundary prev (head s) = true
  /\ word_boundary (last roman) (head rest) = true.
Proof.
  unfold re_roman.
  destruct (word_boundary prev (head s)) eqn:Hb; [|discriminate].
  destruct (match_lit roman s) as [rest'|] eqn:Hlit; [|discriminate].
  destruct (word_boundary (last roman) (head rest')) eqn:Hb'; [|discriminate].
  intros [= <- <-]. apply match_lit_Some in Hlit. auto.
Qed.

Lemma re_roman_consumes roman arabic :
  roman <> [] -> consumes (re_roman roman arabic).
Proof.
  intros Hne prev s r rest H. apply re_roman_Some in H as (_ & -> & _).
  exists roman. split; [exact Hne|reflexivity].
Qed.

Lemma re_digit_letter_Some prev s r rest :
  re_digit_letter prev s = Some (r, rest) ->
  exists d l, s = d :: l :: rest /\ r = [d; " "%char; l]
              /\ is_digit d = true /\ is_az l = true.
Proof.
  unfold re_digit_letter. destruct s as [|d [|l s]]; try discriminate.
  destruct (is_digit d) eqn:Hd; [|discriminate].
  destruct (is_az l) eqn:Hl; [|discriminate].
  intros [= <- <-]. exists d, l. auto.
Qed.

Lemma re_letter_digit_Some prev s r rest :
  re_letter_digit prev s = Some (r, rest) ->
  exists l d, s = l :: d :: rest /\ r = [l; " "%char; d]
              /\ is_az l = true /\ is_digit d = true.
Proof.
  unfold re_letter_digit. destruct s as [|l [|d s]]; try discriminate.
  destruct (is_az l) eqn:Hl; [|discriminate].
  destruct (is_digit d) eqn:Hd; [|discriminate].
  intros [= <- <-]. exists l, d. auto.
Qed.

Lemma re_digit_letter_consumes : consumes re_digit_letter.
Proof.
  intros prev s r rest H.
  apply re_digit_letter_Some in H as (d & l & -> & _).
  exists [d; l]. split; [discriminate|reflexivity].
Qed.

Lemma re_letter_digit_consumes : consumes re_letter_digit.
Proof.
  intros prev s r rest H.
  apply re_letter_digit_Some in H as (l & d & -> & _).
  exists [l; d]. split; [discriminate|reflexivity].
Qed.

Lemma re_spaces_Some prev s r rest :
  re_spaces prev s = Some (r, rest) ->
  exists c s', s = c :: s' /\ is_space c = true /\ r = str " "
               /\ rest = drop_while is_space s'.
Proof.
  unfold re_spaces. destruct s as [|c s]; [discriminate|].
  destruct (is_space c) eqn:Hc; [|discriminate].
  intros [= <- <-]. exists c, s. auto.
Qed.

Lemma re_spaces_consumes : consumes re_spaces.
Proof.
  intros prev s r rest H.
  apply re_spaces_Some in H as (c & s' & -> & _ & _ & ->).
  exists (c :: take_while is_space s'). split; [discriminate|].
  simpl. f_equal. symmetry. apply take_drop_while.
Qed.

(** *** Character classes *)

(** The characters the punctuation pattern is made of. *)
Definition punct_part (c : ascii) : bool :=
  punct_class c || existsb (Ascii.eqb c) (str "{}]").

(** The characters the two spacing patterns are made of. *)
Definition digit_or_letter (c : ascii) : bool := is_digit c || is_az c.

(** What the first two steps leave of a character is changed by neither
    of them. *)
Definition settled (c : ascii) : Prop :=
  strip_accent c = c /\ lower_char c = c.

Definition settledb (c : ascii) : bool :=
  Ascii.eqb (strip_accent c) c && Ascii.eqb (lower_char c) c.

Lemma settledb_settled c : settledb c = true -> settled c.
Proof.
  unfold settledb, settled. rewrite andb_true_iff, !Ascii.eqb_eq. tauto.
Qed.

Lemma lower_strip_accent_settled c : settled (lower_char (strip_accent c)).
Proof.
  apply settledb_settled. revert c. apply ascii_forallb.
  vm_compute. reflexivity.
Qed.

Lemma digit_facts c :
  is_digit c = true ->
  settled c /\ punct_part c = false /\ is_az c = false /\ is_space c = false
  /\ is_word c = true.
Proof.
  revert c.
  assert (H : forall c, (negb (is_digit c)
                         || (settledb c && negb (punct_part c) && negb (is_az c)
                             && negb (is_space c) && is_word c)) = true).
  { apply ascii_forallb. vm_compute. reflexivity. }
  intros c Hc. specialize (H c). rewrite Hc in H. simpl in H.
  rewrite !andb_true_iff, !negb_true_iff in H.
  destruct H as ((((H1 & H2) & H3) & H4) & H5).
  auto using settledb_settled.
Qed.

Lemma letter_facts c :
  is_az c = true ->
  settled c /\ punct_part c = false /\ is_digit c = false
  /\ is_space c = false /\ is_word c = true.
Proof.
  revert c.
  assert (H : forall c, (negb (is_az c)
                         || (settledb c && negb (punct_part c)
                             && negb (is_digit c) && negb (is_space c)
                             && is_word c)) = true).
  { apply ascii_forallb. vm_compute. reflexivity. }
  intros c Hc. specialize (H c). rewrite Hc in H. simpl in H.
  rewrite !andb_true_iff, !negb_true_iff in H.
  destruct H as ((((H1 & H2) & H3) & H4) & H5).
  auto using settledb_settled.
Qed.

Lemma space_facts c :
  is_space c = true ->
  settled c /\ punct_part c = false /\ digit_or_letter c = false
  /\ is_word c = false.
Proof.
  revert c.
  assert (H : forall c, (negb (is_space c)
                         || (settledb c && negb (punct_part c)
                             && negb (digit_or_letter c) && negb (is_word c)))
                        = true).
  { apply ascii_forallb. vm_compute. reflexivity. }
  intros c Hc. specialize (H c). rewrite Hc in H. simpl in H.
  rewrite !andb_true_iff, !negb_true_iff in H.
  destruct H as (((H1 & H2) & H3) & H4).
  auto using settledb_settled.
Qed.

(** The six numerals and their digits. *)
Definition numeral_ok (ra : text * text) : Prop :=
  ra.1 <> [] /\ ra.2 <> []
  /\ Forall (fun c => is_digit c = true) ra.2
  /\ (exists c, head ra.1 = Some c /\ is_word c = true)
  /\ (exists c, last ra.1 = Some c /\ is_word c = true).

Lemma roman_map_ok : Forall numeral_ok roman_map.
Proof.
  repeat constructor; try discriminate;
    try (eexists; split; [reflexivity|reflexivity]).
Qed.

(** A property kept by each of the six substitutions is kept by all of
    them in turn. *)
Lemma roman_to_arabic_keeps (Q : text -> Prop) s :
  (forall ra s, numeral_ok ra -> Q s -> Q (re_sub (re_roman ra.1 ra.2) s)) ->
  Q s -> Q (roman_to_arabic s).
Proof.
  intros Hstep. unfold roman_to_arabic.
  pose proof roman_map_ok as Hok. revert s.
  induction roman_map as [|ra l IH]; intros s Hs; simpl; [exact Hs|].
  apply Forall_cons in Hok as [Hra Hok].
  apply IH; [exact Hok|]. apply Hstep; assumption.
Qed.

End NormalizerSteps.

(** *** Patterns on two neighbours *)

Section Pairs.

(** No two neighbours of [s] are in the relation [pb]. *)
Fixpoint pair_free (pb : ascii -> ascii -> bool) (s : text) : Prop :=
  match s with
  | a :: s' =>
    (forall b, head s' = Some b -> pb a b = false) /\ pair_free pb s'
  | [] => True
  end.

Lemma pair_free_app pb r o :
  pair_free pb r -> pair_free pb o ->
  (forall y z, last r = Some y -> head o = Some z -> pb y z = false) ->
  pair_free pb (r ++ o).
Proof.
  intros Hr Ho Hjoin. induction r as [|a r IH]; simpl; [exact Ho|].
  destruct Hr as [Ha Hr]. split.
  - intros b Hb. destruct r as [|a' r]; simpl in Hb.
    + apply (Hjoin a b); [reflexivity|exact Hb].
    + apply Ha. exact Hb.
  - apply IH; [exact Hr|].
    intros y z Hy Hz. apply (Hjoin y z); [|exact Hz].
    destruct r as [|a' r]; [discriminate|].
    rewrite last_cons_cons. exact Hy.
Qed.

Lemma pair_free_suffix pb a b : pair_free pb (a ++ b) -> pair_free pb b.
Proof.
  induction a as [|c a IH]; simpl; [auto|]. intros [_ H]. exact (IH H).
Qed.

(** A substitution that keeps the first character of what it replaces
    keeps the first character of the string. *)
Lemma scans_head (m : matcher text) prev s ps :
  (forall prev s r rest, m prev s = Some (r, rest) ->
                         r <> [] /\ head r = head s) ->
  scans m prev s ps -> head (concat (map piece_text ps)) = head s.
Proof.
  intros Hm Hscan. destruct Hscan as [|prev c s ps Hnone Hscan
                                      |prev t rest r ps Ht Hmatch Hscan];
    simpl; [reflexivity|reflexivity|].
  destruct (Hm _ _ _ _ Hmatch) as [Hr Hh]. rewrite <- Hh.
  destruct r; [contradiction|reflexivity].
Qed.

Lemma scans_pair_free pb (m : matcher text) (K : text -> Prop) prev s ps :
  (forall a b, K (a ++ b) -> K b) ->
  (forall prev c s z, K (c :: s) -> m prev (c :: s) = None ->
                      head s = Some z -> pb c z = false) ->
  (forall prev s r rest, K s -> m prev s = Some (r, rest) ->
     r <> [] /\ head r = head s /\ pair_free pb r
     /\ forall y z, last r = Some y -> head rest = Some z -> pb y z = false) ->
  scans m prev s ps -> K s -> pair_free pb (concat (map piece_text ps)).
Proof.
  intros Ksuffix Hkept Hmatched Hscan.
  assert (Hhead : forall prev s ps, K s -> scans m prev s ps ->
                    head (concat (map piece_text ps)) = head s).
  { clear prev s ps Hscan. intros prev s ps Hs Hscan.
    destruct Hscan as [|prev c s ps Hnone Hscan|prev t rest r ps Ht Hmatch Hscan];
      simpl; [reflexivity|reflexivity|].
    destruct (Hmatched _ _ _ _ Hs Hmatch) as (Hr & Hh & _). rewrite <- Hh.
    destruct r; [contradiction|reflexivity]. }
  induction Hscan as [|prev c s ps Hnone Hscan IH
                     |prev t rest r ps Ht Hmatch Hscan IH];
    intros Hs; simpl.
  - exact I.
  - pose proof (Ksuffix [c] s Hs) as Hs'. split; [|apply IH; exact Hs'].
    intros z Hz. rewrite (Hhead _ _ _ Hs' Hscan) in Hz.
    exact (Hkept prev c s z Hs Hnone Hz).
  - pose proof (Ksuffix t rest Hs) as Hs'.
    destruct (Hmatched _ _ _ _ Hs Hmatch) as (Hr & _ & Hfree & Hjoin).
    apply pair_free_app; [exact Hfree|apply IH; exact Hs'|].
    intros y z Hy Hz. rewrite (Hhead _ _ _ Hs' Hscan) in Hz.
    exact (Hjoin y z Hy Hz).
Qed.

End Pairs.

Section NormalizerInvariants.

Import DutchDiatheke.

Definition digit_then_letter (a b : ascii) : bool := is_digit a && is_az b.
Definition letter_then_digit (a b : ascii) : bool := is_az a && is_digit b.

Lemma pair_free_never_digit_letter s :
  pair_free digit_then_letter s -> never re_digit_letter s.
Proof.
  induction s as [|a s IH]; simpl.
  - intros _. apply never_nil. reflexivity.
  - intros [Ha Hs]. apply never_cons; [|exact (IH Hs)].
    intros prev. unfold re_digit_letter. destruct s as [|b s]; [reflexivity|].
    specialize (Ha b eq_refl). unfold digit_then_letter in Ha.
    rewrite Ha. reflexivity.
Qed.

Lemma pair_free_never_letter_digit s :
  pair_free letter_then_digit s -> never re_letter_digit s.
Proof.
  induction s as [|a s IH]; simpl.
  - intros _. apply never_nil. reflexivity.
  - intros [Ha Hs]. apply never_cons; [|exact (IH Hs)].
    intros prev. unfold re_letter_digit. destruct s as [|b s]; [reflexivity|].
    specialize (Ha b eq_refl). unfold letter_then_digit in Ha.
    rewrite Ha. reflexivity.
Qed.

(** After the first spacing step no digit is followed by a letter. *)
Lemma digit_letter_spaced s :
  pair_free digit_then_letter (re_sub re_digit_letter s).
Proof.
  destruct (re_sub_scans _ s re_digit_letter_consumes) as (ps & Hscan & ->).
  apply (scans_pair_free digit_then_letter re_digit_letter (fun _ => True)
           None s ps); auto.
  - intros prev c s' z _ Hnone Hz. unfold re_digit_letter in Hnone.
    destruct s' as [|z' s']; [discriminate|]. simpl in Hz. injection Hz as ->.
    unfold digit_then_letter. destruct (is_digit c && is_az z); [discriminate|].
    reflexivity.
  - intros prev s' r rest _ Hm.
    apply re_digit_letter_Some in Hm as (d & l & -> & -> & Hd & Hl).
    destruct (letter_facts l Hl) as (_ & _ & Hld & _).
    repeat apply conj; try discriminate; try reflexivity.
    + simpl. repeat apply conj; try exact I; intros b Hb; try discriminate;
        injection Hb as <-; unfold digit_then_letter;
        first [reflexivity | rewrite Hd; reflexivity].
    + intros y z [= <-] _. unfold digit_then_letter. rewrite Hld. reflexivity.
Qed.

(** After the second spacing step no letter is followed by a digit, and
    still no digit by a letter. *)
Lemma letter_digit_spaced s :
  pair_free letter_then_digit (re_sub re_letter_digit s).
Proof.
  destruct (re_sub_scans _ s re_letter_digit_consumes) as (ps & Hscan & ->).
  apply (scans_pair_free letter_then_digit re_letter_digit (fun _ => True)
           None s ps); auto.
  - intros prev c s' z _ Hnone Hz. unfold re_letter_digit in Hnone.
    destruct s' as [|z' s']; [discriminate|]. simpl in Hz. injection Hz as ->.
    unfold letter_then_digit. destruct (is_az c && is_digit z); [discriminate|].
    reflexivity.
  - intros prev s' r rest _ Hm.
    apply re_letter_digit_Some in Hm as (l & d & -> & -> & Hl & Hd).
    destruct (digit_facts d Hd) as (_ & _ & Hdl & _).
    repeat apply conj; try discriminate; try reflexivity.
    + simpl. repeat apply conj; try exact I; intros b Hb; try discriminate;
        injection Hb as <-; unfold letter_then_digit;
        first [reflexivity | rewrite Hl; reflexivity].
    + intros y z [= <-] _. unfold letter_then_digit. rewrite Hdl. reflexivity.
Qed.

Lemma letter_digit_keeps_digit_letter s :
  pair_free digit_then_letter s ->
  pair_free digit_then_letter (re_sub re_letter_digit s).
Proof.
  intros Hs.
  destruct (re_sub_scans _ s re_letter_digit_consumes) as (ps & Hscan & ->).
  apply (scans_pair_free digit_then_letter re_letter_digit
           (pair_free digit_then_letter) None s ps); auto.
  - intros a b. apply pair_free_suffix.
  - intros prev c s' z [Hc _] _ Hz. apply Hc. exact Hz.
  - intros prev s' r rest Hfree Hm.
    apply re_letter_digit_Some in Hm as (l & d & -> & -> & Hl & Hd).
    destruct (letter_facts l Hl) as (_ & _ & Hld & _).
    repeat apply conj; try discriminate; try reflexivity.
    + simpl. repeat apply conj; try exact I; intros b Hb; try discriminate;
        injection Hb as <-; unfold digit_then_letter;
        first [reflexivity | rewrite Hld; reflexivity].
    + intros y z [= <-] Hz. destruct Hfree as [_ [Hdz _]]. apply Hdz. exact Hz.
Qed.

(** *** Single spaces *)

(** Every whitespace character is a space and is followed by something
    else. *)
Fixpoint single_spaced (s : text) : Prop :=
  match s with
  | c :: s' =>
    (is_space c = true ->
     c = " "%char /\ forall z, head s' = Some z -> is_space z = false)
    /\ single_spaced s'
  | [] => True
  end.

Lemma scans_nil_inv {A} (m : matcher A) prev ps : scans m prev [] ps -> ps = [].
Proof.
  intros H. remember [] as s eqn:Hs.
  destruct H as [|prev c s ps Hnone H|prev t rest r ps Ht Hmatch H];
    [reflexivity|discriminate|].
  apply app_eq_nil in Hs as [-> _]. contradiction.
Qed.

Lemma scans_spaces_head prev s ps c :
  scans re_spaces prev s ps -> head s = Some c -> is_space c = false ->
  head (concat (map piece_text ps)) = Some c.
Proof.
  intros Hscan Hc Hns.
  destruct Hscan as [|prev c' s ps Hnone Hscan|prev t rest r ps Ht Hmatch Hscan];
    simpl in *; [discriminate|exact Hc|].
  apply re_spaces_Some in Hmatch as (c' & s' & Heq & Hsp & _).
  rewrite Heq in Hc. simpl in Hc. injection Hc as ->. congruence.
Qed.

Lemma spaces_collapsed s : single_spaced (re_sub re_spaces s).
Proof.
  destruct (re_sub_scans _ s re_spaces_consumes) as (ps & Hscan & ->).
  induction Hscan as [|prev c s ps Hnone Hscan IH
                     |prev t rest r ps Ht Hmatch Hscan IH]; simpl.
  - exact I.
  - split; [|exact IH]. intros Hc. unfold re_spaces in Hnone.
    rewrite Hc in Hnone. discriminate.
  - apply re_spaces_Some in Hmatch as (c & s' & Heq & Hc & -> & Hrest).
    simpl. split; [|exact IH]. intros _. split; [reflexivity|].
    intros z Hz. destruct rest as [|c2 rest'].
    + apply scans_nil_inv in Hscan. subst ps. discriminate.
    + assert (Hc2 : is_space c2 = false).
      { apply (drop_while_head is_space s'). rewrite <- Hrest. reflexivity. }
      rewrite (scans_spaces_head _ _ _ c2 Hscan eq_refl Hc2) in Hz.
      injection Hz as <-. exact Hc2.
Qed.

Lemma single_spaced_scan s prev :
  single_spaced s -> concat (map piece_text (re_scan_from re_spaces 0 prev s)) = s.
Proof.
  revert prev. induction s as [|c s IH]; intros prev; simpl; [reflexivity|].
  intros [Hc Hs]. destruct (is_space c) eqn:Hsp.
  - destruct (Hc eq_refl) as [-> Hz].
    rewrite (drop_while_fix is_space s Hz), Nat.sub_diag. simpl.
    f_equal. apply IH. exact Hs.
  - simpl. f_equal. apply IH. exact Hs.
Qed.

Lemma re_sub_single_spaced s : single_spaced s -> re_sub re_spaces s = s.
Proof. apply single_spaced_scan. Qed.

Lemma single_spaced_suffix a b : single_spaced (a ++ b) -> single_spaced b.
Proof.
  induction a as [|c a IH]; simpl; [auto|]. intros [_ H]. exact (IH H).
Qed.

Lemma single_spaced_prefix a b : single_spaced (a ++ b) -> single_spaced a.
Proof.
  induction a as [|c a IH]; simpl; [auto|]. intros [Hc H].
  split; [|exact (IH H)].
  intros Hsp. destruct (Hc Hsp) as [-> Hz]. split; [reflexivity|].
  intros z Ha. apply Hz. destruct a; [discriminate|exact Ha].
Qed.

Lemma single_spaced_strip s : single_spaced s -> single_spaced (strip s).
Proof.
  intros H. destruct (strip_infix s) as (a & b & Heq). rewrite Heq in H.
  apply single_spaced_suffix in H. apply single_spaced_prefix in H. exact H.
Qed.

End NormalizerInvariants.

(** *** Patterns told by their first characters *)

Section Windows.

Variable C : ascii -> bool.
Variable bad : matcher text.
Hypothesis bad_window : forall prev s,
  bad prev s <> None ->
  exists q, q <> [] /\ Forall (fun c => C c = true) q /\ q `prefix_of` s
            /\ forall prev' s', q `prefix_of` s' -> bad prev' s' <> None.

Lemma never_prefix a b : never bad (a ++ b) -> never bad a.
Proof.
  intros H pre post prev ->.
  destruct (bad prev post) as [x|] eqn:Hb; [|reflexivity].
  destruct (bad_window prev post) as (q & _ & _ & Hpre & Hall); [congruence|].
  exfalso. apply (Hall prev (post ++ b)).
  - apply prefix_app_r. exact Hpre.
  - apply (H pre (post ++ b) prev). rewrite app_assoc. reflexivity.
Qed.

Lemma never_strip s : never bad s -> never bad (strip s).
Proof.
  intros H. destruct (strip_infix s) as (a & b & Heq). rewrite Heq in H.
  apply never_suffix in H. apply never_prefix in H. exact H.
Qed.

End Windows.

Section NormalizerIdempotence.

Import DutchDiatheke.

Lemma re_punct_window prev s :
  re_punct prev s <> None ->
  exists q, q <> [] /\ Forall (fun c => punct_part c = true) q
            /\ q `prefix_of` s
            /\ forall prev' s', q `prefix_of` s' -> re_punct prev' s' <> None.
Proof.
  unfold re_punct. destruct s as [|c s]; [congruence|].
  destruct (punct_class c) eqn:Hc; [|congruence].
  destruct (match_lit (str "{}]") s) as [rest|] eqn:Hlit; [|congruence].
  intros _. apply match_lit_Some in Hlit. subst s.
  exists (c :: str "{}]"). repeat apply conj.
  - discriminate.
  - constructor; [unfold punct_part; rewrite Hc; reflexivity|].
    repeat constructor.
  - exists rest. reflexivity.
  - intros prev' s' [k ->]. simpl. rewrite Hc. discriminate.
Qed.

Lemma re_digit_letter_window prev s :
  re_digit_letter prev s <> None ->
  exists q, q <> [] /\ Forall (fun c => digit_or_letter c = true) q
            /\ q `prefix_of` s
            /\ forall prev' s', q `prefix_of` s' ->
                                re_digit_letter prev' s' <> None.
Proof.
  destruct (re_digit_letter prev s) as [[r rest]|] eqn:Hm; [|congruence].
  intros _. apply re_digit_letter_Some in Hm as (d & l & -> & _ & Hd & Hl).
  exists [d; l]. repeat apply conj.
  - discriminate.
  - unfold digit_or_letter. repeat constructor; [rewrite Hd|rewrite Hl];
      auto using orb_true_r.
  - exists rest. reflexivity.
  - intros prev' s' [k ->]. simpl. rewrite Hd, Hl. discriminate.
Qed.

Lemma re_letter_digit_window prev s :
  re_letter_digit prev s <> None ->
  exists q, q <> [] /\ Forall (fun c => digit_or_letter c = true) q
            /\ q `prefix_of` s
            /\ forall prev' s', q `prefix_of` s' ->
                                re_letter_digit prev' s' <> None.
Proof.
  destruct (re_letter_digit prev s) as [[r rest]|] eqn:Hm; [|congruence].
  intros _. apply re_letter_digit_Some in Hm as (l & d & -> & _ & Hl & Hd).
  exists [l; d]. repeat apply conj.
  - discriminate.
  - unfold digit_or_letter. repeat constructor; [rewrite Hl|rewrite Hd];
      auto using orb_true_r.
  - exists rest. reflexivity.
  - intros prev' s' [k ->]. simpl. rewrite Hd, Hl. discriminate.
Qed.

(** What each step puts into the string is outside the punctuation
    pattern. *)
Lemma re_punct_outside prev s r rest :
  re_punct prev s = Some (r, rest) ->
  r <> [] /\ Forall (fun c => punct_part c = false) r.
Proof.
  unfold re_punct. destruct s as [|c s]; [discriminate|].
  destruct (punct_class c); [|discriminate].
  destruct (match_lit (str "{}]") s); [|discriminate].
  intros [= <- <-]. split; [discriminate|]. repeat constructor.
Qed.

Lemma re_roman_outside ra prev s r rest :
  numeral_ok ra -> re_roman ra.1 ra.2 prev s = Some (r, rest) ->
  r <> [] /\ Forall (fun c => punct_part c = false) r.
Proof.
  intros (_ & Hne & Hdigits & _) Hm.
  apply re_roman_Some in Hm as (-> & _). split; [exact Hne|].
  eapply Forall_impl; [exact Hdigits|].
  intros c Hc. simpl in Hc. apply digit_facts in Hc. tauto.
Qed.

Lemma re_digit_letter_outside prev s r rest :
  re_digit_letter prev s = Some (r, rest) ->
  r <> [] /\ Forall (fun c => punct_part c = false) r.
Proof.
  intros Hm. apply re_digit_letter_Some in Hm as (d & l & _ & -> & Hd & Hl).
  apply digit_facts in Hd. apply letter_facts in Hl.
  split; [discriminate|]. repeat constructor; tauto.
Qed.

Lemma re_letter_digit_outside prev s r rest :
  re_letter_digit prev s = Some (r, rest) ->
  r <> [] /\ Forall (fun c => punct_part c = false) r.
Proof.
  intros Hm. apply re_letter_digit_Some in Hm as (l & d & _ & -> & Hl & Hd).
  apply digit_facts in Hd. apply letter_facts in Hl.
  split; [discriminate|]. repeat constructor; tauto.
Qed.

Lemma re_spaces_outside (C : ascii -> bool) prev s r rest :
  C " "%char = false ->
  re_spaces prev s = Some (r, rest) ->
  r <> [] /\ Forall (fun c => C c = false) r.
Proof.
  intros HC Hm. apply re_spaces_Some in Hm as (c & s' & _ & _ & -> & _).
  split; [discriminate|]. repeat constructor. exact HC.
Qed.

(** After its step the punctuation pattern matches nowhere. *)
Lemma punct_removed s : never re_punct (re_sub re_punct s).
Proof.
  destruct (re_sub_scans _ s re_punct_consumes) as (ps & Hscan & ->).
  apply (scans_window_free re_punct punct_part re_punct_outside
           re_punct re_punct_window (fun _ => True) None s ps); auto.
Qed.

(** The same holds after every later step. *)
Lemma punct_stays_removed (m : matcher text) s :
  consumes m ->
  (forall prev s r rest, m prev s = Some (r, rest) ->
     r <> [] /\ Forall (fun c => punct_part c = false) r) ->
  never re_punct s -> never re_punct (re_sub m s).
Proof.
  intros Hm Hout. apply (re_sub_never_preserved m Hm punct_part Hout re_punct
                           re_punct_window).
  intros prev prev' s0 H. exact H.
Qed.

(** *** Roman numerals that stand alone *)

(** [w] occurs in [s] with no word character directly before or after
    it; [prev] is the character before [s]. *)
Fixpoint stands_alone (w : text) (prev : option ascii) (s : text) : bool :=
  (negb (is_word_opt prev)
   && match match_lit w s with
      | Some rest => negb (is_word_opt (head rest))
      | None => false
      end)
  || match s with
     | [] => false
     | c :: s' => stands_alone w (Some c) s'
     end.

Definition has_roman_word (s : text) : bool :=
  existsb (fun ra : text * text => stands_alone ra.1 None s) roman_map.

Lemma stands_alone_never ra prev s :
  numeral_ok ra -> stands_alone ra.1 prev s = false ->
  re_scan_from (re_roman ra.1 ra.2) 0 prev s = map Kept s.
Proof.
  intros (Hne & _ & _ & (h & Hh & Hhw) & (l & Hl & Hlw)).
  revert prev. induction s as [|c s IH]; intros prev Hs; [reflexivity|].
  cbn [stands_alone] in Hs. apply orb_false_iff in Hs as [Hhere Hs].
  cbn [re_scan_from].
  assert (Hnone : re_roman ra.1 ra.2 prev (c :: s) = None).
  { unfold re_roman.
    destruct (match_lit ra.1 (c :: s)) as [rest|] eqn:Hlit.
    - assert (Hc : is_word c = true).
      { apply match_lit_Some in Hlit. destruct ra.1 as [|c' w'];
          [contradiction|].
        simpl in Hlit, Hh. injection Hlit as <- _. injection Hh as <-.
        exact Hhw. }
      rewrite Hl. unfold word_boundary. simpl. rewrite Hc, Hlw.
      destruct (is_word_opt prev), (is_word_opt (head rest)); simpl in *;
        try reflexivity; discriminate.
    - destruct (word_boundary prev (head (c :: s))); reflexivity. }
  rewrite Hnone. cbn [map]. f_equal. apply IH. exact Hs.
Qed.

Lemma roman_to_arabic_fix s :
  has_roman_word s = false -> roman_to_arabic s = s.
Proof.
  unfold has_roman_word, roman_to_arabic.
  pose proof roman_map_ok as Hok.
  induction roman_map as [|ra l IH]; simpl; [reflexivity|].
  apply Forall_cons in Hok as [Hra Hok].
  intros H. apply orb_false_iff in H as [Hhere H].
  replace (re_sub (re_roman ra.1 ra.2) s) with s; [exact (IH Hok H)|].
  unfold re_sub, re_scan. rewrite (stands_alone_never ra None s Hra Hhere).
  symmetry. apply concat_kept.
Qed.

(** *** The normalized key *)

(** What holds of every key [normalize_text] returns. *)
Record normal (y : text) : Prop := {
  normal_settled : Forall settled y;
  normal_punct : never re_punct y;
  normal_digit_letter : never re_digit_letter y;
  normal_letter_digit : never re_letter_digit y;
  normal_spaces : single_spaced y;
  normal_ends : strip y = y;
}.

Lemma map_settled (f : ascii -> ascii) s :
  (forall c, settled c -> f c = c) -> Forall settled s -> map f s = s.
Proof.
  intros Hf. induction 1 as [|c s Hc _ IH]; simpl; [reflexivity|].
  rewrite (Hf c Hc), IH. reflexivity.
Qed.

Lemma normalize_text_normal x : normal (normalize_text x).
Proof.
  unfold normalize_text.
  set (s0 := lower (map strip_accent x)).
  set (s1 := re_sub re_punct s0).
  set (s2 := roman_to_arabic s1).
  set (s3 := re_sub re_digit_letter s2).
  set (s4 := re_sub re_letter_digit s3).
  set (s5 := re_sub re_spaces s4).
  split.
  - (* characters *)
    apply strip_Forall.
    assert (H0 : Forall settled s0).
    { unfold s0, lower. rewrite map_map. apply Forall_map, Forall_forall.
      intros c _. apply lower_strip_accent_settled. }
    assert (H1 : Forall settled s1).
    { apply (re_sub_Forall _ re_punct_consumes); [|exact H0].
      intros prev s r rest _ Hm. unfold re_punct in Hm. destruct s as [|c s]; [discriminate|].
      destruct (punct_class c); [|discriminate].
      destruct (match_lit (str "{}]") s); [|discriminate].
      injection Hm as <- _. repeat constructor. }
    assert (H2 : Forall settled s2).
    { apply roman_to_arabic_keeps; [|exact H1].
      intros ra s Hra Hs.
      apply (re_sub_Forall _ (re_roman_consumes _ _ (proj1 Hra))); [|exact Hs].
      intros prev s' r rest _ Hm. apply re_roman_Some in Hm as (-> & _).
      destruct Hra as (_ & _ & Hd & _).
      eapply Forall_impl; [exact Hd|]. intros c Hc. simpl in Hc.
      apply digit_facts in Hc. tauto. }
    assert (H3 : Forall settled s3).
    { apply (re_sub_Forall _ re_digit_letter_consumes); [|exact H2].
      intros prev s r rest Hs Hm.
      apply re_digit_letter_Some in Hm as (d & l & -> & -> & _).
      apply Forall_cons in Hs as [Hd Hs]. apply Forall_cons in Hs as [Hl _].
      constructor; [exact Hd|]. constructor; [split; reflexivity|].
      constructor; [exact Hl|constructor]. }
    assert (H4 : Forall settled s4).
    { apply (re_sub_Forall _ re_letter_digit_consumes); [|exact H3].
      intros prev s r rest Hs Hm.
      apply re_letter_digit_Some in Hm as (l & d & -> & -> & _).
      apply Forall_cons in Hs as [Hl Hs]. apply Forall_cons in Hs as [Hd _].
      constructor; [exact Hl|]. constructor; [split; reflexivity|].
      constructor; [exact Hd|constructor]. }
    apply (re_sub_Forall _ re_spaces_consumes); [|exact H4].
    intros prev s r rest _ Hm.
    apply re_spaces_Some in Hm as (c & s' & _ & _ & -> & _).
    repeat constructor.
  - (* punctuation *)
    apply (never_strip punct_part re_punct re_punct_window).
    apply (punct_stays_removed _ _ re_spaces_consumes);
      [intros prev s r rest; apply re_spaces_outside; reflexivity|].
    apply (punct_stays_removed _ _ re_letter_digit_consumes
             re_letter_digit_outside).
    apply (punct_stays_removed _ _ re_digit_letter_consumes
             re_digit_letter_outside).
    apply roman_to_arabic_keeps; [|apply punct_removed].
    intros ra s Hra Hs.
    apply (punct_stays_removed _ _ (re_roman_consumes _ _ (proj1 Hra)));
      [|exact Hs].
    intros prev s' r rest. apply re_roman_outside. exact Hra.
  - (* digit, letter *)
    apply (never_strip digit_or_letter re_digit_letter re_digit_letter_window).
    apply (re_sub_never_preserved _ re_spaces_consumes digit_or_letter
             (fun prev s r rest => re_spaces_outside digit_or_letter prev s r
                                     rest eq_refl)
             re_digit_letter re_digit_letter_window);
      [intros prev prev' s H; exact H|].
    apply pair_free_never_digit_letter, letter_digit_keeps_digit_letter,
      digit_letter_spaced.
  - (* letter, digit *)
    apply (never_strip digit_or_letter re_letter_digit re_letter_digit_window).
    apply (re_sub_never_preserved _ re_spaces_consumes digit_or_letter
             (fun prev s r rest => re_spaces_outside digit_or_letter prev s r
                                     rest eq_refl)
             re_letter_digit re_letter_digit_window);
      [intros prev prev' s H; exact H|].
    apply pair_free_never_letter_digit, letter_digit_spaced.
  - apply single_spaced_strip, spaces_collapsed.
  - apply strip_idempotent.
Qed.

(** A normal key without a Roman numeral standing alone is its own
    normalization. *)
Lemma normalize_text_fix y :
  normal y -> has_roman_word y = false -> normalize_text y = y.
Proof.
  intros [Hset Hp Hdl Hld Hsp Hends] Hroman. unfold normalize_text.
  rewrite (map_settled strip_accent y) by (intros c [H _]; exact H) || exact Hset.
  unfold lower.
  rewrite (map_settled lower_char y) by (intros c [_ H]; exact H) || exact Hset.
  rewrite (re_sub_never _ _ Hp), (roman_to_arabic_fix _ Hroman),
    (re_sub_never _ _ Hdl), (re_sub_never _ _ Hld),
    (re_sub_single_spaced _ Hsp).
  exact Hends.
Qed.

(** C1, as amended: [normalize_text] is idempotent on every input whose
    key holds no Roman numeral i, ii, iii, iv, v or vi standing alone,
    that is with no word character directly before or after it. *)
Theorem normalize_text_idempotent_without_roman_word (x : text) :
  has_roman_word (normalize_text x) = false ->
  normalize_text (normalize_text x) = normalize_text x.
Proof. apply normalize_text_fix, normalize_text_normal. Qed.

Lemma normalize_text_idempotent_witness :
  has_roman_word (normalize_text (str "II Kor. 13:4-7")) = false
  /\ normalize_text (normalize_text (str "II Kor. 13:4-7"))
     = normalize_text (str "II Kor. 13:4-7").
Proof.
  split; [vm_compute; reflexivity|].
  apply normalize_text_idempotent_without_roman_word.
  vm_compute. reflexivity.
Defined.

End NormalizerIdempotence.

(** ** The book matcher *)

Section Tokens.

Import DutchDiatheke.

(** A token of [str.split()]: not empty and without whitespace. *)
Definition token (t : text) : Prop :=
  t <> [] /\ Forall (fun c => is_space c = false) t.

Lemma split_ws_from_tokens cur s :
  Forall (fun c => is_space c = false) cur ->
  Forall token (split_ws_from cur s).
Proof.
  revert cur. induction s as [|c s IH]; intros cur Hcur; simpl.
  - destruct cur as [|c' cur]; [constructor|].
    repeat constructor.
    + intros H. apply (f_equal length) in H. rewrite length_reverse in H.
      discriminate.
    + apply Forall_reverse. exact Hcur.
  - destruct (is_space c) eqn:Hc.
    + destruct cur as [|c' cur]; [apply IH; constructor|].
      constructor; [|apply IH; constructor].
      split; [|apply Forall_reverse; exact Hcur].
      intros H. apply (f_equal length) in H. rewrite length_reverse in H.
      discriminate.
    + apply IH. constructor; assumption.
Qed.

Lemma split_ws_tokens s : Forall token (split_ws s).
Proof. apply split_ws_from_tokens. constructor. Qed.

Lemma join_head sep t ts : t <> [] -> head (join sep (t :: ts)) = head t.
Proof.
  intros Ht. destruct t as [|c t]; [contradiction|].
  destruct ts; reflexivity.
Qed.

Lemma join_last sep ts c :
  Forall (fun t => t <> []) ts -> last (join sep ts) = Some c ->
  exists t, last ts = Some t /\ last t = Some c.
Proof.
  induction ts as [|t ts IH]; intros Hne; [discriminate|].
  apply Forall_cons in Hne as [Ht Hne].
  destruct ts as [|t' ts].
  - simpl. intros H. exists t. auto.
  - change (join sep (t :: t' :: ts)) with (t ++ sep ++ join sep (t' :: ts)).
    assert (Hj : join sep (t' :: ts) <> []).
    { apply Forall_cons in Hne as [Ht' _]. destruct t' as [|c' t'];
        [contradiction|]. destruct ts; discriminate. }
    rewrite !app_assoc, last_app.
    destruct (last (join sep (t' :: ts))) as [c'|] eqn:Hl.
    + intros [= ->]. destruct (IH Hne eq_refl) as (t0 & Ht0 & Hc).
      exists t0. rewrite last_cons_cons. auto.
    + apply last_None in Hl. contradiction.
Qed.

(** Tokens joined with single spaces have nothing to strip. *)
Lemma strip_join_tokens ts :
  Forall token ts -> strip (join (str " ") ts) = join (str " ") ts.
Proof.
  intros Hts. destruct ts as [|t ts]; [reflexivity|].
  apply strip_fix.
  - intros c Hc. apply Forall_cons in Hts as [[Hne Ht] _].
    rewrite join_head in Hc by exact Hne.
    destruct t as [|c' t]; [contradiction|]. simpl in Hc. injection Hc as <-.
    apply Forall_cons in Ht as [Hc _]. exact Hc.
  - intros c Hc. apply join_last in Hc as (t0 & Ht0 & Hc).
    + apply last_Some_elem_of in Ht0. rewrite Forall_forall in Hts.
      destruct (Hts t0 Ht0) as [_ Hfree]. rewrite Forall_forall in Hfree.
      apply Hfree. apply last_Some_elem_of. exact Hc.
    + eapply Forall_impl; [exact Hts|]. intros t' [H _]. exact H.
Qed.

Lemma drop_while_nil p s : drop_while p s = [] -> Forall (fun c => p c = true) s.
Proof.
  induction s as [|c s IH]; simpl; [constructor|].
  destruct (p c) eqn:Hc; [|discriminate]. intros H. constructor; auto.
Qed.

Lemma strip_nil s : strip s = [] -> Forall (fun c => is_space c = true) s.
Proof.
  unfold strip. intros H. apply (f_equal reverse) in H.
  rewrite reverse_involutive in H. simpl in H.
  apply drop_while_nil in H. apply Forall_reverse in H.
  rewrite reverse_involutive in H.
  destruct (drop_while is_space s) as [|c u] eqn:Hu.
  - apply drop_while_nil. exact Hu.
  - apply Forall_cons in H as [Hc _].
    rewrite (drop_while_head is_space s c) in Hc; [discriminate|].
    rewrite Hu. reflexivity.
Qed.

(** A blank reference has no token. *)
Lemma normalize_text_blank s : strip s = [] -> normalize_text s = [].
Proof.
  intros H. apply strip_nil in H. unfold normalize_text. apply strip_blank.
  set (P := fun c => is_space c = true).
  assert (H0 : Forall P (lower (map strip_accent s))).
  { unfold lower. rewrite map_map. apply Forall_map.
    eapply Forall_impl; [exact H|]. intros c Hc. simpl.
    destruct (space_facts c Hc) as ([Ha Hl] & _). unfold P.
    rewrite Ha, Hl. exact Hc. }
  apply (re_sub_Forall _ re_spaces_consumes).
  { intros prev s' r rest _ Hm.
    apply re_spaces_Some in Hm as (c & s'' & _ & _ & -> & _).
    repeat constructor. }
  apply (re_sub_Forall _ re_letter_digit_consumes).
  { intros prev s' r rest Hs Hm.
    apply re_letter_digit_Some in Hm as (l & d & -> & -> & _).
    apply Forall_cons in Hs as [Hl Hs]. apply Forall_cons in Hs as [Hd _].
    constructor; [exact Hl|]. constructor; [reflexivity|].
    constructor; [exact Hd|constructor]. }
  apply (re_sub_Forall _ re_digit_letter_consumes).
  { intros prev s' r rest Hs Hm.
    apply re_digit_letter_Some in Hm as (d & l & -> & -> & _).
    apply Forall_cons in Hs as [Hd Hs]. apply Forall_cons in Hs as [Hl _].
    constructor; [exact Hd|]. constructor; [reflexivity|].
    constructor; [exact Hl|constructor]. }
  apply roman_to_arabic_keeps.
  { intros ra s' Hra Hs.
    apply (re_sub_Forall _ (re_roman_consumes _ _ (proj1 Hra))); [|exact Hs].
    intros prev s'' r rest Hs'' Hm. exfalso.
    apply re_roman_Some in Hm as (_ & -> & _).
    destruct Hra as (_ & _ & _ & (h & Hh & Hhw) & _).
    destruct ra.1 as [|c w]; [discriminate|]. simpl in Hh. injection Hh as ->.
    apply Forall_cons in Hs'' as [Hsp _].
    destruct (space_facts h Hsp) as (_ & _ & _ & Hw). congruence. }
  apply (re_sub_Forall _ re_punct_consumes); [|exact H0].
  intros prev s' r rest _ Hm. unfold re_punct in Hm.
  destruct s' as [|c s']; [discriminate|].
  destruct (punct_class c); [|discriminate].
  destruct (match_lit (str "{}]") s'); [|discriminate].
  injection Hm as <- _. repeat constructor.
Qed.

End Tokens.

Section LongestPrefix.

Import DutchDiatheke.

Variable mapping : gmap text text.

(** The first [i] tokens joined with spaces, and whether they are an
    alias, with or without the spaces. *)
Definition spaced (tokens : list text) (i : nat) : text :=
  join (str " ") (take i tokens).

Definition is_alias (tokens : list text) (i : nat) : bool :=
  has_key mapping (spaced tokens i)
  || has_key mapping (remove_spaces (spaced tokens i)).

(** The key a prefix is found under: the spaced form if it is one. *)
Definition alias_key (tokens : list text) (i : nat) : text :=
  if has_key mapping (spaced tokens i) then spaced tokens i
  else remove_spaces (spaced tokens i).

(** What [parse_reference] returns for a book and the text left after
    its name. *)
Definition canonical (english_book rest : text) : text :=
  if bool_decide (rest = []) then english_book
  else if negb (contains (str ":") rest)
          && bool_decide (english_book ∈ single_chapter_books)
  then english_book ++ str " 1:" ++ rest
  else english_book ++ str " " ++ rest.

Lemma find_book_longest tokens n i :
  1 <= i <= n -> is_alias tokens i = true ->
  (forall j, i < j <= n -> is_alias tokens j = false) ->
  find_book mapping tokens n
  = (alias_key tokens i, join (str " ") (drop i tokens)).
Proof.
  intros Hi Halias Hlonger. induction n as [|n IH]; [lia|].
  destruct (decide (i = S n)) as [->|Hne].
  - cbn [find_book]. unfold alias_key, is_alias, spaced in *.
    destruct (has_key mapping (join (str " ") (take (S n) tokens)));
      [reflexivity|].
    simpl in Halias. rewrite Halias. reflexivity.
  - cbn [find_book].
    pose proof (Hlonger (S n) ltac:(lia)) as Hn.
    unfold is_alias, spaced in Hn. apply orb_false_iff in Hn as [-> ->].
    apply IH; [lia|]. intros j Hj. apply Hlonger. lia.
Qed.

Lemma find_book_none tokens n :
  (forall j, 1 <= j <= n -> is_alias tokens j = false) ->
  find_book mapping tokens n = ([], []).
Proof.
  induction n as [|n IH]; intros Hnone; [reflexivity|].
  cbn [find_book].
  pose proof (Hnone (S n) ltac:(lia)) as Hn.
  unfold is_alias, spaced in Hn. apply orb_false_iff in Hn as [-> ->].
  apply IH. intros j Hj. apply Hnone. lia.
Qed.

Lemma alias_key_lookup tokens i :
  is_alias tokens i = true -> is_Some (mapping !! alias_key tokens i).
Proof.
  unfold is_alias, alias_key.
  destruct (has_key mapping (spaced tokens i)) eqn:H1; simpl.
  - intros _. apply bool_decide_eq_true in H1. exact H1.
  - intros H2. apply bool_decide_eq_true in H2. exact H2.
Qed.

Lemma parse_reference_in_longest reference tokens i :
  split_ws (normalize_text reference) = tokens ->
  1 <= i <= length tokens -> is_alias tokens i = true ->
  (forall j, i < j <= length tokens -> is_alias tokens j = false) ->
  exists english_book,
    mapping !! alias_key tokens i = Some english_book
    /\ parse_reference_in mapping reference
       = Ok (canonical english_book (join (str " ") (drop i tokens))).
Proof.
  intros Htokens_eq Hi Halias Hlonger.
  assert (Htokens : Forall token tokens)
    by (rewrite <- Htokens_eq; apply split_ws_tokens).
  destruct (alias_key_lookup tokens i Halias) as [english Hlook].
  exists english. split; [exact Hlook|].
  unfold parse_reference_in. rewrite Htokens_eq.
  destruct (bool_decide (strip reference = [])) eqn:Hblank.
  { apply bool_decide_eq_true in Hblank. apply normalize_text_blank in Hblank.
    rewrite Hblank in Htokens_eq. subst tokens. simpl in Hi. lia. }
  clear Htokens_eq Hblank.
  destruct tokens as [|first rest_tokens] eqn:Htok; [simpl in Hi; lia|].
  rewrite <- Htok in *.
  rewrite (find_book_longest tokens (length tokens) i Hi Halias Hlonger).
  assert (Hkey : alias_key tokens i <> []).
  { intros Hnil. rewrite Hnil in Hlook.
    unfold alias_key, spaced in Hnil.
    destruct (take i tokens) as [|t ts] eqn:Htake.
    - apply (f_equal length) in Htake. rewrite length_take in Htake.
      simpl in Htake. lia.
    - assert (Ht : token t).
      { rewrite Forall_forall in Htokens. apply Htokens.
        rewrite <- (take_drop i tokens), Htake.
        apply elem_of_app. left. apply elem_of_cons. auto. }
      destruct Ht as [Hne Hfree]. destruct t as [|c t]; [contradiction|].
      apply Forall_cons in Hfree as [Hc _].
      assert (Hspace : c <> " "%char) by (intros ->; discriminate).
      destruct (has_key mapping (join (str " ") ((c :: t) :: ts))).
      + destruct ts; discriminate.
      + unfold remove_spaces in Hnil.
        assert (Hin : c ∈ filter (fun c => c <> " "%char)
                          (join (str " ") ((c :: t) :: ts))).
        { apply list_elem_of_filter. split; [exact Hspace|].
          destruct ts; apply elem_of_cons; auto. }
        rewrite Hnil in Hin. apply elem_of_nil in Hin. contradiction. }
  rewrite bool_decide_eq_false_2 by exact Hkey.
  rewrite Hlook.
  assert (Hstrip : strip (join (str " ") (drop i tokens))
                   = join (str " ") (drop i tokens)).
  { apply strip_join_tokens. apply Forall_drop. exact Htokens. }
  unfold canonical. rewrite Hstrip.
  destruct (bool_decide (join (str " ") (drop i tokens) = [])) eqn:Hrest;
    [reflexivity|].
  change (negb false) with true. rewrite andb_true_r.
  destruct (_ && _); reflexivity.
Qed.

Lemma parse_reference_in_unknown reference first rest_tokens :
  split_ws (normalize_text reference) = first :: rest_tokens ->
  (forall j, 1 <= j <= length (first :: rest_tokens) ->
             is_alias (first :: rest_tokens) j = false) ->
  parse_reference_in mapping reference
  = Raise (ValueError (str "Unknown Bible book: '" ++ first ++ str "'")).
Proof.
  intros Htok Hnone. unfold parse_reference_in.
  destruct (bool_decide (strip reference = [])) eqn:Hblank.
  { apply bool_decide_eq_true in Hblank. apply normalize_text_blank in Hblank.
    rewrite Hblank in Htok. discriminate. }
  rewrite Htok. rewrite (find_book_none _ _ Hnone). reflexivity.
Qed.

End LongestPrefix.

Section BookMatcher.

Import DutchDiatheke.

(** C3, as amended: [parse_reference] consumes the longest prefix of the
    normalized tokens that is an alias, joined with or without spaces,
    and returns the book of that alias followed by the remaining tokens,
    a remainder without colon being written as chapter 1 for the five
    one-chapter books; a reference with tokens of which no prefix is an
    alias fails with the unknown-book error, and a blank reference with
    the empty-reference error; and ["1 Kor 13:4"] resolves to
    ["1Corinthians 13:4"]. *)
Theorem parse_reference_longest_prefix (include_apocrypha : bool) :
  let mapping := build_book_mapping include_apocrypha in
  (forall reference i,
     let tokens := split_ws (normalize_text reference) in
     1 <= i <= length tokens ->
     is_alias mapping tokens i = true ->
     (forall j, i < j <= length tokens -> is_alias mapping tokens j = false) ->
     exists english_book,
       mapping !! alias_key mapping tokens i = Some english_book
       /\ parse_reference reference include_apocrypha
          = Ok (canonical english_book (join (str " ") (drop i tokens))))
  /\ (forall reference first rest_tokens,
        split_ws (normalize_text reference) = first :: rest_tokens ->
        (forall j, 1 <= j <= length (first :: rest_tokens) ->
                   is_alias mapping (first :: rest_tokens) j = false) ->
        parse_reference reference include_apocrypha
        = Raise (ValueError (str "Unknown Bible book: '" ++ first ++ str "'")))
  /\ (forall reference,
        strip reference = [] ->
        parse_reference reference include_apocrypha
        = Raise (ValueError (str "Empty reference provided")))
  /\ parse_reference (str "1 Kor 13:4") include_apocrypha
     = Ok (str "1Corinthians 13:4").
Proof.
  intros mapping. split; [|split; [|split]].
  - intros reference i tokens. apply parse_reference_in_longest. reflexivity.
  - intros reference first rest_tokens. apply parse_reference_in_unknown.
  - intros reference Hblank. unfold parse_reference, parse_reference_in.
    rewrite bool_decide_eq_true_2 by exact Hblank. reflexivity.
  - destruct include_apocrypha; vm_compute; reflexivity.
Qed.

Lemma parse_reference_longest_prefix_witness :
  let mapping := build_book_mapping false in
  let tokens := split_ws (normalize_text (str "1 Kor 13:4")) in
  tokens = [str "1"; str "kor"; str "13:4"]
  /\ exists english_book,
       mapping !! alias_key mapping tokens 2 = Some english_book
       /\ parse_reference (str "1 Kor 13:4") false
          = Ok (canonical english_book (join (str " ") (drop 2 tokens))).
Proof.
  intros mapping tokens.
  assert (Htokens : tokens = [str "1"; str "kor"; str "13:4"])
    by (vm_compute; reflexivity).
  split; [exact Htokens|].
  apply (proj1 (parse_reference_longest_prefix false) (str "1 Kor 13:4") 2).
  - fold tokens. rewrite Htokens. simpl. lia.
  - vm_compute. reflexivity.
  - intros j Hj. fold tokens in Hj. rewrite Htokens in Hj. simpl in Hj.
    assert (j = 3) as -> by lia. vm_compute. reflexivity.
Defined.

(** C3, counterexample: the book of the longest alias is not always
    followed by the remaining tokens as they are, and a reference without
    any token fails with another error than the unknown-book one. *)
Lemma parse_reference_single_chapter_rewrite :
  split_ws (normalize_text (str "Jude 5")) = [str "jude"; str "5"]
  /\ build_book_mapping false !! str "jude" = Some (str "Jude")
  /\ is_alias (build_book_mapping false) [str "jude"; str "5"] 2 = false
  /\ parse_reference (str "Jude 5") false = Ok (str "Jude 1:5")
  /\ parse_reference (str "Jude 5") false <> Ok (str "Jude" ++ str " " ++ str "5")
  /\ parse_reference [] false
     = Raise (ValueError (str "Empty reference provided")).
Proof.
  repeat apply conj; vm_compute; try reflexivity. discriminate.
Qed.

End BookMatcher.

(** ** Line markers *)

Section TagPatterns.

(** A pattern that looks at nothing before its position and only
    matches at a ['<']. *)
Variable m : matcher text.
Hypothesis m_context : forall prev prev' s, m prev s = m prev' s.
Hypothesis m_tag : forall prev s, m prev s <> None -> head s = Some "<"%char.

Lemma re_scan_from_context k prev prev' s :
  re_scan_from m k prev s = re_scan_from m k prev' s.
Proof.
  revert k prev prev'. induction s as [|c s IH]; intros k prev prev';
    [reflexivity|].
  simpl. destruct k; [|reflexivity].
  rewrite (m_context prev prev'). reflexivity.
Qed.

Lemma re_sub_kept c s :
  m None (c :: s) = None -> re_sub m (c :: s) = c :: re_sub m s.
Proof.
  intros H. unfold re_sub, re_scan. simpl. rewrite H. simpl.
  rewrite (re_scan_from_context 0 (Some c) None). reflexivity.
Qed.

Lemma re_sub_matched t rest r :
  t <> [] -> m None (t ++ rest) = Some (r, rest) ->
  re_sub m (t ++ rest) = r ++ re_sub m rest.
Proof.
  intros Ht H. unfold re_sub, re_scan.
  destruct t as [|c t]; [contradiction|].
  cbn [app re_scan_from]. change (c :: t ++ rest) with ((c :: t) ++ rest).
  rewrite H. rewrite length_app, Nat.add_sub, re_scan_from_skip.
  cbn [map concat]. f_equal. f_equal. f_equal. apply re_scan_from_context.
Qed.

(** Text without ['<'] passes through. *)
Lemma re_sub_text a t :
  Forall (fun c => c <> "<"%char) a -> re_sub m (a ++ t) = a ++ re_sub m t.
Proof.
  induction 1 as [|c a Hc _ IH]; [reflexivity|].
  cbn [app]. rewrite re_sub_kept, IH; [reflexivity|].
  destruct (m None (c :: a ++ t)) eqn:Hm; [|reflexivity].
  assert (Hh : head (c :: a ++ t) = Some "<"%char)
    by (apply (m_tag None); congruence).
  simpl in Hh. congruence.
Qed.

(** Each match puts at most [k] newlines into the string. *)
Definition newlines (s : text) : nat :=
  length (filter (fun c => c = ascii_of_N 10) s).


End TagPatterns.



Section Lines.

Import BibleToFormat.


Lemma split_on_app sep a b :
  split_on sep (a ++ sep :: b) = split_on sep a ++ split_on sep b.
Proof.
  induction a as [|c a IH]; cbn [app split_on].
  - rewrite Ascii.eqb_refl. reflexivity.
  - destruct (Ascii.eqb c sep); [rewrite IH; reflexivity|].
    rewrite IH. destruct (split_on sep a) as [|piece pieces] eqn:Ha.
    + destruct a; simpl in Ha; [discriminate|].
      destruct (Ascii.eqb a sep); [discriminate|].
      destruct (split_on sep a0); discriminate.
    + reflexivity.
Qed.


Lemma clean_lines_break a b :
  clean_lines (a ++ newline ++ b) = clean_lines a ++ clean_lines b.
Proof.
  unfold clean_lines, newline. cbn [app].
  rewrite split_on_app, filter_app, map_app. reflexivity.
Qed.

End Lines.


Section LineMarkers.

Import BibleToFormat.

(** The two markers, with their identifier. *)
Definition end_marker (id : text) : text :=
  str "<l eID=" ++ dq ++ id ++ dq ++ str "/>".

Definition start_marker (id : text) : text :=
  str "<l sID=" ++ dq ++ id ++ dq ++ str "/>".


(** The third substitution after the two on line markers: chapter tags
    in the converter, every remaining tag in the wrapper. *)
Inductive script :=
  | Converter
  | Wrapper.


Definition third (sc : script) : matcher text :=
  match sc with
  | Converter => re_chapter
  | Wrapper => re_tag
  end.

Definition processed (sc : script) (s : text) : text :=
  re_sub (third sc) (re_sub re_l_marker (re_sub re_l_pair s)).


(** *** The patterns *)

Lemma drop_while_stop p a b :
  Forall (fun c => p c = true) a ->
  (forall c, head b = Some c -> p c = false) ->
  drop_while p (a ++ b) = b.
Proof.
  intros Ha Hb. induction Ha as [|c a Hc _ IH]; simpl.
  - apply drop_while_fix. exact Hb.
  - rewrite Hc. exact IH.
Qed.

Lemma take_while_stop p a b :
  Forall (fun c => p c = true) a ->
  (forall c, head b = Some c -> p c = false) ->
  take_while p (a ++ b) = a.
Proof.
  intros Ha Hb. induction Ha as [|c a Hc _ IH]; simpl.
  - destruct b as [|c b]; [reflexivity|]. simpl.
    rewrite (Hb c eq_refl). reflexivity.
  - rewrite Hc, IH. reflexivity.
Qed.
















(** *** The patterns take characters *)














(** *** What the three substitutions do around a marker *)




End LineMarkers.

Section LineItems.

Import BibleToFormat.

(** *** A verse text, piece by piece *)









(** *** Another tag *)




Section Tag.

Variable body : text.
Hypothesis body_ne : body <> [].
Hypothesis body_text :
  Forall (fun c => c <> "<"%char /\ c <> ">"%char) body.
Hypothesis not_start : is_prefix (str "l sID=" ++ dq) body = false.
Hypothesis not_end : is_prefix (str "l eID=" ++ dq) body = false.










End Tag.

(** *** The three substitutions, piece by piece *)





End LineItems.



(** A note between the two markers is taken out before the rule is
    applied: the payload has no end marker that a start marker follows
    and no newline, and the verse has two lines. *)
Definition note_between_markers : text :=
  str "Psalms 1:1: <span>x" ++ end_marker (str "a")
  ++ str "<note type=" ++ dq ++ str "x" ++ dq ++ str "/>"
  ++ start_marker (str "b") ++ str "y</span><br />".

Lemma removed_note_joins_markers :
  BibleToFormat.parse_html_verses note_between_markers false
  = [ {| BibleToFormat.v_book := str "Psalms";
         BibleToFormat.v_chapter := str "1";
         BibleToFormat.v_number := 1;
         BibleToFormat.v_lines := [str "x"; str "y"];
         BibleToFormat.v_smallcaps := false;
         BibleToFormat.v_notes := [] |} ]
  /\ re_findall BibleToFormat.re_l_pair note_between_markers = []
  /\ newlines note_between_markers = 0.
Proof. repeat apply conj; vm_compute; reflexivity. Qed.

(** ** The shape of a key *)

Section KeyShape.

Import DutchDiatheke.

(** A string without whitespace at its ends and with single spaces only
    is its tokens joined by single spaces. *)
Lemma join_split_ws_from cur s :
  single_spaced s ->
  Forall (fun c => is_space c = false) cur ->
  (cur = [] -> forall c, head s = Some c -> is_space c = false) ->
  (forall c, last s = Some c -> is_space c = false) ->
  join (str " ") (split_ws_from cur s) = reverse cur ++ s.
Proof.
  revert cur. induction s as [|c s IH]; intros cur Hs Hcur Hhead Hlast.
  - simpl. destruct cur as [|c' cur]; [reflexivity|].
    rewrite app_nil_r. reflexivity.
  - cbn [split_ws_from]. destruct Hs as [Hc Hs].
    destruct (is_space c) eqn:Hsp.
    + destruct (Hc eq_refl) as [-> Hz].
      destruct cur as [|c' cur].
      { specialize (Hhead eq_refl _ eq_refl). discriminate. }
      destruct s as [|z s].
      { specialize (Hlast _ eq_refl). discriminate. }
      specialize (Hz z eq_refl).
      assert (IH' : join (str " ") (split_ws_from [] (z :: s)) = z :: s).
      { rewrite IH; [reflexivity|exact Hs|constructor| |].
        - intros _ c [= <-]. exact Hz.
        - intros c Hc'. apply Hlast. rewrite last_cons_cons. exact Hc'. }
      destruct (split_ws_from [] (z :: s)) as [|p ps] eqn:Hsplit.
      { discriminate. }
      change (join (str " ") (reverse (c' :: cur) :: p :: ps))
        with (reverse (c' :: cur) ++ str " " ++ join (str " ") (p :: ps)).
      rewrite IH'. reflexivity.
    + rewrite IH.
      * rewrite reverse_cons, <- app_assoc. reflexivity.
      * exact Hs.
      * constructor; assumption.
      * discriminate.
      * intros c' Hc'. apply Hlast. destruct s; [discriminate|].
        rewrite last_cons_cons. exact Hc'.
Qed.

Lemma join_split_ws s :
  single_spaced s -> strip s = s -> join (str " ") (split_ws s) = s.
Proof.
  intros Hs Hstrip. destruct (strip_ends s) as [Hh Hl].
  rewrite Hstrip in Hh, Hl.
  unfold split_ws. rewrite join_split_ws_from; auto.
Qed.

(** X1: a key is made of characters that are already lower case and
    without accent; it is its own tokens joined by single spaces, so it
    has no whitespace at its ends and no whitespace but single spaces;
    and no digit in it stands next to a letter a-z. *)
Theorem normalize_text_key_shape (x : text) :
  Forall (fun c => strip_accent c = c /\ lower_char c = c) (normalize_text x)
  /\ join (str " ") (split_ws (normalize_text x)) = normalize_text x
  /\ (forall pre a b post,
        normalize_text x = pre ++ a :: b :: post ->
        is_digit a && is_az b = false /\ is_az a && is_digit b = false).
Proof.
  destruct (normalize_text_normal x) as [Hset _ Hdl Hld Hsp Hends].
  split; [exact Hset|]. split; [apply join_split_ws; assumption|].
  intros pre a b post Heq. split.
  - specialize (Hdl pre (a :: b :: post) None Heq). unfold re_digit_letter in Hdl.
    destruct (is_digit a && is_az b); [discriminate Hdl|reflexivity].
  - specialize (Hld pre (a :: b :: post) None Heq). unfold re_letter_digit in Hld.
    destruct (is_az a && is_digit b); [discriminate Hld|reflexivity].
Qed.

(** X2: for a reference of characters up to U+00FF, where [str.lower]
    works character by character, the key does not depend on case or
    accents: the reference written in lower case, or without its
    accents, has the key of the reference as it was written. *)
Theorem normalize_text_case_accent_insensitive (x : text) :
  normalize_text (lower x) = normalize_text x
  /\ normalize_text (map strip_accent x) = normalize_text x.
Proof.
  assert (Hl : forall c, lower_char (strip_accent (lower_char c))
                         = lower_char (strip_accent c)).
  { intros c. apply Ascii.eqb_eq. revert c. apply ascii_forallb.
    vm_compute. reflexivity. }
  assert (Ha : forall c, strip_accent (strip_accent c) = strip_accent c).
  { intros c. apply Ascii.eqb_eq. revert c. apply ascii_forallb.
    vm_compute. reflexivity. }
  unfold normalize_text, lower. split.
  - rewrite !map_map. rewrite (map_ext _ _ Hl). reflexivity.
  - rewrite !map_map.
    rewrite (map_ext (fun c => lower_char (strip_accent (strip_accent c)))
                     (fun c => lower_char (strip_accent c)));
      [reflexivity|]. intros c. rewrite Ha. reflexivity.
Qed.

End KeyShape.

(** ** The alias tables *)

Section Aliases.

Import DutchDiatheke.

(** The table [build_book_mapping] starts from. *)
Definition alias_table (include_apocrypha : bool) : list (text * text) :=
  if include_apocrypha then dict_update CANONICAL_BOOKS APOCRYPHAL_BOOKS
  else CANONICAL_BOOKS.

(** An alias is found under the three keys made from it and resolves to
    its book when it is a reference on its own. *)
Definition alias_resolves (mapping : gmap text text) (kv : text * text) : bool :=
  bool_decide (mapping !! kv.1 = Some kv.2)
  && bool_decide (mapping !! normalize_text kv.1 = Some kv.2)
  && bool_decide (mapping !! remove_spaces (normalize_text kv.1) = Some kv.2)
  && match parse_reference_in mapping kv.1 with
     | Ok english_ref => bool_decide (english_ref = kv.2)
     | Raise _ => false
     end.

Definition aliases_resolve (include_apocrypha : bool) : bool :=
  let mapping := build_book_mapping include_apocrypha in
  forallb (alias_resolves mapping) (alias_table include_apocrypha).

Lemma aliases_resolve_all include_apocrypha :
  aliases_resolve include_apocrypha = true.
Proof. destruct include_apocrypha; vm_cast_no_check (eq_refl true). Qed.

(** X3: no alias of the tables is shadowed by another one.  With or
    without the apocrypha, every alias of the table is a key of the
    mapping as it is written, normalized, and normalized without
    spaces, each time for the book the table gives it; and the alias
    alone is a reference that resolves to that book. *)
Theorem every_alias_resolves (include_apocrypha : bool) (alias book : text) :
  (alias, book) ∈ alias_table include_apocrypha ->
  let mapping := build_book_mapping include_apocrypha in
  mapping !! alias = Some book
  /\ mapping !! normalize_text alias = Some book
  /\ mapping !! remove_spaces (normalize_text alias) = Some book
  /\ parse_reference alias include_apocrypha = Ok book.
Proof.
  intros Hin mapping.
  pose proof (aliases_resolve_all include_apocrypha) as Hall.
  unfold aliases_resolve in Hall. fold mapping in Hall.
  rewrite forallb_forall in Hall.
  apply list_elem_of_In in Hin. specialize (Hall _ Hin). clear Hin.
  unfold alias_resolves in Hall. cbn [fst snd] in Hall.
  rewrite !andb_true_iff, !bool_decide_eq_true in Hall.
  destruct Hall as [[[H1 H2] H3] H4].
  repeat apply conj; try assumption.
  unfold parse_reference. fold mapping.
  destruct (parse_reference_in mapping alias) as [english_ref|e];
    [|discriminate H4].
  apply bool_decide_eq_true in H4. rewrite H4. reflexivity.
Qed.

Lemma every_alias_resolves_witness :
  let mapping := build_book_mapping true in
  mapping !! str "genesis" = Some (str "Genesis")
  /\ mapping !! normalize_text (str "genesis") = Some (str "Genesis")
  /\ mapping !! remove_spaces (normalize_text (str "genesis"))
     = Some (str "Genesis")
  /\ parse_reference (str "genesis") true = Ok (str "Genesis").
Proof.
  apply (every_alias_resolves true (str "genesis") (str "Genesis")).
  apply list_elem_of_In. vm_compute. left. reflexivity.
Defined.

End Aliases.

(** ** The errors of the book matcher *)

Section MatcherErrors.

Import DutchDiatheke.

(** X4: [parse_reference] fails in three ways only, each with a
    [ValueError]: a blank reference, a reference whose key has no token,
    and a reference no prefix of which is an alias, which is reported
    with its first token.  The lookup of the book found never fails. *)
Theorem parse_reference_errors (reference : text) (include_apocrypha : bool)
    (e : exn) :
  parse_reference reference include_apocrypha = Raise e ->
  (strip reference = [] /\ e = ValueError (str "Empty reference provided"))
  \/ (strip reference <> [] /\ split_ws (normalize_text reference) = []
      /\ e = ValueError (str "Invalid reference format"))
  \/ (exists first rest,
        split_ws (normalize_text reference) = first :: rest
        /\ e = ValueError (str "Unknown Bible book: '" ++ first ++ str "'")).
Proof.
  unfold parse_reference, parse_reference_in.
  set (mapping := build_book_mapping include_apocrypha).
  destruct (bool_decide (strip reference = [])) eqn:Hblank.
  { apply bool_decide_eq_true in Hblank. intros [= <-]. left. auto. }
  apply bool_decide_eq_false in Hblank.
  destruct (split_ws (normalize_text reference)) as [|first tokens] eqn:Htok.
  { intros [= <-]. right. left. auto. }
  destruct (find_book mapping (first :: tokens) (length (first :: tokens)))
    as [book rest] eqn:Hfind.
  destruct (bool_decide (book = [])) eqn:Hbook.
  { intros [= <-]. right. right. eauto. }
  apply bool_decide_eq_false in Hbook.
  destruct (find_book_key _ _ _ _ _ Hfind Hbook) as [english ->].
  destruct (bool_decide (rest = [])); [intros H; discriminate H|].
  destruct (_ && _); intros H; discriminate H.
Qed.

Lemma parse_reference_errors_witness :
  (strip (str ".{}]") = []
   /\ ValueError (str "Invalid reference format")
      = ValueError (str "Empty reference provided"))
  \/ (strip (str ".{}]") <> [] /\ split_ws (normalize_text (str ".{}]")) = []
      /\ ValueError (str "Invalid reference format")
         = ValueError (str "Invalid reference format"))
  \/ (exists first rest,
        split_ws (normalize_text (str ".{}]")) = first :: rest
        /\ ValueError (str "Invalid reference format")
           = ValueError (str "Unknown Bible book: '" ++ first ++ str "'")).
Proof.
  apply (parse_reference_errors (str ".{}]") false).
  vm_compute. reflexivity.
Defined.

End MatcherErrors.

(** ** The parts of a shorthand *)

Section ShorthandParts.

Import DutchDiatheke.

(** The comma parts of a reference, in order. *)
Definition comma_parts (reference : text) : list text :=
  concat (map (split_parts ",") (split_parts ";" reference)).

(** As long as nothing is expanded no book is remembered. *)
Definition fresh (st : expander) : Prop :=
  result_list st = [] -> last_book st = None.

Lemma expand_comma_part_step mapping st comma_part st' :
  fresh st ->
  expand_comma_part mapping st comma_part = Ok st' ->
  fresh st'
  /\ exists ref, result_list st' = result_list st ++ [ref]
                 /\ comma_part `suffix_of` ref
                 /\ (result_list st = [] -> ref = comma_part).
Proof.
  intros Hfresh. unfold expand_comma_part.
  assert (Hnew : forall l b c (r : text),
            fresh {| result_list := l ++ [r]; last_book := b;
                     last_chapter := c |}).
  { intros l b c r H. simpl in H. destruct l; discriminate H. }
  destruct (find_book_prefix _ _ _) as [i|].
  { intros [= <-]. split; [apply Hnew|]. simpl.
    exists comma_part. split; [reflexivity|]. split; [reflexivity|auto]. }
  destruct (contains (str ":") comma_part).
  { destruct (truthy (last_book st)) eqn:Hb; [|intros H; discriminate H].
    intros [= <-]. split; [apply Hnew|]. simpl. eexists. split; [reflexivity|].
    split.
    - exists (default [] (last_book st) ++ str " ").
      rewrite <- app_assoc. reflexivity.
    - intros Hnil. rewrite (Hfresh Hnil) in Hb. discriminate Hb. }
  destruct (is_number_or_range comma_part).
  { destruct (truthy (last_book st) && truthy (last_chapter st)) eqn:Hbc.
    { intros [= <-]. split; [apply Hnew|]. simpl. eexists.
      split; [reflexivity|]. split.
      - exists (default [] (last_book st) ++ str " "
                ++ default [] (last_chapter st) ++ str ":").
        rewrite <- !app_assoc. reflexivity.
      - intros Hnil. rewrite (Hfresh Hnil) in Hbc. discriminate Hbc. }
    destruct (truthy (last_book st)) eqn:Hb; [|intros H; discriminate H].
    intros [= <-]. split; [apply Hnew|]. simpl. eexists. split; [reflexivity|].
    split.
    - exists (default [] (last_book st) ++ str " ").
      rewrite <- app_assoc. reflexivity.
    - intros Hnil. rewrite (Hfresh Hnil) in Hb. discriminate Hb. }
  intros [= <-]. split; [apply Hnew|]. simpl.
  exists comma_part. split; [reflexivity|]. split; [reflexivity|auto].
Qed.

(** What a run of the loop adds to the list: one reference for each
    part, ending with the part, and the first of all is the part
    itself. *)
Definition expanded (parts : list text) (before after : list text) : Prop :=
  exists refs, after = before ++ refs
               /\ Forall2 (fun part ref => part `suffix_of` ref) parts refs
               /\ (before = [] -> head refs = head parts).

Lemma expand_comma_parts mapping parts : forall st st',
  fresh st ->
  for_each (expand_comma_part mapping) st parts = Ok st' ->
  fresh st' /\ expanded parts (result_list st) (result_list st').
Proof.
  induction parts as [|part parts IH]; intros st st' Hfresh; simpl.
  - intros [= <-]. split; [exact Hfresh|]. exists []. rewrite app_nil_r.
    repeat split; constructor.
  - destruct (expand_comma_part mapping st part) as [st1|e] eqn:Hstep;
      [|intros H; discriminate H].
    simpl. intros Hrest.
    destruct (expand_comma_part_step _ _ _ _ Hfresh Hstep)
      as (Hfresh1 & ref & Hlist & Hsuffix & Hfirst).
    destruct (IH _ _ Hfresh1 Hrest) as (Hfresh' & refs & Hlist' & Hall & _).
    split; [exact Hfresh'|]. exists (ref :: refs).
    rewrite Hlist', Hlist, <- app_assoc. split; [reflexivity|].
    split; [constructor; assumption|].
    intros Hnil. simpl. rewrite (Hfirst Hnil). reflexivity.
Qed.

Lemma expanded_app parts1 parts2 l0 l1 l2 :
  expanded parts1 l0 l1 -> expanded parts2 l1 l2 ->
  expanded (parts1 ++ parts2) l0 l2.
Proof.
  intros (refs1 & -> & Hall1 & Hhead1) (refs2 & -> & Hall2 & Hhead2).
  exists (refs1 ++ refs2). rewrite app_assoc. split; [reflexivity|].
  split; [apply Forall2_app; assumption|].
  intros Hnil. specialize (Hhead1 Hnil).
  destruct Hall1 as [|part ref parts1 refs1 H1 Hall1].
  - simpl. apply Hhead2. rewrite Hnil. reflexivity.
  - simpl in *. exact Hhead1.
Qed.

Lemma expand_semi_parts mapping semi_parts : forall st st',
  fresh st ->
  for_each (expand_semi_part mapping) st semi_parts = Ok st' ->
  fresh st'
  /\ expanded (concat (map (split_parts ",") semi_parts))
       (result_list st) (result_list st').
Proof.
  induction semi_parts as [|semi semi_parts IH]; intros st st' Hfresh; simpl.
  - intros [= <-]. split; [exact Hfresh|]. exists []. rewrite app_nil_r.
    repeat split; constructor.
  - unfold expand_semi_part at 1.
    destruct (for_each (expand_comma_part mapping) st (split_parts "," semi))
      as [st1|e] eqn:Hinner; [|intros H; discriminate H].
    simpl. intros Hrest.
    destruct (expand_comma_parts _ _ _ _ Hfresh Hinner) as [Hfresh1 Hexp1].
    apply IH in Hrest as [Hfresh' Hexp2]; [|exact Hfresh1].
    split; [exact Hfresh'|]. exact (expanded_app _ _ _ _ _ Hexp1 Hexp2).
Qed.

(** X5: when [expand_reference_shorthand] returns, it returns one
    reference for each comma part of the input that is not blank, in
    order; each reference ends with its part, what is put before it
    being the book, or the book and the chapter, carried over; and the
    first reference is the first part itself.  A blank input gives the
    empty list. *)
Theorem expand_reference_shorthand_parts (reference : text)
    (include_apocrypha : bool) (refs : list text) :
  expand_reference_shorthand reference include_apocrypha = Ok refs ->
  Forall2 (fun part ref => part `suffix_of` ref) (comma_parts reference) refs
  /\ head refs = head (comma_parts reference)
  /\ (strip reference = [] -> refs = []).
Proof.
  unfold expand_reference_shorthand.
  destruct (bool_decide (strip reference = [])) eqn:Hblank.
  - apply bool_decide_eq_true in Hblank. intros [= <-].
    assert (Hparts : comma_parts reference = []).
    { unfold comma_parts.
      destruct (split_parts ";" reference) as [|p ps] eqn:Hp; [reflexivity|].
      exfalso. unfold split_parts in Hp.
      assert (Hin : p ∈ map strip
                (filter (fun p => strip p <> []) (split_on ";" reference)))
        by (rewrite Hp; left).
      apply list_elem_of_fmap in Hin as (q & -> & Hq).
      apply list_elem_of_filter in Hq as [Hq Hin].
      apply Hq. apply strip_blank.
      apply strip_nil in Hblank. clear Hq Hp.
      revert q Hin. induction Hblank as [|c s Hc Hs IH]; intros q Hin.
      - simpl in Hin. apply list_elem_of_singleton in Hin. subst q. constructor.
      - cbn [split_on] in Hin.
        destruct (Ascii.eqb c ";") eqn:Hsep.
        { apply Ascii.eqb_eq in Hsep. subst c. discriminate Hc. }
        destruct (split_on ";" s) as [|piece pieces] eqn:Hsplit.
        + apply list_elem_of_singleton in Hin. subst q. repeat constructor.
          exact Hc.
        + apply elem_of_cons in Hin as [->|Hin].
          * constructor; [exact Hc|]. apply IH. left.
          * apply IH. right. exact Hin. }
    rewrite Hparts. repeat split; constructor.
  - apply bool_decide_eq_false in Hblank.
    destruct (for_each _ _ _) as [st|e] eqn:Hloop; [|intros H; discriminate H].
    simpl. intros [= <-].
    apply expand_semi_parts in Hloop as [_ (refs & Hlist & Hall & Hhead)].
    + simpl in Hlist. rewrite Hlist. split; [exact Hall|].
      split; [apply Hhead; reflexivity|]. intros H. contradiction.
    + intros _. reflexivity.
Qed.

Lemma expand_reference_shorthand_parts_witness :
  Forall2 (fun part ref => part `suffix_of` ref)
    (comma_parts (str "Ex 9:9,25; 10:1"))
    [str "Ex 9:9"; str "Ex 9:25"; str "Ex 10:1"]
  /\ head [str "Ex 9:9"; str "Ex 9:25"; str "Ex 10:1"]
     = head (comma_parts (str "Ex 9:9,25; 10:1"))
  /\ (strip (str "Ex 9:9,25; 10:1") = []
      -> [str "Ex 9:9"; str "Ex 9:25"; str "Ex 10:1"] = []).
Proof.
  apply (expand_reference_shorthand_parts (str "Ex 9:9,25; 10:1") false).
  vm_compute. reflexivity.
Defined.

End ShorthandParts.

(** ** The exit status and the dry run *)

Section ExitStatus.

Import DutchDiatheke.

Variable subprocess_run : nat -> list text -> outcome.
Variable args : arguments.

(** The command line [run_diatheke] builds for a key. *)
Definition command (key : text) : list text :=
  [str "diatheke"; str "-b"; arg_module args; str "-f"; arg_format args]
  ++ (if truthy (arg_options args)
      then [str "-o"; default [] (arg_options args)] else [])
  ++ [str "-k"; key].

(** What [run_diatheke] returns: 0 in a dry run; otherwise the
    [ValueError] of a command with a NUL character, the return code of
    the process, or 1 when the program is not found. *)
Lemma run_diatheke_code n key evs started result :
  run_diatheke subprocess_run n (arg_module args) key (arg_format args)
    (arg_options args) (arg_echo args) (arg_dry_run args)
  = (evs, started, result) ->
  (arg_dry_run args = true /\ result = Ok 0%Z /\ started = false
   /\ evs = [Stdout (str "[CMD] " ++ join (str " ") (command key))])
  \/ (arg_dry_run args = false /\ has_nul (command key) = true
      /\ result = Raise (ValueError (str "embedded null byte")))
  \/ (arg_dry_run args = false /\ has_nul (command key) = false
      /\ ((exists code, subprocess_run n (command key) = Exited code
                        /\ result = Ok code)
          \/ (subprocess_run n (command key) = FileNotFound
              /\ result = Ok 1%Z))).
Proof.
  unfold run_diatheke. fold (command key).
  destruct (arg_dry_run args).
  - rewrite orb_true_r. intros [= <- <- <-]. left. auto.
  - destruct (has_nul (command key)).
    + intros [= <- <- <-]. right. left. auto.
    + destruct (subprocess_run n (command key)) as [returncode|];
        intros [= <- <- <-]; right; right; eauto 6.
Qed.

Definition resolves (ref : text) : Prop := exists key, resolve args ref = Ok key.





(** What a reference leaves in a dry run: the command line, or the
    error. *)
Definition dry_turn (ref : text) (ev : event) : Prop :=
  (exists key, resolve args ref = Ok key
               /\ ev = Stdout (str "[CMD] " ++ join (str " ") (command key)))
  \/ (exists msg, resolve args ref = Raise (ValueError msg)
                  /\ ev = Stderr (str "ERROR: " ++ msg)).

Lemma main_loop_dry refs :
  arg_dry_run args = true ->
  forall st, (exit_code st = 0 \/ exit_code st = 1)%Z ->
  exists st' evs,
    for_each (main_step subprocess_run args) st refs = Ok st'
    /\ events st' = events st ++ evs
    /\ Forall2 dry_turn refs evs
    /\ spawned st' = spawned st
    /\ (exit_code st' = 0 \/ exit_code st' = 1)%Z
    /\ (exit_code st' = 0%Z <->
        exit_code st = 0%Z /\ forall ref, ref ∈ refs -> resolves ref).
Proof.
  intros Hdry. induction refs as [|ref refs IH]; intros st Hst.
  - exists st, []. simpl. rewrite app_nil_r.
    refine (conj eq_refl (conj eq_refl (conj _ (conj eq_refl (conj Hst _))))).
    + constructor.
    + split; [|tauto]. intros H. split; [exact H|]. intros ref Hin.
      apply elem_of_nil in Hin. contradiction.
  - simpl. unfold main_step at 1.
    destruct (resolve args ref) as [key|e] eqn:Hres.
    + destruct (run_diatheke subprocess_run (spawned st) (arg_module args) key
                  (arg_format args) (arg_options args) (arg_echo args)
                  (arg_dry_run args)) as [[evs started] code] eqn:Hrun.
      apply run_diatheke_code in Hrun
        as [(_ & -> & -> & ->)|[(Hno & _)|(Hno & _)]]; [|congruence..].
      simpl.
      destruct (IH {| exit_code := Z.max (exit_code st) 0;
                      events := events st
                                ++ [Stdout (str "[CMD] "
                                            ++ join (str " ") (command key))];
                      spawned := spawned st |})
        as (st' & evs & Hloop & Hev & Hturns & Hsp & Hcode & Hzero).
      { simpl. lia. }
      exists st', (Stdout (str "[CMD] " ++ join (str " ") (command key)) :: evs).
      simpl in *.
      refine (conj Hloop (conj _ (conj _ (conj Hsp (conj Hcode (conj _ _)))))).
      * rewrite Hev, <- app_assoc. reflexivity.
      * constructor; [left; eauto|exact Hturns].
      * intros H. apply Hzero in H as [H Hall]. split; [lia|].
        intros r Hr. apply elem_of_cons in Hr as [->|Hr]; [eexists; eauto|].
        apply Hall. exact Hr.
      * intros [H Hall]. apply Hzero. split; [lia|].
        intros r Hr. apply Hall. right. exact Hr.
    + destruct (resolve_raises args ref e Hres) as [msg ->]. simpl.
      destruct (IH {| exit_code := 1;
                      events := events st ++ [Stderr (str "ERROR: " ++ msg)];
                      spawned := spawned st |})
        as (st' & evs & Hloop & Hev & Hturns & Hsp & Hcode & Hzero).
      { simpl. lia. }
      exists st', (Stderr (str "ERROR: " ++ msg) :: evs).
      simpl in *.
      refine (conj Hloop (conj _ (conj _ (conj Hsp (conj Hcode (conj _ _)))))).
      * rewrite Hev, <- app_assoc. reflexivity.
      * constructor; [right; eauto|exact Hturns].
      * intros H. apply Hzero in H as [H _]. discriminate H.
      * intros [_ Hall]. destruct (Hall ref) as [key Hkey]; [left|].
        rewrite Hres in Hkey. discriminate Hkey.
Qed.

(** X7: with [--dry-run] no process is started.  Each reference leaves
    one line, in order: the command line that would be run, on standard
    output, when it resolves, and the error, on standard error, when it
    does not; the exit status is 0 when every reference resolves and 1
    otherwise. *)
Theorem dry_run_starts_nothing (refs : list text) :
  arg_dry_run args = true ->
  exists st,
    main_loop subprocess_run args refs = Ok st
    /\ Forall2 dry_turn refs (events st)
    /\ spawned st = 0
    /\ (forall cmd, Spawn cmd ∉ events st)
    /\ (exit_code st = 0 \/ exit_code st = 1)%Z
    /\ (exit_code st = 0%Z <-> forall ref, ref ∈ refs -> resolves ref).
Proof.
  intros Hdry. unfold main_loop.
  destruct (main_loop_dry refs Hdry
              {| exit_code := 0; events := []; spawned := 0 |})
    as (st & evs & Hloop & Hev & Hturns & Hsp & Hcode & Hzero);
    [left; reflexivity|].
  simpl in *. subst evs. exists st.
  refine (conj Hloop (conj Hturns (conj Hsp (conj _ (conj Hcode (conj _ _)))))).
  - intros cmd Hin.
    apply list_elem_of_lookup in Hin as [i Hi].
    destruct (Forall2_lookup_r _ _ _ _ _ Hturns Hi) as (ref & _ & Hturn).
    destruct Hturn as [(key & _ & H)|(msg & _ & H)]; discriminate H.
  - intros H. apply Hzero in H. tauto.
  - intros H. apply Hzero. auto.
Qed.

End ExitStatus.

Lemma dry_run_starts_nothing_witness :
  let args := {| DutchDiatheke.arg_module := str "HSV";
                 DutchDiatheke.arg_format := str "plain";
                 DutchDiatheke.arg_options := None;
                 DutchDiatheke.arg_echo := false;
                 DutchDiatheke.arg_dry_run := true;
                 DutchDiatheke.arg_apocrypha := false |} in
  let run := fun (_ : nat) (_ : list text) => DutchDiatheke.Exited 0 in
  exists st,
    DutchDiatheke.main_loop run args [str "Joh 3:16"; str "Foo 3"] = Ok st
    /\ Forall2 (dry_turn args) [str "Joh 3:16"; str "Foo 3"]
         (DutchDiatheke.events st)
    /\ DutchDiatheke.spawned st = 0
    /\ (forall cmd, DutchDiatheke.Spawn cmd ∉ DutchDiatheke.events st)
    /\ (DutchDiatheke.exit_code st = 0 \/ DutchDiatheke.exit_code st = 1)%Z
    /\ (DutchDiatheke.exit_code st = 0%Z <->
        forall ref, ref ∈ [str "Joh 3:16"; str "Foo 3"] -> resolves args ref).
Proof.
  intros args run.
  apply (dry_run_starts_nothing run args). reflexivity.
Defined.

(** ** From the dry run to the wrapper *)

Section Tidy.







Lemma join_tokens_nil ts :
  Forall token ts -> join (str " ") ts = [] -> ts = [].
Proof.
  intros Hts. destruct Hts as [|t ts [Hne _] _]; [reflexivity|].
  destruct t as [|c t]; [contradiction|]. destruct ts; discriminate.
Qed.







(** A string on one line is one piece of [split('\n')]. *)
Lemma split_on_one sep s :
  Forall (fun c => c <> sep) s -> split_on sep s = [s].
Proof.
  induction 1 as [|c s Hc _ IH]; [reflexivity|].
  cbn [split_on]. apply Ascii.eqb_neq in Hc. rewrite Hc, IH. reflexivity.
Qed.

End Tidy.

Section KeyTidy.

Import DutchDiatheke.











End KeyTidy.

Section DryRunRoundTrip.

Import DutchDiatheke.



Variable subprocess_run : nat -> list text -> outcome.




End DryRunRoundTrip.


(** ** Tags in rendered text *)

Section Tags.

Import BibleToFormat.

Lemma take_while_Forall p s : Forall (fun c => p c = true) (take_while p s).
Proof.
  induction s as [|c s IH]; simpl; [constructor|].
  destruct (p c) eqn:Hc; constructor; assumption.
Qed.

(** A tag: ['<'], one character or more that are not ['>'], and
    ['>']. *)
Definition markup_tag (t : text) : Prop :=
  exists g, t = str "<" ++ g ++ str ">" /\ g <> []
            /\ Forall (fun c => not_gt c = true) g.

Lemma re_tag_Some prev s r rest :
  re_tag prev s = Some (r, rest) ->
  r = [] /\ exists t, markup_tag t /\ s = t ++ rest.
Proof.
  unfold re_tag.
  destruct (match_lit (str "<") s) as [s1|] eqn:H1; [|intros H; discriminate H].
  cbn [mbind option_bind].
  destruct (run1 not_gt s1) as [[g s2]|] eqn:H2; [|intros H; discriminate H].
  cbn [mbind option_bind].
  destruct (match_lit (str ">") s2) as [s3|] eqn:H3; [|intros H; discriminate H].
  cbn [mbind option_bind]. intros [= <- <-]. split; [reflexivity|].
  apply match_lit_Some in H1, H3. subst s s2.
  unfold run1 in H2.
  pose proof (take_while_Forall not_gt s1) as Hg.
  pose proof (take_drop_while not_gt s1) as Hs1.
  destruct (take_while not_gt s1) as [|c g'] eqn:Htake; [discriminate H2|].
  injection H2 as <- H2. rewrite H2 in Hs1.
  exists (str "<" ++ (c :: g') ++ str ">"). split.
  - exists (c :: g'). split; [reflexivity|]. split; [discriminate|exact Hg].
  - rewrite <- Hs1, <- !app_assoc. reflexivity.
Qed.

Lemma re_tag_match prev t rest : markup_tag t -> re_tag prev (t ++ rest) = Some ([], rest).
Proof.
  intros (g & -> & Hne & Hg). unfold re_tag.
  rewrite <- !app_assoc, match_lit_app. cbn [mbind option_bind].
  unfold run1.
  rewrite take_while_stop, drop_while_stop;
    [|exact Hg|intros c [= <-]; reflexivity
     |exact Hg|intros c [= <-]; reflexivity].
  destruct g as [|c g]; [contradiction|].
  cbn [mbind option_bind]. rewrite match_lit_app. reflexivity.
Qed.

Lemma re_tag_consumes : consumes re_tag.
Proof.
  intros prev s r rest H. apply re_tag_Some in H as (_ & t & (g & -> & _) & ->).
  exists (str "<" ++ g ++ str ">"). split; [discriminate|reflexivity].
Qed.

Lemma re_tag_window prev s :
  re_tag prev s <> None ->
  exists q, q <> [] /\ Forall (fun c => (fun _ : ascii => true) c = true) q
            /\ q `prefix_of` s
            /\ forall prev' s', q `prefix_of` s' -> re_tag prev' s' <> None.
Proof.
  destruct (re_tag prev s) as [[r rest]|] eqn:H; [|congruence]. intros _.
  apply re_tag_Some in H as (_ & t & Ht & ->). exists t.
  repeat apply conj.
  - destruct Ht as (g & -> & _). discriminate.
  - apply Forall_forall. reflexivity.
  - exists rest. reflexivity.
  - intros prev' s' [k ->]. rewrite (re_tag_match prev' t k Ht). discriminate.
Qed.

Lemma re_tag_removes (P : ascii -> Prop) prev s r rest :
  Forall P s -> re_tag prev s = Some (r, rest) -> Forall P r.
Proof. intros _ H. apply re_tag_Some in H as [-> _]. constructor. Qed.

(** Where the tag pattern does not match, it does not match after the
    substitution either. *)
Lemma re_tag_kept prev c s ps :
  re_tag prev (c :: s) = None -> scans re_tag (Some c) s ps ->
  forall prev', re_tag prev' (c :: concat (map piece_text ps)) = None.
Proof.
  intros Hnone Hscan prev'.
  destruct (re_tag prev' (c :: concat (map piece_text ps)))
    as [[r rest]|] eqn:Hout; [|reflexivity].
  exfalso. apply re_tag_Some in Hout as (_ & t & (g & -> & Hne & Hg) & Heq).
  destruct g as [|c1 g]; [contradiction|].
  cbn in Heq. injection Heq as -> Heq.
  apply Forall_cons in Hg as [Hc1 Hg].
  (* the input after the ['<'] *)
  destruct s as [|c2 s].
  { apply scans_nil_inv in Hscan. subst ps. discriminate Heq. }
  assert (Hgt : exists k, head k = Some ">"%char
                          /\ concat (map piece_text ps) = (c1 :: g) ++ k).
  { exists (">"%char :: rest). split; [reflexivity|].
    rewrite Heq. cbn [app]. rewrite <- app_assoc. reflexivity. }
  clear Heq. destruct Hgt as (k & Hk & Heq).
  (* a ['>'] of the output is a ['>'] of the input *)
  assert (Hin : ">"%char ∈ c2 :: s).
  { destruct (decide (">"%char ∈ c2 :: s)) as [H|H]; [exact H|]. exfalso.
    assert (Hall : Forall (fun c => c <> ">"%char) (c2 :: s)).
    { apply Forall_forall. intros x Hx ->. contradiction. }
    pose proof (scans_Forall re_tag (fun c => c <> ">"%char) _ _ _
                  (re_tag_removes _) Hscan Hall) as Hout.
    rewrite Heq in Hout. apply Forall_app in Hout as [_ Hout].
    destruct k as [|x k]; [discriminate Hk|]. injection Hk as ->.
    apply Forall_cons in Hout as [Hx _]. contradiction. }
  (* so the pattern fails at the ['<'] because a ['>'] follows it *)
  assert (Hc2 : c2 = ">"%char).
  { destruct (Ascii.eqb_spec c2 ">"%char) as [H|H]; [exact H|]. exfalso.
    apply list_elem_of_split in Hin as (a & b & Hsplit).
    assert (Hsplit' : exists a' b', c2 :: s = a' ++ ">"%char :: b'
              /\ a' <> [] /\ Forall (fun c => not_gt c = true) a').
    { exists (take_while not_gt (c2 :: s)).
      pose proof (take_drop_while not_gt (c2 :: s)) as Htd.
      pose proof (take_while_Forall not_gt (c2 :: s)) as Hta.
      destruct (drop_while not_gt (c2 :: s)) as [|x b'] eqn:Hd.
      - exfalso. apply drop_while_nil in Hd. rewrite Hsplit in Hd.
        apply Forall_app in Hd as [_ Hd]. apply Forall_cons in Hd as [Hd _].
        discriminate Hd.
      - exists b'. assert (x = ">"%char) as ->.
        { pose proof (drop_while_head not_gt (c2 :: s) x) as Hx.
          rewrite Hd in Hx. specialize (Hx eq_refl). unfold not_gt in Hx.
          apply negb_false_iff, Ascii.eqb_eq in Hx. exact Hx. }
        split; [symmetry; exact Htd|]. split; [|exact Hta].
        cbn [take_while]. unfold not_gt at 1.
        apply Ascii.eqb_neq in H. rewrite H. discriminate. }
    destruct Hsplit' as (a' & b' & Hs & Hane & Ha').
    assert (Hmatch : re_tag prev ((str "<" ++ a' ++ str ">") ++ b')
                     = Some ([], b')).
    { apply re_tag_match. exists a'. auto. }
    replace ((str "<" ++ a' ++ str ">") ++ b') with ("<"%char :: c2 :: s)
      in Hmatch by (rewrite Hs, <- !app_assoc; reflexivity).
    rewrite Hmatch in Hnone. discriminate Hnone. }
  subst c2.
  (* and that ['>'] is kept at the head of the output *)
  remember (">"%char :: s) as s1 eqn:Hs1.
  destruct Hscan as [prev0|prev0 c0 s0 ps0 Hn Hs0
                    |prev0 t rest0 r0 ps0 Ht Hm Hs0].
  - discriminate Hs1.
  - injection Hs1 as -> ->. cbn in Heq. injection Heq as <- _.
    discriminate Hc1.
  - apply re_tag_Some in Hm as (_ & t' & (g' & -> & _) & Heq').
    rewrite Heq' in Hs1. discriminate Hs1.
Qed.

Lemma scans_tag_free prev s ps :
  scans re_tag prev s ps -> never re_tag (concat (map piece_text ps)).
Proof.
  induction 1 as [prev|prev c s ps Hnone Hscan IH
                 |prev t rest r ps Ht Hmatch Hscan IH]; simpl.
  - apply never_nil. reflexivity.
  - apply never_cons; [|exact IH].
    exact (re_tag_kept prev c s ps Hnone Hscan).
  - apply re_tag_Some in Hmatch as [-> _]. exact IH.
Qed.

Lemma re_sub_tag_free s : never re_tag (re_sub re_tag s).
Proof.
  destruct (re_sub_scans _ s re_tag_consumes) as (ps & Hscan & ->).
  exact (scans_tag_free _ _ _ Hscan).
Qed.

Lemma process_text_tag_free s format options :
  never re_tag (process_text s format options).
Proof.
  unfold process_text.
  apply (never_strip (fun _ => true) re_tag re_tag_window).
  apply re_sub_tag_free.
Qed.

(** A pattern that opens with a tag matches nowhere in a text without
    tags. *)
Lemma never_tagged (m : matcher text) s :
  (forall prev s, m prev s <> None -> re_tag prev s <> None) ->
  never re_tag s -> never m s.
Proof.
  intros Hm Hs pre post prev Heq.
  destruct (m prev post) eqn:H; [|reflexivity].
  exfalso. apply (Hm prev post); [congruence|]. exact (Hs pre post prev Heq).
Qed.

Lemma re_smallcaps_tagged pre post prev s :
  re_smallcaps pre post prev s <> None -> re_tag prev s <> None.
Proof.
  unfold re_smallcaps.
  destruct (match_lit smallcaps_tag s) as [s1|] eqn:H1;
    [|intros H; contradiction].
  intros _. apply match_lit_Some in H1. subst s.
  rewrite (re_tag_match prev smallcaps_tag s1); [discriminate|].
  exists (str "hi type=" ++ dq ++ str "small-caps" ++ dq).
  split; [reflexivity|]. split; [discriminate|].
  repeat constructor.
Qed.

Lemma re_italic_tagged pre post prev s :
  re_italic pre post prev s <> None -> re_tag prev s <> None.
Proof.
  unfold re_italic.
  destruct (match_lit (str "<i>") s) as [s1|] eqn:H1;
    [|intros H; contradiction].
  intros _. apply match_lit_Some in H1. subst s.
  rewrite (re_tag_match prev (str "<i>") s1); [discriminate|].
  exists (str "i"). split; [reflexivity|]. split; [discriminate|].
  repeat constructor.
Qed.

(** X9: text that went through [process_text] holds no tag, that is no
    ['<'] followed by one or more characters other than ['>'] and a
    ['>'], whatever the format; and [process_text] changes nothing in
    text that went through it already. *)
Theorem process_text_strips_tags (s format options : text) :
  (forall pre t post, markup_tag t ->
     process_text s format options <> pre ++ t ++ post)
  /\ process_text (process_text s format options) format options
     = process_text s format options.
Proof.
  pose proof (process_text_tag_free s format options) as Hfree.
  split.
  - intros pre t post Ht Heq.
    specialize (Hfree pre (t ++ post) None Heq).
    rewrite (re_tag_match None t post Ht) in Hfree. discriminate Hfree.
  - set (y := process_text s format options) in *.
    assert (Hsc : forall pre post, re_sub (re_smallcaps pre post) y = y).
    { intros pre post. apply re_sub_never.
      apply never_tagged; [apply re_smallcaps_tagged|exact Hfree]. }
    assert (Hit : forall pre post, re_sub (re_italic pre post) y = y).
    { intros pre post. apply re_sub_never.
      apply never_tagged; [apply re_italic_tagged|exact Hfree]. }
    assert (Hstrip : strip y = y) by apply strip_idempotent.
    unfold process_text at 1.
    rewrite !Hsc, !Hit.
    replace (if fmt_is format "typ" then y
             else if fmt_is format "tex" then y
             else if fmt_is format "md" then y
             else if fmt_is format "org" then y else y) with y
      by (repeat destruct (fmt_is format _); reflexivity).
    rewrite (re_sub_never _ _ Hfree). exact Hstrip.
Qed.

End Tags.

(** ** The notes of a verse *)

Section Notes.

Import BibleToFormat.

Lemma contains_app lit pre post :
  contains lit (pre ++ post) = false -> is_prefix lit post = false.
Proof.
  induction pre as [|c pre IH]; cbn [app].
  - destruct post; cbn [contains]; intros H;
      apply orb_false_iff in H as [H _]; exact H.
  - cbn [contains]. intros H. apply orb_false_iff in H as [_ H]. exact (IH H).
Qed.

Lemma match_lit_prefix lit s rest :
  match_lit lit s = Some rest -> is_prefix lit s = true.
Proof.
  intros H. apply match_lit_Some in H. subst s.
  induction lit as [|c lit IH]; [reflexivity|].
  cbn. rewrite Ascii.eqb_refl. exact IH.
Qed.

(** A pattern that opens with a literal matches nowhere in a string
    that does not hold the literal. *)
Lemma never_without {A} (m : matcher A) lit s :
  (forall prev s', m prev s' <> None -> is_prefix lit s' = true) ->
  contains lit s = false -> never m s.
Proof.
  intros Hm Hs pre post prev ->.
  destruct (m prev post) eqn:H; [|reflexivity].
  exfalso. apply contains_app in Hs.
  rewrite (Hm prev post) in Hs; [discriminate Hs|]. congruence.
Qed.

Lemma re_note_opens prev s :
  re_note prev s <> None -> is_prefix (str "<note") s = true.
Proof.
  unfold re_note.
  destruct (match_lit (str "<note") s) as [s1|] eqn:H;
    [|intros C; contradiction].
  intros _. exact (match_lit_prefix _ _ _ H).
Qed.

Lemma re_note_empty_opens prev s :
  re_note_empty prev s <> None -> is_prefix (str "<note") s = true.
Proof.
  unfold re_note_empty.
  destruct (match_lit (str "<note") s) as [s1|] eqn:H;
    [|intros C; contradiction].
  intros _. exact (match_lit_prefix _ _ _ H).
Qed.

Lemma re_note_open_close_opens prev s :
  re_note_open_close prev s <> None -> is_prefix (str "<note") s = true.
Proof.
  unfold re_note_open_close.
  destruct (match_lit (str "<note") s) as [s1|] eqn:H;
    [|intros C; contradiction].
  intros _. exact (match_lit_prefix _ _ _ H).
Qed.

(** The loop of [re.sub] with [repl] in [extract_notes]. *)
Definition note_step (acc : list note * Z * text) (p : piece (text * text))
    : list note * Z * text :=
  let '(notes, note_idx, out) := acc in
  match p with
  | Kept c => (notes, note_idx, out ++ [c])
  | Matched groups =>
    let '(notes, note_idx, r) := extract_repl (notes, note_idx) groups in
    (notes, note_idx, out ++ r)
  end.

Lemma extract_notes_fold s inline_notes :
  extract_notes s inline_notes
  = let '(notes, _, out) := fold_left note_step (re_scan re_note s) ([], 0%Z, []) in
    (re_sub re_note_open_close (re_sub re_note_empty out), notes).
Proof. reflexivity. Qed.

(** What [extract_notes] keeps of a note. *)
Definition well_formed (n : note) : Prop :=
  n_content n <> [] /\ strip (n_content n) = n_content n
  /\ (n_label n = str "ref" \/ n_label n = str "note").

Definition matches {A} (ps : list (piece A)) : list A :=
  omap (fun p => match p with Matched a => Some a | Kept _ => None end) ps.

Lemma note_step_fold ps : forall notes idx out,
  Forall well_formed notes -> idx = Z.of_nat (length notes) ->
  let '(notes', idx', _) := fold_left note_step ps (notes, idx, out) in
  Forall well_formed notes'
  /\ idx' = Z.of_nat (length notes')
  /\ length notes' <= length notes + length (matches ps).
Proof.
  induction ps as [|p ps IH]; intros notes idx out Hall Hidx.
  - simpl. repeat split; [exact Hall|exact Hidx|lia].
  - cbn [fold_left]. destruct p as [c|[attrs content]].
    + cbn [note_step]. specialize (IH notes idx (out ++ [c]) Hall Hidx).
      destruct (fold_left note_step ps (notes, idx, out ++ [c]))
        as [[notes' idx'] out'].
      destruct IH as (H1 & H2 & H3). refine (conj H1 (conj H2 _)).
      unfold matches in *. cbn [omap list_omap length] in *. lia.
    + cbn [note_step extract_repl].
      destruct (strip content) as [|c content'] eqn:Hcontent.
      * specialize (IH notes idx (out ++ []) Hall Hidx).
        destruct (fold_left note_step ps (notes, idx, out ++ []))
          as [[notes' idx'] out'].
        destruct IH as (H1 & H2 & H3). refine (conj H1 (conj H2 _)).
        unfold matches in *. cbn [omap list_omap length] in *. lia.
      * match goal with
        | |- context [fold_left note_step ps (?n, ?i, ?o)] =>
          specialize (IH n i o)
        end.
        match type of IH with
        | ?P -> ?Q -> _ => assert (HP : P); [|assert (HQ : Q)]
        end.
        { apply Forall_app. split; [exact Hall|]. constructor; [|constructor].
          unfold well_formed. cbn [n_content n_label].
          split; [discriminate|]. split.
          - rewrite <- Hcontent. apply strip_idempotent.
          - destruct (contains _ attrs); auto. }
        { rewrite length_app. cbn [length]. lia. }
        specialize (IH HP HQ).
        match type of IH with
        | context [fold_left note_step ps ?a] =>
          destruct (fold_left note_step ps a) as [[notes' idx'] out']
        end.
        destruct IH as (H1 & H2 & H3). refine (conj H1 (conj H2 _)).
        rewrite length_app in H3. unfold matches in *.
        cbn [omap list_omap length] in *. lia.
Qed.

Lemma note_step_kept s : forall notes idx out,
  fold_left note_step (map Kept s) (notes, idx, out) = (notes, idx, out ++ s).
Proof.
  induction s as [|c s IH]; intros notes idx out; simpl.
  - rewrite app_nil_r. reflexivity.
  - rewrite IH, <- app_assoc. reflexivity.
Qed.

(** X10: every note [extract_notes] returns has a content that is not
    empty and has no whitespace at its ends, and the label [ref] or
    [note]; there are at most as many notes as the text has note
    elements with a closing tag; and a text without [<note] is returned
    as it is, with no note. *)
Theorem extract_notes_well_formed (s : text) (inline_notes : bool) :
  Forall well_formed (extract_notes s inline_notes).2
  /\ length (extract_notes s inline_notes).2 <= length (re_findall re_note s)
  /\ (contains (str "<note") s = false ->
      extract_notes s inline_notes = (s, [])).
Proof.
  rewrite extract_notes_fold.
  pose proof (note_step_fold (re_scan re_note s) [] 0%Z []
                ltac:(constructor) eq_refl) as H.
  split; [|split].
  - destruct (fold_left note_step (re_scan re_note s) ([], 0%Z, []))
      as [[notes idx] out]. apply H.
  - destruct (fold_left note_step (re_scan re_note s) ([], 0%Z, []))
      as [[notes idx] out]. cbn [snd]. destruct H as (_ & _ & H).
    exact H.
  - intros Hs. unfold re_scan.
    rewrite (never_scan re_note s None
               (never_without _ _ _ re_note_opens Hs)).
    rewrite note_step_kept. cbn [app].
    rewrite (re_sub_never _ _ (never_without _ _ _ re_note_empty_opens Hs)).
    rewrite (re_sub_never _ _ (never_without _ _ _ re_note_open_close_opens Hs)).
    reflexivity.
Qed.

End Notes.

(** ** The lines of a parsed verse *)

Section VerseLines.

Import BibleToFormat.

Lemma split_on_pieces sep s :
  Forall (Forall (fun c => c <> sep)) (split_on sep s).
Proof.
  induction s as [|c s IH]; cbn [split_on]; [repeat constructor|].
  destruct (Ascii.eqb_spec c sep) as [->|Hc].
  - constructor; [constructor|exact IH].
  - destruct (split_on sep s) as [|piece pieces].
    + repeat constructor. exact Hc.
    + apply Forall_cons in IH as [Hp Hps].
      constructor; [constructor; assumption|exact Hps].
Qed.

(** A line of [clean_lines] is not empty, has no whitespace at its ends
    and no newline. *)
Definition clean (line : text) : Prop :=
  line <> [] /\ strip line = line
  /\ Forall (fun c => c <> ascii_of_N 10) line.

Lemma clean_lines_clean s : Forall clean (clean_lines s).
Proof.
  unfold clean_lines. apply Forall_forall. intros line Hin.
  apply list_elem_of_fmap in Hin as (piece & -> & Hin).
  apply list_elem_of_filter in Hin as [Hne Hin].
  split; [exact Hne|]. split; [apply strip_idempotent|].
  apply strip_Forall.
  pose proof (split_on_pieces (ascii_of_N 10) s) as Hall.
  rewrite Forall_forall in Hall. exact (Hall piece Hin).
Qed.

(** The payload is read in the prose branch: it has a [span] tag and no
    start marker. *)
Definition prose (html_content : text) : bool :=
  let html_content := re_sub re_structural html_content in
  re_search re_span_open html_content
  && negb (re_search re_l_start html_content).

(** X11: a verse of the parser has at least one line, and no line has
    whitespace at its ends.  In the prose branch it has exactly one
    line; in the two other branches every line is not empty and holds
    no newline. *)
Theorem parse_html_verses_lines (html_content : text) (inline_notes : bool)
    (v : verse) :
  v ∈ parse_html_verses html_content inline_notes ->
  v_lines v <> []
  /\ Forall (fun line => strip line = line) (v_lines v)
  /\ (if prose html_content then length (v_lines v) = 1
      else Forall clean (v_lines v)).
Proof.
  unfold parse_html_verses, prose.
  set (html := re_sub re_structural html_content).
  assert (Hclean : forall s, clean_lines s <> [] ->
            clean_lines s <> []
            /\ Forall (fun line => strip line = line) (clean_lines s)
            /\ Forall clean (clean_lines s)).
  { intros s Hne. split; [exact Hne|]. split; [|apply clean_lines_clean].
    eapply Forall_impl; [apply clean_lines_clean|]. intros line H. apply H. }
  destruct (re_search re_span_open html); cbn [negb andb].
  - intros Hin. apply list_elem_of_omap in Hin as ([[[book chapter] number] content] & _ & Hv).
    unfold html_verse in Hv.
    destruct (extract_notes content inline_notes) as [verse_content notes].
    destruct (re_search re_l_start html).
    + cbn [negb]. 
      destruct (poetic_lines verse_content) as [|line lines] eqn:Hlines;
        [discriminate Hv|].
      injection Hv as <-. cbn [v_lines]. rewrite <- Hlines.
      unfold poetic_lines in *. apply Hclean. rewrite Hlines. discriminate.
    + cbn [negb]. injection Hv as <-. cbn [v_lines].
      split; [discriminate|]. split; [|reflexivity].
      constructor; [apply strip_idempotent|constructor].
  - intros Hin. apply list_elem_of_omap in Hin as ([[[book chapter] number] content] & _ & Hv).
    unfold plain_verse in Hv.
    destruct (extract_notes (re_sub re_milestone content) inline_notes)
      as [verse_content notes].
    destruct (clean_lines verse_content) as [|line lines] eqn:Hlines;
      [discriminate Hv|].
    injection Hv as <-. cbn [v_lines]. rewrite <- Hlines.
    apply Hclean. rewrite Hlines. discriminate.
Qed.

Lemma parse_html_verses_lines_witness :
  let v := {| v_book := str "Psalms"; v_chapter := str "1"; v_number := 1;
              v_lines := [str "first line"; str "second line"];
              v_smallcaps := false; v_notes := [] |} in
  v_lines v <> []
  /\ Forall (fun line => strip line = line) (v_lines v)
  /\ (if prose two_raw_lines then length (v_lines v) = 1
      else Forall clean (v_lines v)).
Proof.
  intros v. apply (parse_html_verses_lines two_raw_lines false v).
  vm_compute. left.
Defined.

End VerseLines.

(** ** The citation of a grouped passage *)

Section GroupedCitation.

Import BibleToFormat.

Lemma list_index_first {A} (l : list A) x :
  head l = Some x -> list_index l 0 = Ok x.
Proof. destruct l; [discriminate|]. intros [= ->]. reflexivity. Qed.

Lemma list_index_last {A} (l : list A) x :
  last l = Some x -> list_index l (-1) = Ok x.
Proof.
  intros Hlast. unfold list_index. cbn [Z.ltb Z.compare].
  assert (Hlen : length l <> 0) by (destruct l; [discriminate|discriminate]).
  destruct (-1 + Z.of_nat (length l) <? 0)%Z eqn:Hneg; [lia|].
  replace (Z.to_nat (-1 + Z.of_nat (length l))) with (pred (length l)) by lia.
  rewrite <- last_lookup, Hlast. reflexivity.
Qed.

(** X12: on a passage of [group_passages] the two list accesses of
    [main], [verses[0]] and [verses[-1]], never fail: the verse range is
    made from the numbers of the first and of the last verse of the
    passage. *)
Theorem main_verse_range_of_group (verses : list verse) (p : passage) :
  p ∈ group_passages verses ->
  exists first final,
    head (p_verses p) = Some first /\ last (p_verses p) = Some final
    /\ main_verse_range (p_verses p)
       = Ok (if bool_decide (str_of_int (pv_number first)
                             = str_of_int (pv_number final))
             then str_of_int (pv_number first)
             else str_of_int (pv_number first) ++ str "-"
                  ++ str_of_int (pv_number final)).
Proof.
  intros Hp.
  pose proof (grouped_fold verses _ _ grouped_start) as [_ Hn _ _].
  rewrite Forall_forall in Hn. specialize (Hn p Hp).
  destruct (p_verses p) as [|first rest] eqn:Hvs; [contradiction|].
  destruct (last (first :: rest)) as [final|] eqn:Hlast;
    [|apply last_None in Hlast; discriminate Hlast].
  exists first, final. split; [reflexivity|]. split; [reflexivity|].
  unfold main_verse_range.
  rewrite (list_index_first (first :: rest) first eq_refl).
  rewrite (list_index_last (first :: rest) final Hlast). reflexivity.
Qed.

Lemma main_verse_range_of_group_witness :
  exists first final,
    head [prose_verse; psalm_verse] = Some first
    /\ last [prose_verse; psalm_verse] = Some final
    /\ main_verse_range [prose_verse; psalm_verse]
       = Ok (if bool_decide (str_of_int (pv_number first)
                             = str_of_int (pv_number final))
             then str_of_int (pv_number first)
             else str_of_int (pv_number first) ++ str "-"
                  ++ str_of_int (pv_number final)).
Proof.
  apply (main_verse_range_of_group
           [ {| v_book := str "Psalms"; v_chapter := str "3"; v_number := 1;
                v_lines := [str "In het begin"]; v_smallcaps := false;
                v_notes := [] |};
             {| v_book := str "Psalms"; v_chapter := str "3"; v_number := 9;
                v_lines := [str "Het heil is van de HEERE;";
                            str "Uw zegen is over Uw volk."];
                v_smallcaps := false; v_notes := [] |} ]
           {| p_book := str "Psalms"; p_chapter := str "3";
              p_verses := [prose_verse; psalm_verse] |}).
  vm_compute. left.
Defined.

End GroupedCitation.

(** ** The passages of the wrapper *)

Section WrapperPassages.

Import BibleToFormat FormatWrapper.

(** A string of one digit or more. *)
Definition digits (s : text) : Prop :=
  s <> [] /\ Forall (fun c => is_digit c = true) s.

Lemma run1_digits s r rest : run1 is_digit s = Some (r, rest) -> digits r.
Proof.
  unfold run1. pose proof (take_while_Forall is_digit s) as H.
  destruct (take_while is_digit s) as [|c r'] eqn:Ht; [discriminate|].
  intros [= <- _]. split; [discriminate|exact H].
Qed.

(** What [parse_diatheke_output] keeps of a passage: verses with a
    number made of digits and a text that is not empty, the first and
    the last of which give [first_verse] and [last_verse]. *)
Record well_formed_passage (p : passage) : Prop := {
  wf_book : p_book p <> [];
  wf_chapter : digits (p_chapter p);
  wf_verses : Forall (fun vl : text * text => digits vl.1 /\ vl.2 <> [])
                (p_verse_lines p);
  wf_first : head (map fst (p_verse_lines p)) = Some (p_first p);
  wf_last : last (map fst (p_verse_lines p)) = Some (p_last p);
}.

Record well_formed_parser (st : parser) : Prop := {
  wf_passages : Forall well_formed_passage (passages st);
  wf_current : forall cur, current_passage st = Some cur ->
                           well_formed_passage cur;
  wf_info : forall verse_num book chapter,
      current_verse_info st = Some (verse_num, book, chapter) ->
      digits verse_num /\ book <> [] /\ digits chapter;
}.

Lemma finalize_current_verse_wf output_format options st :
  well_formed_parser st ->
  well_formed_parser (finalize_current_verse output_format options st).
Proof.
  intros [Hps Hcur Hinfo]. unfold finalize_current_verse.
  destruct (current_verse_info st) as [[[verse_num book] chapter]|] eqn:Hi;
    [|split; cbn; [exact Hps|exact Hcur|discriminate]].
  destruct (Hinfo _ _ _ eq_refl) as (Hv & Hb & Hc).
  destruct (current_verse_parts st) as [|part parts];
    [split; cbn; [exact Hps|exact Hcur|discriminate]|].
  set (processed_parts := filter _ _).
  set (formatted_text := if existsb _ processed_parts then _ else _).
  destruct formatted_text as [|c formatted_text'] eqn:Htext;
    [split; cbn; [exact Hps|exact Hcur|discriminate]|].
  rewrite <- Htext. clearbody formatted_text.
  assert (Hne : formatted_text <> []) by (rewrite Htext; discriminate).
  clear Htext.
  split; cbn [FormatWrapper.passages current_passage current_verse_parts
              current_verse_info]; [| |discriminate].
  - destruct (current_passage st) as [cur|] eqn:Hcp; [|exact Hps].
    cbn. destruct (_ || _); [|exact Hps].
    apply Forall_app. split; [exact Hps|]. constructor; [|constructor].
    apply Hcur. reflexivity.
  - intros cur' [= <-].
    assert (Hnew : Forall (fun vl : text * text => digits vl.1 /\ vl.2 <> [])
                     [(verse_num, formatted_text)]).
    { constructor; [split; [exact Hv|exact Hne]|constructor]. }
    destruct (current_passage st) as [cur|] eqn:Hcp.
    + specialize (Hcur cur eq_refl). destruct Hcur as [H1 H2 H3 H4 H5].
      destruct (bool_decide (p_book cur <> book)
                || bool_decide (p_chapter cur <> chapter));
        constructor; cbn [p_book p_chapter p_verse_lines p_first p_last app from_option id
                          default].
      * exact Hb.
      * exact Hc.
      * exact Hnew.
      * reflexivity.
      * reflexivity.
      * exact H1.
      * exact H2.
      * apply Forall_app. split; [exact H3|exact Hnew].
      * rewrite map_app. destruct (map fst (p_verse_lines cur));
          [discriminate H4|exact H4].
      * rewrite map_app. cbn. apply last_snoc.
    + constructor; cbn [p_book p_chapter p_verse_lines p_first p_last app from_option id
                        default].
      * exact Hb.
      * exact Hc.
      * exact Hnew.
      * reflexivity.
      * reflexivity.
Qed.

Lemma verse_line_tail_digits s chapter verse rest :
  verse_line_tail s = Some (chapter, verse, rest) ->
  digits chapter /\ digits verse.
Proof.
  unfold verse_line_tail. destruct s as [|c s]; [discriminate|].
  destruct (is_space c); [|discriminate].
  destruct (run1 is_digit (drop_while is_space (c :: s)))
    as [[chapter' s1]|] eqn:H1; [|discriminate].
  cbn [mbind option_bind].
  destruct (match_lit (str ":") s1) as [s2|]; [|discriminate].
  cbn [mbind option_bind].
  destruct (run1 is_digit s2) as [[verse' s3]|] eqn:H2; [|discriminate].
  cbn [mbind option_bind].
  destruct (match_lit (str ":") s3) as [s4|]; [|discriminate].
  cbn [mbind option_bind]. intros [= <- <- <-].
  split; eapply run1_digits; eassumption.
Qed.

Lemma verse_line_from_wf book_rev s book chapter verse rest :
  verse_line_from book_rev s = Some (book, chapter, verse, rest) ->
  book <> [] /\ digits chapter /\ digits verse.
Proof.
  revert book_rev. induction s as [|c s IH]; intros book_rev;
    cbn [verse_line_from]; [discriminate|].
  destruct (verse_line_from (c :: book_rev) s) as [groups|] eqn:Hrec.
  - intros [= ->]. exact (IH _ Hrec).
  - destruct (verse_line_tail s) as [[[chapter' verse'] rest']|] eqn:Htail;
      [|discriminate].
    cbn [mbind option_bind]. intros [= <- <- <- <-].
    split; [|exact (verse_line_tail_digits _ _ _ _ Htail)].
    intros H. apply (f_equal length) in H. rewrite length_reverse in H.
    discriminate H.
Qed.

Lemma parse_line_wf module output_format options st line :
  well_formed_parser st ->
  well_formed_parser (parse_line module output_format options st line).
Proof.
  intros Hst. unfold parse_line.
  destruct (bool_decide (strip line = str "(" ++ module ++ str ")")).
  - apply (finalize_current_verse_wf output_format options) in Hst.
    destruct Hst as [Hps Hcur Hinfo].
    split; cbn [FormatWrapper.passages current_passage current_verse_info];
      [|discriminate|exact Hinfo].
    unfold flush_passage.
    destruct (current_passage _) as [cur|]; [|exact Hps].
    apply Forall_app. split; [exact Hps|]. constructor; [|constructor].
    apply Hcur. reflexivity.
  - destruct (strip line) as [|c line'] eqn:Hline; [exact Hst|].
    destruct (verse_line (c :: line')) as [[[[book chapter] verse] rest]|]
      eqn:Hverse.
    + apply verse_line_from_wf in Hverse as (Hb & Hc & Hv).
      apply (finalize_current_verse_wf output_format options) in Hst.
      destruct Hst as [Hps Hcur Hinfo].
      split; cbn [FormatWrapper.passages current_passage current_verse_info];
        [exact Hps|exact Hcur|].
      intros ? ? ? [= <- <- <-]. auto.
    + destruct (current_verse_info st) eqn:Hi; [|exact Hst].
      destruct Hst as [Hps Hcur Hinfo].
      split; cbn [FormatWrapper.passages current_passage current_verse_info];
        [exact Hps|exact Hcur|]. rewrite <- Hi. exact Hinfo.
Qed.

Lemma parse_diatheke_output_wf output module output_format options :
  Forall well_formed_passage
    (parse_diatheke_output output module output_format options).
Proof.
  unfold parse_diatheke_output.
  set (lines := split_on _ _). clearbody lines.
  assert (H : forall st, well_formed_parser st ->
            well_formed_parser
              (fold_left (parse_line module output_format options) lines st)).
  { induction lines as [|line lines IH]; intros st Hst; [exact Hst|].
    cbn [fold_left]. apply IH, parse_line_wf, Hst. }
  match goal with
  | |- context [fold_left _ lines ?st0] => specialize (H st0)
  end.
  match type of H with
  | ?P -> _ => assert (H0 : P)
  end.
  { split; cbn; [constructor|discriminate|discriminate]. }
  apply H in H0. apply (finalize_current_verse_wf output_format options) in H0.
  destruct H0 as [Hps Hcur _]. unfold flush_passage.
  destruct (current_passage _) as [cur|]; [|exact Hps].
  apply Forall_app. split; [exact Hps|]. constructor; [|constructor].
  apply Hcur. reflexivity.
Qed.

(** X14: every passage [parse_diatheke_output] returns has a book name
    that is not empty, a chapter made of digits and at least one verse;
    every verse has a number made of digits and a text that is not
    empty; and [first_verse] and [last_verse] are the numbers of its
    first and of its last verse. *)
Theorem parse_diatheke_output_passages
    (output module output_format options : text) (p : passage) :
  p ∈ parse_diatheke_output output module output_format options ->
  p_book p <> [] /\ digits (p_chapter p)
  /\ p_verse_lines p <> []
  /\ Forall (fun vl : text * text => digits vl.1 /\ vl.2 <> [])
       (p_verse_lines p)
  /\ head (map fst (p_verse_lines p)) = Some (p_first p)
  /\ last (map fst (p_verse_lines p)) = Some (p_last p).
Proof.
  intros Hp.
  pose proof (parse_diatheke_output_wf output module output_format options)
    as Hall.
  rewrite Forall_forall in Hall. destruct (Hall p Hp) as [H1 H2 H3 H4 H5].
  refine (conj H1 (conj H2 (conj _ (conj H3 (conj H4 H5))))).
  intros Hnil. rewrite Hnil in H4. discriminate H4.
Qed.

Lemma parse_diatheke_output_passages_witness :
  let p := {| p_book := str "John"; p_chapter := str "3";
              p_first := str "16"; p_last := str "17";
              p_verse_lines := [(str "16", str "For God so loved");
                                (str "17", str "For God sent not")] |} in
  p_book p <> [] /\ digits (p_chapter p)
  /\ p_verse_lines p <> []
  /\ Forall (fun vl : text * text => digits vl.1 /\ vl.2 <> [])
       (p_verse_lines p)
  /\ head (map fst (p_verse_lines p)) = Some (p_first p)
  /\ last (map fst (p_verse_lines p)) = Some (p_last p).
Proof.
  intros p.
  apply (parse_diatheke_output_passages
           (str "John 3:16: For God so loved" ++ newline
            ++ str "John 3:17: For God sent not" ++ newline ++ str "(KJV)")
           (str "KJV") (str "plain") []).
  vm_compute. left.
Defined.

(** *** The citation *)

Lemma digits_run_digits s : forall acc count,
  Forall (fun c => is_digit c = true) s ->
  exists n,
    digits_run acc count true s = Some (n, (count + Z.of_nat (length s))%Z, []).
Proof.
  induction s as [|c s IH]; intros acc count Hs; cbn [digits_run length].
  - exists acc. rewrite Z.add_0_r. reflexivity.
  - apply Forall_cons in Hs as [Hc Hs]. rewrite Hc.
    destruct (IH (10 * acc + digit_value c)%Z (count + 1)%Z Hs) as [n Hn].
    exists n. rewrite Hn.
    replace (count + Z.of_nat (S (length s)))%Z
      with (count + 1 + Z.of_nat (length s))%Z by lia.
    reflexivity.
Qed.

Lemma digit_facts_int c :
  is_digit c = true ->
  is_int_space c = false /\ c <> "-"%char /\ c <> "+"%char.
Proof.
  intros Hc.
  assert (H : forall c,
            implb (is_digit c)
              (negb (is_int_space c) && negb (Ascii.eqb c "-")
               && negb (Ascii.eqb c "+")) = true)
    by (apply ascii_forallb; vm_compute; reflexivity).
  specialize (H c). rewrite Hc in H. cbn [implb] in H.
  apply andb_true_iff in H as [H Hp]. apply andb_true_iff in H as [Hs Hm].
  apply negb_true_iff in Hs, Hm, Hp.
  refine (conj Hs (conj _ _)); intros ->; discriminate.
Qed.

(** [int] of a string of digits: the limit on their number is all that
    can make it fail. *)
Lemma py_int_of_digits s :
  digits s ->
  exists n count,
    count = Z.of_nat (length s)
    /\ py_int s
       = if (int_max_str_digits <? count)%Z
         then Raise (ValueError
                       (str "Exceeds the limit (4300 digits) for integer string conversion: value has "
                        ++ str_of_int count
                        ++ str " digits; use sys.set_int_max_str_digits() to increase the limit"))
         else Ok n.
Proof.
  intros [Hne Hs]. destruct s as [|c s]; [contradiction|].
  pose proof Hs as Hall. apply Forall_cons in Hs as [Hc Hs].
  destruct (digit_facts_int c Hc) as (Hsp & Hm & Hp).
  destruct (digits_run_digits s (10 * 0 + digit_value c)%Z (0 + 1)%Z Hs)
    as [n Hn].
  exists n, (Z.of_nat (length (c :: s))). split; [reflexivity|].
  unfold py_int. cbn [drop_while]. rewrite Hsp.
  assert (Hrun : digits_run 0 0 false (c :: s)
                 = Some (n, Z.of_nat (length (c :: s)), [])).
  { cbn [digits_run length]. rewrite Hc, Hn.
    replace (Z.of_nat (S (length s))) with (0 + 1 + Z.of_nat (length s))%Z
      by lia.
    reflexivity. }
  destruct (Ascii.eqb_spec c "-"%char) as [->|_]; [contradiction|].
  destruct (Ascii.eqb_spec c "+"%char) as [->|_]; [contradiction|].
  rewrite Hrun.
  destruct (int_max_str_digits <? Z.of_nat (length (c :: s)))%Z; reflexivity.
Qed.

Lemma py_int_raises s : raises_value_error (py_int s).
Proof.
  intros e. unfold py_int.
  match goal with
  | |- context [let '(_, _) := ?m in _] => destruct m as [negative ds]
  end.
  destruct (digits_run 0 0 false ds) as [[[n count] rest]|];
    [|intros [= <-]; eauto].
  destruct (int_max_str_digits <? count)%Z; [intros [= <-]; eauto|].
  destruct (drop_while is_int_space rest); [discriminate|].
  intros [= <-]. eauto.
Qed.

Lemma py_int_digits s :
  digits s -> (Z.of_nat (length s) <= int_max_str_digits)%Z ->
  exists n, py_int s = Ok n.
Proof.
  intros Hs Hlen. destruct (py_int_of_digits s Hs) as (n & count & -> & ->).
  exists n. destruct (Z.ltb_spec int_max_str_digits (Z.of_nat (length s)));
    [lia|reflexivity].
Qed.

Lemma py_int_too_long s :
  digits s -> (int_max_str_digits < Z.of_nat (length s))%Z ->
  exists msg, py_int s = Raise (ValueError msg).
Proof.
  intros Hs Hlen. destruct (py_int_of_digits s Hs) as (n & count & -> & ->).
  destruct (Z.ltb_spec int_max_str_digits (Z.of_nat (length s))); [|lia].
  eexists. reflexivity.
Qed.

Lemma map_result_total {A B} (f : A -> result B) items :
  Forall (fun x => exists y, f x = Ok y) items ->
  exists ys, map_result f items = Ok ys.
Proof.
  induction 1 as [|x items [y Hy] _ [ys IH]]; [exists []; reflexivity|].
  exists (y :: ys). cbn [map_result]. rewrite Hy. cbn. rewrite IH. reflexivity.
Qed.

(** The verse numbers go up by one. *)
Definition steps_by_one (verse_nums : list Z) : Prop :=
  forall i a b, verse_nums !! i = Some a -> verse_nums !! S i = Some b ->
                b = (a + 1)%Z.

(** The lines and the citation [format_passage] joins. *)
Definition rendered (numbered : bool) (verse_lines : list (text * text))
    (citation : text) : text :=
  join newline
    (map (fun v : text * text =>
            if numbered then v.1 ++ str ". " ++ v.2 else v.2) verse_lines
     ++ [citation]).

Lemma map_result_first_raise {A B} (f : A -> result B) items :
  Exists (fun x => exists e, f x = Raise e) items ->
  exists e, map_result f items = Raise e.
Proof.
  induction 1 as [x items [e He]|x items _ [e IH]]; cbn [map_result].
  - rewrite He. eexists. reflexivity.
  - destruct (f x) as [y|e']; cbn [result_bind]; [|eexists; reflexivity].
    rewrite IH. eexists. reflexivity.
Qed.

(** X15: on a passage of [parse_diatheke_output], whatever the
    configuration and the style, the only thing that makes
    [format_passage] fail is a verse number of more digits than [int]
    accepts.  When no verse number has more than 4300 digits it returns
    the verses, numbered when the first and the last verse differ, and
    then the citation, in which the verses are the one verse, or
    [first-last] when the numbers go up by one, or the numbers separated
    by commas when they do not.  When the first and the last verse
    differ and a verse number has more than 4300 digits, it raises
    [ValueError]. *)
Theorem format_passage_of_parsed
    (output module output_format options : text) (p : passage)
    (cfg : config) (reference_style : text) :
  p ∈ parse_diatheke_output output module output_format options ->
  (Forall (fun v : text * text =>
             (Z.of_nat (length v.1) <= int_max_str_digits)%Z)
     (p_verse_lines p) ->
   exists verse_nums book_name version_tag verses,
     map_result (fun v : text * text => py_int v.1) (p_verse_lines p)
     = Ok verse_nums
     /\ format_passage (p_book p) (p_chapter p) (p_first p) (p_last p)
          (p_verse_lines p) cfg reference_style
        = Ok (rendered (negb (bool_decide (p_first p = p_last p)))
                (p_verse_lines p)
                (str "(" ++ book_name ++ str " " ++ p_chapter p ++ str ":"
                 ++ verses ++ version_tag ++ str ")"))
     /\ (p_first p = p_last p -> verses = p_first p)
     /\ (p_first p <> p_last p -> steps_by_one verse_nums ->
         verses = p_first p ++ str "-" ++ p_last p)
     /\ (p_first p <> p_last p -> ~ steps_by_one verse_nums ->
         verses = join (str ",") (map fst (p_verse_lines p))))
  /\ (p_first p <> p_last p ->
      Exists (fun v : text * text =>
                (int_max_str_digits < Z.of_nat (length v.1))%Z)
        (p_verse_lines p) ->
      exists msg,
        format_passage (p_book p) (p_chapter p) (p_first p) (p_last p)
          (p_verse_lines p) cfg reference_style
        = Raise (ValueError msg)).
Proof.
  intros Hp.
  pose proof (parse_diatheke_output_wf output module output_format options)
    as Hall.
  rewrite Forall_forall in Hall. destruct (Hall p Hp) as [_ _ Hverses _ _].
  split.
  - intros Hshort.
    destruct (map_result_total (fun v : text * text => py_int v.1)
                (p_verse_lines p)) as [verse_nums Hnums].
    { apply Forall_forall. intros vl Hvl.
      rewrite Forall_forall in Hverses, Hshort.
      destruct (Hverses vl Hvl) as [Hd _].
      apply py_int_digits; [exact Hd|exact (Hshort vl Hvl)]. }
    exists verse_nums. unfold format_passage, verse_part. rewrite Hnums.
    destruct (bool_decide (p_first p = p_last p)) eqn:Hsame.
    + apply bool_decide_eq_true in Hsame.
      do 3 eexists. split; [reflexivity|]. split; [reflexivity|].
      split; [reflexivity|]. split; intros; contradiction.
    + apply bool_decide_eq_false in Hsame. cbn [result_bind].
      destruct (consecutive verse_nums) eqn:Hcons.
      * do 3 eexists. split; [reflexivity|]. split; [reflexivity|].
        split; [intros; contradiction|]. split; [reflexivity|].
        intros _ Hno. exfalso. apply Hno.
        exact (proj1 (consecutive_spec verse_nums) Hcons).
      * do 3 eexists. split; [reflexivity|]. split; [reflexivity|].
        split; [intros; contradiction|]. split; [|reflexivity].
        intros _ Hsteps.
        rewrite (proj2 (consecutive_spec verse_nums) Hsteps) in Hcons.
        discriminate Hcons.
  - intros Hdiff Hlong.
    destruct (map_result_first_raise (fun v : text * text => py_int v.1)
                (p_verse_lines p)) as [e He].
    { apply Exists_exists in Hlong as (vl & Hvl & Hlen).
      apply Exists_exists. exists vl. split; [exact Hvl|].
      rewrite Forall_forall in Hverses. destruct (Hverses vl Hvl) as [Hd _].
      destruct (py_int_too_long vl.1 Hd Hlen) as [msg Hmsg].
      eexists. exact Hmsg. }
    assert (Hvalue : exists msg, e = ValueError msg).
    { revert e He. apply map_result_raises. intros vl. apply py_int_raises. }
    destruct Hvalue as [msg ->]. exists msg.
    unfold format_passage, verse_part.
    rewrite bool_decide_eq_false_2 by exact Hdiff.
    rewrite He. reflexivity.
Qed.

Lemma format_passage_of_parsed_witness :
  let p := {| p_book := str "Exodus"; p_chapter := str "9";
              p_first := str "9"; p_last := str "11";
              p_verse_lines := [(str "9", str "a"); (str "11", str "c")] |} in
  exists verse_nums book_name version_tag verses,
    map_result (fun v : text * text => py_int v.1) (p_verse_lines p)
    = Ok verse_nums
    /\ format_passage (p_book p) (p_chapter p) (p_first p) (p_last p)
         (p_verse_lines p) plain_config (str "full-no-version")
       = Ok (rendered (negb (bool_decide (p_first p = p_last p)))
               (p_verse_lines p)
               (str "(" ++ book_name ++ str " " ++ p_chapter p ++ str ":"
                ++ verses ++ version_tag ++ str ")"))
    /\ (p_first p = p_last p -> verses = p_first p)
    /\ (p_first p <> p_last p -> steps_by_one verse_nums ->
        verses = p_first p ++ str "-" ++ p_last p)
    /\ (p_first p <> p_last p -> ~ steps_by_one verse_nums ->
        verses = join (str ",") (map fst (p_verse_lines p))).
Proof.
  intros p.
  apply (proj1 (format_passage_of_parsed
                  (str "Exodus 9:9: a" ++ newline ++ str "Exodus 9:11: c")
                  (str "KJV") (str "plain") [] p plain_config
                  (str "full-no-version") ltac:(vm_compute; left))).
  repeat constructor; vm_compute; discriminate.
Defined.

End WrapperPassages.

(** ** The text of a verse in the wrapper *)

Section WrapperVerseText.

Import BibleToFormat FormatWrapper.

Lemma split_on_infix sep s piece :
  piece ∈ split_on sep s -> exists a b, s = a ++ piece ++ b.
Proof.
  revert piece. induction s as [|c s IH]; intros piece; cbn [split_on].
  - intros H. apply list_elem_of_singleton in H. subst piece.
    exists [], []. reflexivity.
  - destruct (Ascii.eqb c sep).
    + intros H. apply elem_of_cons in H as [->|H].
      * exists [], (c :: s). reflexivity.
      * destruct (IH _ H) as (a & b & ->). exists (c :: a), b. reflexivity.
    + destruct (split_on sep s) as [|p ps] eqn:Hs.
      * intros H. apply list_elem_of_singleton in H. subst piece.
        exists [], s. reflexivity.
      * intros H. apply elem_of_cons in H as [->|H].
        -- destruct (IH p) as (a & b & Heq); [left|].
           (* the first piece starts the string *)
           assert (Hp : exists b', s = p ++ b').
           { clear IH Heq a b. revert p ps Hs.
             induction s as [|c' s IH]; intros p ps; cbn [split_on].
             - intros [= <- <-]. exists []. reflexivity.
             - destruct (Ascii.eqb c' sep).
               + intros [= <- <-]. exists (c' :: s). reflexivity.
               + destruct (split_on sep s) as [|p' ps'] eqn:Hs'.
                 * intros [= <- <-]. exists s. reflexivity.
                 * intros [= <- <-]. destruct (IH _ _ eq_refl) as [b' ->].
                   exists b'. reflexivity. }
           destruct Hp as [b' ->]. exists [], b'. reflexivity.
        -- destruct (IH piece) as (a & b & ->); [right; exact H|].
           exists (c :: a), b. reflexivity.
Qed.

Lemma clean_lines_one line : clean line -> clean_lines line = [line].
Proof.
  intros (Hne & Hstrip & Hline). unfold clean_lines.
  rewrite (split_on_one _ _ Hline).
  rewrite filter_cons_True by (rewrite Hstrip; exact Hne).
  rewrite filter_nil. cbn [map]. rewrite Hstrip. reflexivity.
Qed.

(** Clean lines joined by newlines are found again when the text is cut
    at its newlines. *)
Lemma clean_lines_join lines :
  Forall clean lines -> clean_lines (join newline lines) = lines.
Proof.
  induction 1 as [|line lines Hline Hlines IH]; [reflexivity|].
  destruct lines as [|line' lines]; [exact (clean_lines_one line Hline)|].
  change (join newline (line :: line' :: lines))
    with (line ++ newline ++ join newline (line' :: lines)).
  rewrite clean_lines_break, IH, (clean_lines_one line Hline). reflexivity.
Qed.

Lemma clean_lines_tag_free s line :
  never re_tag s -> line ∈ clean_lines s -> never re_tag line.
Proof.
  intros Hs Hin. unfold clean_lines in Hin.
  apply list_elem_of_fmap in Hin as (piece & -> & Hin).
  apply list_elem_of_filter in Hin as [_ Hin].
  apply split_on_infix in Hin as (a & b & ->).
  apply (never_strip (fun _ => true) re_tag re_tag_window).
  apply never_suffix in Hs.
  exact (never_prefix (fun _ => true) re_tag re_tag_window _ _ Hs).
Qed.

Lemma contains_no_newline s :
  Forall (fun c => c <> ascii_of_N 10) s -> contains newline s = false.
Proof.
  unfold newline. induction 1 as [|c s Hc _ IH]; [reflexivity|].
  cbn [contains is_prefix]. rewrite IH, orb_false_r, andb_true_r.
  apply Ascii.eqb_neq. intros H. apply Hc. symmetry. exact H.
Qed.

Lemma contains_newline a b : contains newline (a ++ newline ++ b) = true.
Proof.
  unfold newline. induction a as [|c a IH]; cbn [app contains is_prefix].
  - rewrite Ascii.eqb_refl. reflexivity.
  - cbn [app] in IH. rewrite IH. apply orb_true_r.
Qed.

(** X16: what [process_verse_text] returns is a list of lines joined by
    newlines, each line not empty, without whitespace at its ends and
    without a tag; cutting the result at its newlines gives these lines
    back, so the result holds a newline exactly when the verse has two
    lines or more. *)
Theorem process_verse_text_lines (s output_format options : text) :
  exists lines,
    process_verse_text s output_format options = join newline lines
    /\ Forall clean lines
    /\ Forall (fun line => forall pre t post,
                 markup_tag t -> line <> pre ++ t ++ post) lines
    /\ clean_lines (process_verse_text s output_format options) = lines
    /\ (contains newline (process_verse_text s output_format options) = true
        <-> 2 <= length lines).
Proof.
  assert (Hgen : forall lines,
            Forall clean lines -> Forall (never re_tag) lines ->
            Forall clean lines
            /\ Forall (fun line => forall pre t post,
                         markup_tag t -> line <> pre ++ t ++ post) lines
            /\ clean_lines (join newline lines) = lines
            /\ (contains newline (join newline lines) = true
                <-> 2 <= length lines)).
  { intros lines Hclean Hfree. split; [exact Hclean|]. split; [|split].
    - eapply Forall_impl; [exact Hfree|]. intros line Hline pre t post Ht ->.
      specialize (Hline pre (t ++ post) None eq_refl).
      rewrite (re_tag_match None t post Ht) in Hline. discriminate Hline.
    - apply clean_lines_join. exact Hclean.
    - destruct Hclean as [|line lines Hline Hclean]; [cbn; split; [discriminate|lia]|].
      destruct lines as [|line' lines].
      + cbn [join length]. split; [|lia]. intros Hc. exfalso.
        destruct Hline as (_ & _ & Hline).
        rewrite (contains_no_newline _ Hline) in Hc. discriminate Hc.
      + change (join newline (line :: line' :: lines))
          with (line ++ newline ++ join newline (line' :: lines)).
        cbn [length]. split; [lia|]. intros _. apply contains_newline. }
  unfold process_verse_text. destruct s as [|c s].
  - exists []. split; [reflexivity|]. apply Hgen; constructor.
  - match goal with
    | |- context [break_lines ?x] => set (body := x)
    end.
    exists (break_lines body). split; [reflexivity|].
    apply Hgen.
    + apply clean_lines_clean.
    + apply Forall_forall. intros line Hin. unfold break_lines in Hin.
      eapply clean_lines_tag_free; [|exact Hin]. apply re_sub_tag_free.
Qed.

(** *** Header lines *)

Lemma verse_line_from_none acc s :
  (forall a b, s = a ++ b -> a <> [] -> verse_line_tail b = None) ->
  verse_line_from acc s = None.
Proof.
  revert acc. induction s as [|c s IH]; intros acc Hs; [reflexivity|].
  cbn [verse_line_from]. rewrite IH.
  - rewrite (Hs [c] s eq_refl); [reflexivity|discriminate].
  - intros a b -> Ha. apply (Hs (c :: a) b); [reflexivity|discriminate].
Qed.

Lemma verse_line_from_last book : forall acc tail groups,
  book <> [] ->
  verse_line_tail tail = Some groups ->
  (forall a b, tail = a ++ b -> a <> [] -> verse_line_tail b = None) ->
  verse_line_from acc (book ++ tail)
  = Some (reverse acc ++ book, groups.1.1, groups.1.2, groups.2).
Proof.
  induction book as [|c book IH]; intros acc tail [[chapter verse] rest]
    Hne Htail Hlater; [contradiction|].
  cbn [app verse_line_from]. destruct book as [|c' book].
  - cbn [app]. rewrite (verse_line_from_none _ _ Hlater), Htail.
    cbn [mbind option_bind fst snd]. rewrite reverse_cons. reflexivity.
  - rewrite (IH (c :: acc) tail (chapter, verse, rest));
      [|discriminate|exact Htail|exact Hlater].
    cbn [fst snd]. rewrite reverse_cons, <- app_assoc. reflexivity.
Qed.

Lemma run1_stop p r rest :
  r <> [] -> Forall (fun c => p c = true) r ->
  (forall c, head rest = Some c -> p c = false) ->
  run1 p (r ++ rest) = Some (r, rest).
Proof.
  intros Hne Hr Hrest. unfold run1.
  rewrite take_while_stop, drop_while_stop by assumption.
  destruct r; [contradiction|reflexivity].
Qed.

(** X17: a header line is taken apart at its last header.  For a line
    without newline made of a book name, one whitespace character, the
    chapter, a colon, the verse, a colon and the rest, where the rest
    holds no whitespace followed by digits, a colon, digits and a colon,
    the pattern gives the book name, the chapter, the verse and the rest
    without the whitespace at its head. *)
Theorem verse_line_header (book chapter verse rest : text) (sp : ascii) :
  book <> [] -> is_space sp = true -> digits chapter -> digits verse ->
  Forall (fun c => c <> ascii_of_N 10) (book ++ [sp] ++ rest) ->
  (forall a b, rest = a ++ b -> verse_line_tail b = None) ->
  verse_line (book ++ [sp] ++ chapter ++ str ":" ++ verse ++ str ":" ++ rest)
  = Some (book, chapter, verse, drop_while is_space rest).
Proof.
  intros Hbook Hsp [Hcne Hc] [Hvne Hv] _ Hrest.
  assert (Hdigit : forall c, is_digit c = true -> is_space c = false).
  { intros c Hd.
    assert (H : forall c, implb (is_digit c) (negb (is_space c)) = true)
      by (apply ascii_forallb; vm_compute; reflexivity).
    specialize (H c). rewrite Hd in H. apply negb_true_iff in H. exact H. }
  unfold verse_line.
  set (tail := [sp] ++ chapter ++ str ":" ++ verse ++ str ":" ++ rest).
  assert (Htail : verse_line_tail tail
                  = Some (chapter, verse, drop_while is_space rest)).
  { unfold tail, verse_line_tail. cbn [app]. rewrite Hsp.
    cbn [drop_while]. rewrite Hsp.
    rewrite (drop_while_fix is_space (chapter ++ _)).
    2:{ intros c Hh. apply Hdigit. destruct chapter as [|d chapter];
          [contradiction|]. injection Hh as <-.
        apply Forall_cons in Hc as [H _]. exact H. }
    rewrite (run1_stop is_digit chapter); [|exact Hcne|exact Hc|].
    2:{ intros c [= <-]. reflexivity. }
    cbn [mbind option_bind]. rewrite match_lit_app. cbn [mbind option_bind].
    rewrite (run1_stop is_digit verse); [|exact Hvne|exact Hv|].
    2:{ intros c [= <-]. reflexivity. }
    cbn [mbind option_bind]. rewrite match_lit_app. reflexivity. }
  rewrite (verse_line_from_last book [] tail _ Hbook Htail); [reflexivity|].
  (* no later header *)
  intros a b Heq Ha.
  destruct a as [|c0 a]; [contradiction|]. unfold tail in Heq.
  cbn [app] in Heq. injection Heq as <- Heq.
  assert (Hnot : forall pre b, Forall (fun c => is_space c = false) pre ->
            forall a, pre ++ rest = a ++ b -> verse_line_tail b = None).
  { intros pre. induction pre as [|c pre IH]; intros b0 Hpre a0.
    - cbn [app]. intros H. exact (Hrest a0 b0 H).
    - apply Forall_cons in Hpre as [Hc0 Hpre]. destruct a0 as [|c1 a0].
      + cbn [app]. intros <-. unfold verse_line_tail. cbn [app].
        rewrite Hc0. reflexivity.
      + cbn [app]. intros [= _ H]. exact (IH b0 Hpre a0 H). }
  apply (Hnot (chapter ++ str ":" ++ verse ++ str ":") b) with (a := a).
  - repeat (apply Forall_app; split).
    + eapply Forall_impl; [exact Hc|]. exact Hdigit.
    + repeat constructor.
    + eapply Forall_impl; [exact Hv|]. exact Hdigit.
    + repeat constructor.
  - rewrite <- !app_assoc. exact Heq.
Qed.

(** The suffixes of a string. *)
Fixpoint tails_of (s : text) : list text :=
  match s with
  | [] => [[]]
  | _ :: s' => s :: tails_of s'
  end.

Lemma verse_line_header_witness :
  verse_line (str "1 John" ++ [" "%char] ++ str "3" ++ str ":" ++ str "16"
              ++ str ":" ++ str " For God")
  = Some (str "1 John", str "3", str "16", drop_while is_space (str " For God")).
Proof.
  apply (verse_line_header (str "1 John") (str "3") (str "16")
           (str " For God") " "%char).
  - discriminate.
  - reflexivity.
  - split; [discriminate|repeat constructor].
  - split; [discriminate|repeat constructor].
  - apply Forall_forall. intros c Hin ->.
    assert (H : forallb (fun c => negb (Ascii.eqb c (ascii_of_N 10)))
                  (str "1 John" ++ [" "%char] ++ str " For God") = true)
      by (vm_compute; reflexivity).
    rewrite forallb_forall in H. apply list_elem_of_In in Hin.
    specialize (H _ Hin). discriminate H.
  - intros a b Heq.
    assert (Hall : forallb (fun b => match verse_line_tail b with
                                     | None => true | Some _ => false end)
                     (tails_of (str " For God")) = true).
    { vm_compute. reflexivity. }
    rewrite forallb_forall in Hall.
    specialize (Hall b). destruct (verse_line_tail b); [|reflexivity].
    assert (Hin : In b (tails_of (str " For God"))).
    { rewrite Heq. clear. induction a as [|c a IH]; cbn.
      - destruct b; left; reflexivity.
      - right. exact IH. }
    specialize (Hall Hin). discriminate Hall.
Defined.

End WrapperVerseText.

(** ** Note placeholders *)

Section Numbers.

(** The characters of a decimal number. *)
Definition uint_chars (d : Decimal.uint) : text :=
  String.list_ascii_of_string (DecimalString.NilEmpty.string_of_uint d).

Lemma uint_chars_digits d : Forall (fun c => is_digit c = true) (uint_chars d).
Proof.
  unfold uint_chars.
  induction d; cbn [DecimalString.NilEmpty.string_of_uint
                    String.list_ascii_of_string];
    constructor; solve [reflexivity | assumption].
Qed.

Definition digit_step (n : Z) (c : ascii) : Z := (10 * n + digit_value c)%Z.

Lemma uint_chars_acc d : forall acc : positive,
  fold_left digit_step (uint_chars d) (Z.pos acc)
  = Z.pos (Pos.of_uint_acc d acc).
Proof.
  unfold uint_chars.
  induction d; intros acc;
    cbn [DecimalString.NilEmpty.string_of_uint String.list_ascii_of_string
         fold_left Pos.of_uint_acc];
    [reflexivity|..];
    match goal with
    | |- fold_left _ _ (digit_step _ ?c) = _ =>
      let v := eval vm_compute in (digit_value c) in
      change (digit_step (Z.pos acc) c) with (10 * Z.pos acc + v)%Z
    end;
    match goal with
    | |- fold_left _ _ ?z = Z.pos (Pos.of_uint_acc _ ?a) =>
      replace z with (Z.pos a) by lia
    end;
    apply IHd.
Qed.

Lemma uint_chars_value d :
  fold_left digit_step (uint_chars d) 0%Z = Z.of_N (Pos.of_uint d).
Proof.
  unfold uint_chars.
  induction d;
    cbn [DecimalString.NilEmpty.string_of_uint String.list_ascii_of_string
         fold_left Pos.of_uint];
    [reflexivity|exact IHd|..];
    match goal with
    | |- fold_left _ _ (digit_step _ ?c) = Z.of_N (N.pos (Pos.of_uint_acc _ ?a)) =>
      change (digit_step 0 c) with (Z.pos a)
    end;
    apply uint_chars_acc.
Qed.

(** [str(n)] for a positive [n]: digits that [int] reads back as [n]. *)
Lemma str_of_int_digits (n : Z) :
  (0 < n)%Z ->
  str_of_int n <> []
  /\ Forall (fun c => is_digit c = true) (str_of_int n)
  /\ int_of_digits (str_of_int n) = n.
Proof.
  intros Hn. destruct n as [|p|p]; [lia| |lia].
  unfold str_of_int. cbn [Z.to_int DecimalString.NilZero.string_of_int].
  assert (Hs : DecimalString.NilZero.string_of_uint (Pos.to_uint p)
               = DecimalString.NilEmpty.string_of_uint (Pos.to_uint p)).
  { pose proof (Unsigned.to_uint_nonnil p) as Hnil.
    destruct (Pos.to_uint p); [contradiction|reflexivity..]. }
  rewrite Hs. fold (uint_chars (Pos.to_uint p)). repeat apply conj.
  - pose proof (Unsigned.to_uint_nonnil p) as Hnil.
    unfold uint_chars. destruct (Pos.to_uint p); [contradiction|discriminate..].
  - apply uint_chars_digits.
  - unfold int_of_digits.
    change (fun n c => (10 * n + digit_value c)%Z) with digit_step.
    rewrite uint_chars_value, Unsigned.of_to. reflexivity.
Qed.

End Numbers.

Section Marked.

Import BibleToFormat.

(** The text [extract_notes] puts in the place of the note with the
    index [k]. *)
Definition placeholder (k : Z) : text :=
  str "__NOTE" ++ str_of_int k ++ str "__".

(** A text made of characters other than the underscore and of the
    placeholders of the notes 1 to [n]. *)
Inductive marked (n : Z) : text -> Prop :=
  | marked_nil : marked n []
  | marked_char c s : c <> "_"%char -> marked n s -> marked n (c :: s)
  | marked_note k s :
      (1 <= k <= n)%Z -> marked n s -> marked n (placeholder k ++ s).

Lemma marked_more n n' s : (n <= n')%Z -> marked n s -> marked n' s.
Proof.
  intros Hn. induction 1 as [|c s Hc _ IH|k s Hk _ IH].
  - constructor.
  - constructor; assumption.
  - apply marked_note; [lia|exact IH].
Qed.

Lemma marked_app n a b : marked n a -> marked n b -> marked n (a ++ b).
Proof.
  intros Ha Hb. induction Ha as [|c s Hc _ IH|k s Hk _ IH].
  - exact Hb.
  - cbn [app]. constructor; assumption.
  - rewrite <- app_assoc. apply marked_note; assumption.
Qed.

Lemma marked_text n s : Forall (fun c => c <> "_"%char) s -> marked n s.
Proof. induction 1; constructor; assumption. Qed.

Lemma digit_word c : is_digit c = true -> is_word c = true.
Proof.
  intros Hc.
  assert (H : forall c, implb (is_digit c) (is_word c) = true)
    by (apply ascii_forallb; vm_compute; reflexivity).
  specialize (H c). rewrite Hc in H. exact H.
Qed.

Lemma space_not_word c : is_space c = true -> is_word c = false.
Proof.
  intros Hc.
  assert (H : forall c, implb (is_space c) (negb (is_word c)) = true)
    by (apply ascii_forallb; vm_compute; reflexivity).
  specialize (H c). rewrite Hc in H. apply negb_true_iff in H. exact H.
Qed.

(** A placeholder is made of word characters, starts with an underscore
    and holds no ['<']. *)
Lemma placeholder_word k :
  (0 < k)%Z -> Forall (fun c => is_word c = true) (placeholder k).
Proof.
  intros Hk. destruct (str_of_int_digits k Hk) as (_ & Hd & _).
  unfold placeholder. repeat (apply Forall_app; split).
  - repeat constructor.
  - eapply Forall_impl; [exact Hd|]. exact digit_word.
  - repeat constructor.
Qed.

Lemma placeholder_head k : exists tail, placeholder k = "_"%char :: tail.
Proof. eexists. reflexivity. Qed.

Lemma word_prefix (p s a b : text) (c : ascii) :
  Forall (fun c => is_word c = true) p -> is_word c = false ->
  p ++ s = a ++ c :: b -> exists a', a = p ++ a' /\ s = a' ++ c :: b.
Proof.
  intros Hp Hc. revert a. induction Hp as [|x p Hx _ IH]; intros a Heq.
  - exists a. auto.
  - destruct a as [|y a]; cbn [app] in Heq.
    + injection Heq as -> _. congruence.
    + injection Heq as -> Heq. destruct (IH a Heq) as (a' & -> & ->).
      exists a'. auto.
Qed.

(** A character that is not a word character cuts a marked text into
    two marked texts. *)
Lemma marked_split n a c b :
  is_word c = false -> marked n (a ++ c :: b) -> marked n a /\ marked n b.
Proof.
  intros Hc H. remember (a ++ c :: b) as s eqn:Hs. revert a Hs.
  induction H as [|x s Hx H IH|k s Hk H IH]; intros a Hs.
  - destruct a; discriminate Hs.
  - destruct a as [|y a]; cbn [app] in Hs.
    + injection Hs as -> ->. split; [constructor|exact H].
    + injection Hs as -> ->. destruct (IH a eq_refl) as [Ha Hb].
      split; [constructor; assumption|exact Hb].
  - destruct (word_prefix (placeholder k) s a b c) as (a' & -> & ->);
      [apply placeholder_word; lia|exact Hc|exact Hs|].
    destruct (IH a' eq_refl) as [Ha Hb].
    split; [apply marked_note; assumption|exact Hb].
Qed.

Lemma marked_tail n c s : c <> "_"%char -> marked n (c :: s) -> marked n s.
Proof.
  intros Hc H. remember (c :: s) as t eqn:Ht.
  destruct H as [|x s' Hx H|k s' Hk H].
  - discriminate Ht.
  - injection Ht as -> ->. exact H.
  - exfalso. destruct (placeholder_head k) as [tail Hp]. rewrite Hp in Ht.
    cbn [app] in Ht. injection Ht as Hcc _. congruence.
Qed.

Lemma marked_drop_spaces n s : marked n s -> marked n (drop_while is_space s).
Proof.
  induction s as [|c s IH]; intros H; [exact H|].
  cbn [drop_while]. destruct (is_space c) eqn:Hc; [|exact H].
  apply IH. apply (marked_tail n c); [|exact H].
  intros ->. discriminate Hc.
Qed.

Lemma marked_strip n s : marked n s -> marked n (strip s).
Proof.
  intros H. apply marked_drop_spaces in H. unfold strip.
  revert H. generalize (drop_while is_space s). clear s. intros s.
  induction s as [|c s IH] using rev_ind; intros H; [exact H|].
  rewrite reverse_app. cbn [reverse app].
  change (reverse [c]) with [c]. cbn [app drop_while].
  destruct (is_space c) eqn:Hc.
  - apply IH. apply (marked_split n s c []); [|exact H].
    apply space_not_word. exact Hc.
  - change (c :: reverse s) with (reverse [c] ++ reverse s).
    rewrite <- reverse_app, reverse_involutive. exact H.
Qed.

Lemma split_on_text sep p s :
  Forall (fun c => c <> sep) p ->
  split_on sep (p ++ s)
  = match split_on sep s with
    | piece :: pieces => (p ++ piece) :: pieces
    | [] => [p]
    end.
Proof.
  induction 1 as [|c p Hc _ IH]; cbn [app].
  - destruct (split_on sep s) eqn:Hs; [|reflexivity].
    destruct s; cbn in Hs; [discriminate Hs|].
    destruct (Ascii.eqb a sep); [discriminate Hs|].
    destruct (split_on sep s); discriminate Hs.
  - cbn [split_on]. apply Ascii.eqb_neq in Hc. rewrite Hc, IH.
    destruct (split_on sep s); reflexivity.
Qed.

Lemma marked_split_on n s :
  marked n s -> Forall (marked n) (split_on (ascii_of_N 10) s).
Proof.
  induction 1 as [|c s Hc H IH|k s Hk H IH].
  - repeat constructor.
  - cbn [split_on]. destruct (Ascii.eqb c (ascii_of_N 10)).
    + constructor; [constructor|exact IH].
    + destruct (split_on (ascii_of_N 10) s) as [|piece pieces].
      * repeat constructor. exact Hc.
      * apply Forall_cons in IH as [Hp Hps].
        constructor; [constructor; assumption|exact Hps].
  - rewrite split_on_text.
    + destruct (split_on (ascii_of_N 10) s) as [|piece pieces].
      * constructor; [|constructor].
        rewrite <- (app_nil_r (placeholder k)).
        apply marked_note; [exact Hk|constructor].
      * apply Forall_cons in IH as [Hp Hps].
        constructor; [apply marked_note; assumption|exact Hps].
    + eapply Forall_impl; [apply placeholder_word; lia|].
      intros c Hc ->. discriminate Hc.
Qed.

Lemma marked_clean_lines n s : marked n s -> Forall (marked n) (clean_lines s).
Proof.
  intros H. unfold clean_lines. apply Forall_forall. intros line Hin.
  apply list_elem_of_fmap in Hin as (piece & -> & Hin).
  apply list_elem_of_filter in Hin as [_ Hin].
  apply marked_strip. pose proof (marked_split_on n s H) as Hall.
  rewrite Forall_forall in Hall. exact (Hall piece Hin).
Qed.

(** *** Substitutions on marked text *)

Section Substitution.

Variable n : Z.
Variable m : matcher text.
Hypothesis m_context : forall prev prev' s, m prev s = m prev' s.

(** A match starts with ['<'] and ends with ['>'], and what replaces it
    is marked when what is between the two is. *)
Hypothesis m_element : forall prev s r rest,
  m prev s = Some (r, rest) ->
  exists u, s = "<"%char :: u ++ ">"%char :: rest
            /\ (marked n u -> marked n r).

Lemma m_element_tag prev s : m prev s <> None -> head s = Some "<"%char.
Proof.
  destruct (m prev s) as [[r rest]|] eqn:H; [|congruence]. intros _.
  destruct (m_element _ _ _ _ H) as (u & -> & _). reflexivity.
Qed.

Lemma re_sub_marked_len k : forall s,
  length s <= k -> marked n s -> marked n (re_sub m s).
Proof.
  induction k as [|k IH]; intros s Hlen H.
  - destruct s; [exact H|cbn in Hlen; lia].
  - destruct H as [|c s Hc H|j s Hj H].
    + constructor.
    + destruct (m None (c :: s)) as [[r rest]|] eqn:Hm.
      * destruct (m_element _ _ _ _ Hm) as (u & Heq & Hr).
        injection Heq as -> ->.
        destruct (marked_split n u ">"%char rest eq_refl H) as [Hu Hrest].
        assert (Ht : "<"%char :: u ++ ">"%char :: rest
                     = ("<"%char :: u ++ [">"%char]) ++ rest)
          by (cbn [app]; rewrite <- app_assoc; reflexivity).
        rewrite Ht in Hm |- *.
        rewrite (re_sub_matched m m_context _ rest r);
          [|discriminate|exact Hm].
        apply marked_app; [exact (Hr Hu)|].
        apply IH; [|exact Hrest].
        cbn [length] in Hlen. rewrite length_app in Hlen. cbn in Hlen. lia.
      * rewrite (re_sub_kept m m_context _ _ Hm).
        constructor; [exact Hc|]. apply IH; [cbn in Hlen; lia|exact H].
    + rewrite (re_sub_text m m_context m_element_tag).
      * apply marked_note; [exact Hj|]. apply IH; [|exact H].
        rewrite length_app in Hlen.
        destruct (placeholder_head j) as [tail Hp]. rewrite Hp in Hlen.
        cbn [length] in Hlen. lia.
      * eapply Forall_impl; [apply placeholder_word; lia|].
        intros c Hc ->. discriminate Hc.
Qed.

Lemma re_sub_marked s : marked n s -> marked n (re_sub m s).
Proof. apply (re_sub_marked_len (length s)). lia. Qed.

End Substitution.

End Marked.

Section Elements.

Import BibleToFormat.

(** *** The patterns, as elements between ['<'] and ['>'] *)

Lemma to_gt_Some x rest : to_gt x = Some rest -> exists a, x = a ++ ">"%char :: rest.
Proof.
  unfold to_gt. pose proof (take_drop_while not_gt x) as H.
  destruct (drop_while not_gt x) as [|c x'] eqn:Hd; [discriminate|].
  destruct (Ascii.eqb_spec c ">"%char) as [->|Hc].
  - intros [= <-]. exists (take_while not_gt x). symmetry. exact H.
  - destruct c as [[] [] [] [] [] [] [] []]; try discriminate. contradiction.
Qed.

Lemma self_closing_Some x rest :
  self_closing x = Some rest -> exists a, x = a ++ ">"%char :: rest.
Proof.
  unfold self_closing. pose proof (take_drop_while not_gt x) as H.
  destruct (drop_while not_gt x) as [|c x'] eqn:Hd; [discriminate|].
  destruct (Ascii.eqb_spec c ">"%char) as [->|Hc].
  - destruct (bool_decide _); [|discriminate].
    intros [= <-]. exists (take_while not_gt x). symmetry. exact H.
  - destruct c as [[] [] [] [] [] [] [] []]; try discriminate. contradiction.
Qed.

Lemma to_dq_then_Some x rest :
  to_dq_then (str "/>") x = Some rest -> exists a, x = a ++ ">"%char :: rest.
Proof.
  unfold to_dq_then. pose proof (take_drop_while not_dq x) as H.
  destruct (drop_while not_dq x) as [|c x'] eqn:Hd; [discriminate|].
  intros Hm. apply match_lit_Some in Hm. subst x'.
  exists (take_while not_dq x ++ [c; "/"%char]).
  rewrite <- app_assoc. symmetry. exact H.
Qed.

Lemma lazy_until_Some dot lit x g rest :
  lazy_until dot (match_lit lit) x = Some (g, rest) -> x = g ++ lit ++ rest.
Proof.
  revert g. induction x as [|c x IH]; intros g; cbn [lazy_until].
  - destruct (match_lit lit []) as [r|] eqn:Hm; [|discriminate].
    intros [= <- <-]. apply match_lit_Some in Hm. exact Hm.
  - destruct (match_lit lit (c :: x)) as [r|] eqn:Hm.
    + intros [= <- <-]. apply match_lit_Some in Hm. exact Hm.
    + destruct (dot c); [|discriminate].
      destruct (lazy_until dot (match_lit lit) x) as [[g' r]|]; [|discriminate].
      intros [= <- <-]. rewrite (IH g' eq_refl). reflexivity.
Qed.

(** An element that is taken out. *)
Definition removed (m : matcher text) : Prop :=
  forall prev s r rest, m prev s = Some (r, rest) ->
    r = [] /\ exists u, s = "<"%char :: u ++ ">"%char :: rest.

Lemma removed_element n (m : matcher text) :
  removed m ->
  forall prev s r rest, m prev s = Some (r, rest) ->
    exists u, s = "<"%char :: u ++ ">"%char :: rest
              /\ (marked n u -> marked n r).
Proof.
  intros Hm prev s r rest H. destruct (Hm _ _ _ _ H) as (-> & u & ->).
  exists u. split; [reflexivity|]. intros _. constructor.
Qed.

Ltac open_with lit s H1 :=
  destruct (match_lit lit s) as [?s1|] eqn:H1; [|intros H; discriminate H];
  cbn [mbind option_bind]; apply match_lit_Some in H1.

Lemma re_note_empty_removed : removed re_note_empty.
Proof.
  intros prev s r rest. unfold re_note_empty.
  open_with (str "<note") s H1.
  destruct (self_closing s1) as [rest'|] eqn:H2; [|intros H; discriminate H].
  cbn [mbind option_bind]. intros [= <- <-]. split; [reflexivity|].
  apply self_closing_Some in H2 as [a ->]. subst s.
  exists (str "note" ++ a). rewrite <- app_assoc. reflexivity.
Qed.

Lemma re_note_open_close_removed : removed re_note_open_close.
Proof.
  intros prev s r rest. unfold re_note_open_close.
  open_with (str "<note") s H1.
  destruct (to_gt s1) as [s2|] eqn:H2; [|intros H; discriminate H].
  cbn [mbind option_bind].
  destruct (match_lit (str "</note>") s2) as [rest'|] eqn:H3;
    [|intros H; discriminate H].
  cbn [mbind option_bind]. intros [= <- <-]. split; [reflexivity|].
  apply to_gt_Some in H2 as [a ->]. apply match_lit_Some in H3. subst s s2.
  exists (str "note" ++ a ++ str "></note"). rewrite <- !app_assoc.
  reflexivity.
Qed.

Lemma re_l_marker_removed : removed re_l_marker.
Proof.
  intros prev s r rest. unfold re_l_marker.
  open_with (str "<l ") s H1.
  destruct s1 as [|c s2]; [intros H; discriminate H|].
  destruct (Ascii.eqb c "s" || Ascii.eqb c "e"); [|intros H; discriminate H].
  destruct (match_lit (str "ID=" ++ dq) s2) as [s3|] eqn:H3;
    [|intros H; discriminate H].
  cbn [mbind option_bind].
  destruct (to_dq_then (str "/>") s3) as [rest'|] eqn:H4;
    [|intros H; discriminate H].
  cbn [mbind option_bind]. intros [= <- <-]. split; [reflexivity|].
  apply match_lit_Some in H3. apply to_dq_then_Some in H4 as [a ->].
  subst s s2.
  exists (str "l " ++ c :: (str "ID=" ++ dq) ++ a). rewrite <- !app_assoc.
  reflexivity.
Qed.

Lemma re_chapter_removed : removed re_chapter.
Proof.
  intros prev s r rest. unfold re_chapter.
  open_with (str "<chapter") s H1.
  destruct (to_gt s1) as [rest'|] eqn:H2; [|intros H; discriminate H].
  cbn [mbind option_bind]. intros [= <- <-]. split; [reflexivity|].
  apply to_gt_Some in H2 as [a ->]. subst s.
  exists (str "chapter" ++ a). rewrite <- app_assoc. reflexivity.
Qed.

Lemma re_tag_removed : removed re_tag.
Proof.
  intros prev s r rest H.
  apply re_tag_Some in H as (-> & t & (g & -> & _) & ->).
  split; [reflexivity|]. exists g. rewrite <- !app_assoc. reflexivity.
Qed.

Lemma re_l_pair_element n prev s r rest :
  re_l_pair prev s = Some (r, rest) ->
  exists u, s = "<"%char :: u ++ ">"%char :: rest
            /\ (marked n u -> marked n r).
Proof.
  unfold re_l_pair.
  open_with (str "<l eID=" ++ dq) s H1.
  destruct (to_dq_then (str "/>") s1) as [s2|] eqn:H2;
    [|intros H; discriminate H].
  cbn [mbind option_bind].
  destruct (match_lit (str "<l sID=" ++ dq) (drop_while is_space s2))
    as [s3|] eqn:H3; [|intros H; discriminate H].
  cbn [mbind option_bind].
  destruct (to_dq_then (str "/>") s3) as [rest'|] eqn:H4;
    [|intros H; discriminate H].
  cbn [mbind option_bind]. intros [= <- <-].
  apply to_dq_then_Some in H2 as [a ->].
  apply match_lit_Some in H3. apply to_dq_then_Some in H4 as [b ->].
  pose proof (take_drop_while is_space s2) as Hs2. rewrite H3 in Hs2.
  subst s. rewrite <- Hs2.
  exists ((str "l eID=" ++ dq) ++ a ++ ">"%char :: take_while is_space s2
          ++ (str "<l sID=" ++ dq) ++ b).
  split; [rewrite <- !app_assoc; cbn [app]; rewrite <- !app_assoc; reflexivity|].
  intros _. constructor; [discriminate|constructor].
Qed.

Lemma re_smallcaps_element n pre post prev s r rest :
  Forall (fun c => c <> "_"%char) pre -> Forall (fun c => c <> "_"%char) post ->
  re_smallcaps pre post prev s = Some (r, rest) ->
  exists u, s = "<"%char :: u ++ ">"%char :: rest
            /\ (marked n u -> marked n r).
Proof.
  intros Hpre Hpost. unfold re_smallcaps.
  open_with smallcaps_tag s H1.
  destruct (run1 not_lt s1) as [[g s2]|] eqn:H2; [|intros H; discriminate H].
  cbn [mbind option_bind].
  destruct (match_lit (str "</hi>") s2) as [rest'|] eqn:H3;
    [|intros H; discriminate H].
  cbn [mbind option_bind]. intros [= <- <-].
  apply match_lit_Some in H3. unfold run1 in H2.
  pose proof (take_drop_while not_lt s1) as Hs1.
  destruct (take_while not_lt s1) as [|c g'] eqn:Ht; [discriminate H2|].
  injection H2 as <- H2. rewrite H2, H3 in Hs1. subst s. rewrite <- Hs1.
  set (open := str "hi type=" ++ dq ++ str "small-caps" ++ dq).
  exists (open ++ ">"%char :: (c :: g') ++ str "</hi").
  split.
  - unfold smallcaps_tag, open. rewrite <- !app_assoc. cbn [app].
    rewrite <- !app_assoc. reflexivity.
  - intros Hu.
    apply (marked_split n open ">"%char) in Hu as [_ Hu]; [|reflexivity].
    change ((c :: g') ++ str "</hi") with ((c :: g') ++ "<"%char :: str "/hi")
      in Hu.
    apply (marked_split n (c :: g') "<"%char) in Hu as [Hg _]; [|reflexivity].
    apply marked_app; [apply marked_text; exact Hpre|].
    apply marked_app; [exact Hg|apply marked_text; exact Hpost].
Qed.

Lemma re_italic_element n pre post prev s r rest :
  Forall (fun c => c <> "_"%char) pre -> Forall (fun c => c <> "_"%char) post ->
  re_italic pre post prev s = Some (r, rest) ->
  exists u, s = "<"%char :: u ++ ">"%char :: rest
            /\ (marked n u -> marked n r).
Proof.
  intros Hpre Hpost. unfold re_italic.
  open_with (str "<i>") s H1.
  destruct (lazy_until not_newline (match_lit (str "</i>")) s1)
    as [[g rest']|] eqn:H2; [|intros H; discriminate H].
  cbn [mbind option_bind]. intros [= <- <-].
  apply lazy_until_Some in H2. subst s s1.
  exists (str "i>" ++ g ++ str "</i").
  split.
  - rewrite <- !app_assoc. reflexivity.
  - intros Hu.
    change (str "i>" ++ g ++ str "</i")
      with (str "i" ++ ">"%char :: g ++ "<"%char :: str "/i") in Hu.
    apply (marked_split n (str "i") ">"%char) in Hu as [_ Hu]; [|reflexivity].
    apply (marked_split n g "<"%char) in Hu as [Hg _]; [|reflexivity].
    apply marked_app; [apply marked_text; exact Hpre|].
    apply marked_app; [exact Hg|apply marked_text; exact Hpost].
Qed.

Lemma re_milestone_element n prev s r rest :
  re_milestone prev s = Some (r, rest) ->
  exists u, s = "<"%char :: u ++ ">"%char :: rest
            /\ (marked n u -> marked n r).
Proof.
  unfold re_milestone.
  open_with (str "<milestone type=" ++ dq ++ str "line" ++ dq) s H1.
  destruct (to_gt s1) as [rest'|] eqn:H2; [|intros H; discriminate H].
  cbn [mbind option_bind]. intros [= <- <-].
  apply to_gt_Some in H2 as [a ->]. subst s.
  exists ((str "milestone type=" ++ dq ++ str "line" ++ dq) ++ a).
  split; [rewrite <- !app_assoc; reflexivity|].
  intros _. constructor; [discriminate|constructor].
Qed.

End Elements.

Section NotesRoundTrip.

Import BibleToFormat.

Lemma marked_zero s : marked 0 s -> Forall (fun c => c <> "_"%char) s.
Proof.
  induction 1 as [|c s Hc _ IH|k s Hk _ _]; [constructor| |lia].
  constructor; assumption.
Qed.

(** The characters a scan keeps are characters of the input. *)
Lemma re_scan_from_kept {A} (m : matcher A) (P : ascii -> Prop) s :
  Forall P s -> forall skip prev,
  Forall (fun p => match p with Kept c => P c | Matched _ => True end)
    (re_scan_from m skip prev s).
Proof.
  induction 1 as [|c s Hc _ IH]; intros skip prev; cbn [re_scan_from];
    [constructor|].
  destruct skip; [|apply IH].
  destruct (m prev (c :: s)) as [[a rest]|]; constructor; auto.
Qed.

Lemma note_step_marked ps : forall notes idx out,
  Forall (fun p => match p with
                   | Kept c => c <> "_"%char
                   | Matched _ => True
                   end) ps ->
  idx = Z.of_nat (length notes) -> marked idx out ->
  let '(notes', _, out') := fold_left note_step ps (notes, idx, out) in
  marked (Z.of_nat (length notes')) out'.
Proof.
  induction ps as [|p ps IH]; intros notes idx out Hps Hidx Hout.
  - cbn. rewrite <- Hidx. exact Hout.
  - apply Forall_cons in Hps as [Hp Hps]. cbn [fold_left].
    destruct p as [c|[attrs content]].
    + cbn [note_step]. apply IH; [exact Hps|exact Hidx|].
      apply marked_app; [exact Hout|]. constructor; [exact Hp|constructor].
    + cbn [note_step extract_repl].
      destruct (strip content) as [|c content'] eqn:Hcontent.
      * apply IH; [exact Hps|exact Hidx|]. rewrite app_nil_r. exact Hout.
      * apply IH; [exact Hps| |].
        -- rewrite length_app. cbn [length]. lia.
        -- apply marked_app; [apply (marked_more idx); [lia|exact Hout]|].
           rewrite <- (app_nil_r (_ ++ _ ++ _)).
           apply (marked_note _ (idx + 1)); [lia|constructor].
Qed.

Lemma extract_notes_marked s inline_notes :
  Forall (fun c => c <> "_"%char) s ->
  marked (Z.of_nat (length (extract_notes s inline_notes).2))
    (extract_notes s inline_notes).1.
Proof.
  intros Hs. rewrite extract_notes_fold.
  pose proof (note_step_marked (re_scan re_note s) [] 0%Z []
                (re_scan_from_kept _ _ _ Hs 0 None) eq_refl
                (marked_nil 0)) as H.
  destruct (fold_left note_step (re_scan re_note s) ([], 0%Z, []))
    as [[notes idx] out].
  cbn [fst snd].
  apply (re_sub_marked _ re_note_open_close (fun _ _ _ => eq_refl)
           (removed_element _ _ re_note_open_close_removed)).
  apply (re_sub_marked _ re_note_empty (fun _ _ _ => eq_refl)
           (removed_element _ _ re_note_empty_removed)).
  exact H.
Qed.

(** The lines of a verse are marked with the notes of the verse. *)
Definition verse_marked (v : verse) : Prop :=
  Forall (marked (Z.of_nat (length (v_notes v)))) (v_lines v).

Lemma html_verse_marked inline_notes has_l_tags book chapter number content v :
  Forall (fun c => c <> "_"%char) content ->
  html_verse inline_notes has_l_tags (book, chapter, number, content) = Some v ->
  verse_marked v.
Proof.
  intros Hc. unfold html_verse.
  pose proof (extract_notes_marked content inline_notes Hc) as Hm.
  destruct (extract_notes content inline_notes) as [verse_content notes].
  cbn [fst snd] in Hm.
  set (lines := if has_l_tags then _ else _).
  assert (Hlines : Forall (marked (Z.of_nat (length notes))) lines).
  { unfold lines. destruct has_l_tags.
    - unfold poetic_lines. apply marked_clean_lines.
      apply (re_sub_marked _ re_chapter (fun _ _ _ => eq_refl)
           (removed_element _ _ re_chapter_removed)).
      apply (re_sub_marked _ re_l_marker (fun _ _ _ => eq_refl)
           (removed_element _ _ re_l_marker_removed)).
      apply (re_sub_marked _ re_l_pair (fun _ _ _ => eq_refl)
               (re_l_pair_element _)).
      exact Hm.
    - constructor; [apply marked_strip; exact Hm|constructor]. }
  destruct lines; [intros H; discriminate H|].
  intros [= <-]. exact Hlines.
Qed.

Lemma plain_verse_marked inline_notes book chapter number content v :
  Forall (fun c => c <> "_"%char) content ->
  plain_verse inline_notes (book, chapter, number, content) = Some v ->
  verse_marked v.
Proof.
  intros Hc. unfold plain_verse.
  assert (Hc' : Forall (fun c => c <> "_"%char) (re_sub re_milestone content)).
  { apply marked_zero.
    apply (re_sub_marked _ re_milestone (fun _ _ _ => eq_refl)
             (re_milestone_element _)).
    apply marked_text. exact Hc. }
  pose proof (extract_notes_marked _ inline_notes Hc') as Hm.
  destruct (extract_notes (re_sub re_milestone content) inline_notes)
    as [verse_content notes].
  cbn [fst snd] in Hm.
  pose proof (marked_clean_lines _ _ Hm) as Hlines.
  destruct (clean_lines verse_content); [intros H; discriminate H|].
  intros [= <-]. exact Hlines.
Qed.

Lemma process_text_marked n s format options :
  marked n s -> marked n (process_text s format options).
Proof.
  intros Hs. unfold process_text. apply marked_strip.
  apply (re_sub_marked _ re_tag (fun _ _ _ => eq_refl)
           (removed_element _ _ re_tag_removed)).
  assert (Hboth : forall pre1 post1 pre2 post2,
            Forall (fun c => c <> "_"%char) pre1 ->
            Forall (fun c => c <> "_"%char) post1 ->
            Forall (fun c => c <> "_"%char) pre2 ->
            Forall (fun c => c <> "_"%char) post2 ->
            marked n (re_sub (re_italic pre2 post2)
                        (re_sub (re_smallcaps pre1 post1) s))).
  { intros pre1 post1 pre2 post2 H1 H2 H3 H4.
    apply (re_sub_marked _ (re_italic pre2 post2) (fun _ _ _ => eq_refl)
             (fun prev s r rest => re_italic_element n _ _ prev s r rest H3 H4)).
    apply (re_sub_marked _ (re_smallcaps pre1 post1) (fun _ _ _ => eq_refl)
             (fun prev s r rest =>
                re_smallcaps_element n _ _ prev s r rest H1 H2)).
    exact Hs. }
  repeat destruct (fmt_is format _); try exact Hs;
    apply Hboth; repeat constructor; discriminate.
Qed.

Lemma re_scan_from_matched {A} (m : matcher A) prev t rest a :
  t <> [] -> m prev (t ++ rest) = Some (a, rest) ->
  exists prev', re_scan_from m 0 prev (t ++ rest)
                = Matched a :: re_scan_from m 0 prev' rest.
Proof.
  intros Ht Hm. destruct t as [|c t]; [contradiction|].
  cbn [app re_scan_from]. change (c :: t ++ rest) with ((c :: t) ++ rest).
  rewrite Hm, length_app, Nat.add_sub, re_scan_from_skip. eauto.
Qed.

Lemma re_note_ref_placeholder prev k s :
  (0 < k)%Z ->
  re_note_ref prev (placeholder k ++ s) = Some (str_of_int k, s).
Proof.
  intros Hk. destruct (str_of_int_digits k Hk) as (Hne & Hd & _).
  unfold re_note_ref, placeholder. rewrite <- !app_assoc, match_lit_app.
  cbn [mbind option_bind].
  rewrite (run1_stop is_digit (str_of_int k)); [|exact Hne|exact Hd|].
  - cbn [mbind option_bind]. rewrite match_lit_app. reflexivity.
  - intros c [= <-]. reflexivity.
Qed.

Lemma render_note_ref_ok fmt notes options inline_notes k :
  (1 <= k <= Z.of_nat (length notes))%Z ->
  exists out,
    render_note_ref fmt notes options inline_notes (str_of_int k) = Ok out.
Proof.
  intros Hk. unfold render_note_ref.
  destruct (str_of_int_digits k) as (_ & _ & ->); [lia|].
  unfold list_index.
  destruct (k - 1 <? 0)%Z eqn:Hneg; [lia|]. rewrite Hneg.
  destruct (notes !! Z.to_nat (k - 1)) as [note|] eqn:Hnote.
  - cbn [result_bind].
    destruct inline_notes; repeat destruct (fmt_is fmt _); eauto.
  - apply lookup_ge_None in Hnote. lia.
Qed.

Lemma render_marked_len fmt notes options inline_notes len : forall s prev,
  length s <= len -> marked (Z.of_nat (length notes)) s ->
  exists parts,
    map_result
      (fun p => match p with
                | Kept c => Ok [c]
                | Matched digits =>
                  render_note_ref fmt notes options inline_notes digits
                end)
      (re_scan_from re_note_ref 0 prev s) = Ok parts.
Proof.
  induction len as [|len IH]; intros s prev Hlen Hs.
  - destruct s; [exists []; reflexivity|cbn in Hlen; lia].
  - destruct Hs as [|c s Hc Hs|k s Hk Hs].
    + exists []. reflexivity.
    + cbn [re_scan_from].
      assert (Hnone : re_note_ref prev (c :: s) = None).
      { unfold re_note_ref.
        change (match_lit (str "__NOTE") (c :: s))
          with (if Ascii.eqb "_" c then match_lit (str "_NOTE") s else None).
        destruct (Ascii.eqb_spec "_"%char c) as [<-|_];
          [contradiction|reflexivity]. }
      rewrite Hnone. cbn [map_result result_bind].
      destruct (IH s (Some c)) as [parts ->]; [cbn in Hlen; lia|exact Hs|].
      cbn [result_bind]. eauto.
    + destruct (placeholder_head k) as [tail Hp].
      destruct (re_scan_from_matched re_note_ref prev (placeholder k) s
                  (str_of_int k)) as [prev' ->].
      * rewrite Hp. discriminate.
      * apply re_note_ref_placeholder. lia.
      * cbn [map_result].
        destruct (render_note_ref_ok fmt notes options inline_notes k Hk)
          as [out ->].
        cbn [result_bind].
        destruct (IH s prev') as [parts ->]; [|exact Hs|].
        -- rewrite length_app, Hp in Hlen. cbn [length] in Hlen. lia.
        -- cbn [result_bind]. eauto.
Qed.

Lemma render_marked s fmt notes options inline_notes :
  marked (Z.of_nat (length notes)) s ->
  exists out, render_notes_in_text s fmt notes options inline_notes = Ok out.
Proof.
  intros Hs. unfold render_notes_in_text, re_scan.
  destruct (render_marked_len fmt notes options inline_notes (length s) s None)
    as [parts ->]; [lia|exact Hs|].
  cbn [result_bind]. eauto.
Qed.

(** A line renders: [render_notes_in_text] on the processed line
    returns. *)
Definition renders (fmt options : text) (inline_notes : bool)
    (notes : list note) (line : text) : Prop :=
  exists out,
    render_notes_in_text (process_text line fmt options) fmt notes options
      inline_notes = Ok out.

Lemma verse_marked_renders fmt options inline_notes v :
  verse_marked v ->
  Forall (renders fmt options inline_notes (v_notes v)) (v_lines v).
Proof.
  intros Hv. eapply Forall_impl; [exact Hv|]. intros line Hline.
  apply render_marked, process_text_marked. exact Hline.
Qed.

End NotesRoundTrip.

Section BackendsReturn.

Import BibleToFormat.

(** *** The verses of a payload *)

Lemma re_findall_elem {A} (m : matcher A) s a :
  a ∈ re_findall m s ->
  exists prev pre post rest, s = pre ++ post /\ m prev post = Some (a, rest).
Proof.
  unfold re_findall, re_scan. generalize (@None ascii) as prev. generalize 0.
  induction s as [|c s IH]; intros skip prev; cbn [re_scan_from omap list_omap].
  - intros H. apply elem_of_nil in H. contradiction.
  - destruct skip as [|skip].
    + destruct (m prev (c :: s)) as [[a' rest]|] eqn:Hm.
      * cbn [omap list_omap]. intros H. apply elem_of_cons in H as [->|H].
        -- exists prev, [], (c :: s), rest. auto.
        -- destruct (IH _ _ H) as (prev' & pre & post & rest' & -> & Hm').
           exists prev', (c :: pre), post, rest'. auto.
      * cbn [omap list_omap]. intros H.
        destruct (IH _ _ H) as (prev' & pre & post & rest' & -> & Hm').
        exists prev', (c :: pre), post, rest'. auto.
    + intros H. destruct (IH _ _ H) as (prev' & pre & post & rest' & -> & Hm').
      exists prev', (c :: pre), post, rest'. auto.
Qed.

Section Chars.

Variable P : ascii -> Prop.

Lemma Forall_drop_while p s : Forall P s -> Forall P (drop_while p s).
Proof.
  intros H. destruct (drop_while_suffix p s) as [a Ha]. rewrite Ha in H.
  apply Forall_app in H as [_ H]. exact H.
Qed.

Lemma run1_rest p s r rest :
  run1 p s = Some (r, rest) -> Forall P s -> Forall P rest.
Proof.
  unfold run1. destruct (take_while p s); [discriminate|].
  intros [= _ <-]. apply Forall_drop_while.
Qed.

Lemma match_lit_rest lit s rest :
  match_lit lit s = Some rest -> Forall P s -> Forall P rest.
Proof.
  intros H Hs. apply match_lit_Some in H. subst s.
  apply Forall_app in Hs as [_ Hs]. exact Hs.
Qed.

Lemma to_gt_rest s rest : to_gt s = Some rest -> Forall P s -> Forall P rest.
Proof.
  intros H Hs. apply to_gt_Some in H as [a ->].
  apply Forall_app in Hs as [_ Hs]. apply Forall_cons in Hs as [_ Hs]. exact Hs.
Qed.

Lemma lazy_until_group {A} dot (next : text -> option A) s g a :
  lazy_until dot next s = Some (g, a) -> Forall P s -> Forall P g.
Proof.
  revert g a. induction s as [|c s IH]; intros g a; cbn [lazy_until].
  - destruct (next []); [|discriminate]. intros [= <- _] _. constructor.
  - destruct (next (c :: s)); [intros [= <- _] _; constructor|].
    destruct (dot c); [|discriminate].
    destruct (lazy_until dot next s) as [[g' a']|]; [|discriminate].
    intros [= <- _] Hs. apply Forall_cons in Hs as [Hc Hs].
    constructor; [exact Hc|]. exact (IH g' a' eq_refl Hs).
Qed.

Lemma verse_header_rest book_char s book chapter number rest :
  verse_header book_char s = Some (book, chapter, number, rest) ->
  Forall P s -> Forall P rest.
Proof.
  unfold verse_header. intros H Hs.
  destruct (run1 book_char s) as [[b s1]|] eqn:H1; [|discriminate H].
  cbn [mbind option_bind] in H.
  destruct (match_lit (str " ") s1) as [s2|] eqn:H2; [|discriminate H].
  cbn [mbind option_bind] in H.
  destruct (run1 is_digit s2) as [[c s3]|] eqn:H3; [|discriminate H].
  cbn [mbind option_bind] in H.
  destruct (match_lit (str ":") s3) as [s4|] eqn:H4; [|discriminate H].
  cbn [mbind option_bind] in H.
  destruct (run1 is_digit s4) as [[v s5]|] eqn:H5; [|discriminate H].
  cbn [mbind option_bind] in H.
  destruct (match_lit (str ":") s5) as [s6|] eqn:H6; [|discriminate H].
  cbn [mbind option_bind] in H. injection H as _ _ _ <-.
  eapply match_lit_rest; [exact H6|]. eapply run1_rest; [exact H5|].
  eapply match_lit_rest; [exact H4|]. eapply run1_rest; [exact H3|].
  eapply match_lit_rest; [exact H2|]. eapply run1_rest; [exact H1|].
  exact Hs.
Qed.

Lemma re_html_verse_content prev s book chapter number content rest :
  re_html_verse prev s = Some ((book, chapter, number, content), rest) ->
  Forall P s -> Forall P content.
Proof.
  unfold re_html_verse. intros H Hs.
  destruct (verse_header is_alnum s) as [[[[b c] v] s1]|] eqn:H1;
    [|discriminate H].
  cbn [mbind option_bind] in H.
  destruct (match_lit (str " <span") s1) as [s2|] eqn:H2; [|discriminate H].
  cbn [mbind option_bind] in H.
  destruct (to_gt s2) as [s3|] eqn:H3; [|discriminate H].
  cbn [mbind option_bind] in H.
  destruct (lazy_until any_char span_close s3) as [[g r]|] eqn:H4;
    [|discriminate H].
  cbn [mbind option_bind] in H. injection H as _ _ _ <- _.
  eapply lazy_until_group; [exact H4|].
  eapply to_gt_rest; [exact H3|]. eapply match_lit_rest; [exact H2|].
  eapply verse_header_rest; [exact H1|exact Hs].
Qed.

Lemma re_plain_verse_content prev s book chapter number content rest :
  re_plain_verse prev s = Some ((book, chapter, number, content), rest) ->
  Forall P s -> Forall P content.
Proof.
  unfold re_plain_verse. intros H Hs.
  destruct (verse_header is_alpha s) as [[[[b c] v] s1]|] eqn:H1;
    [|discriminate H].
  cbn [mbind option_bind] in H.
  destruct (match_lit (str " ") s1) as [s2|] eqn:H2; [|discriminate H].
  cbn [mbind option_bind] in H.
  destruct s2 as [|x s3]; [discriminate H|].
  destruct (lazy_until any_char plain_verse_end s3) as [[g r]|] eqn:H4;
    [|discriminate H].
  cbn [mbind option_bind] in H. injection H as _ _ _ <- _.
  assert (Hs2 : Forall P (x :: s3)).
  { eapply match_lit_rest; [exact H2|].
    eapply verse_header_rest; [exact H1|exact Hs]. }
  apply Forall_cons in Hs2 as [Hx Hs3]. constructor; [exact Hx|].
  eapply lazy_until_group; [exact H4|exact Hs3].
Qed.

End Chars.

Lemma re_structural_removed : removed re_structural.
Proof.
  intros prev s r rest. unfold re_structural.
  destruct (match_lit (str "<") s) as [s1|] eqn:H1; [|intros H; discriminate H].
  cbn [mbind option_bind].
  destruct (match match_lit (str "chapter") s1 with
            | Some r => Some r
            | None => match_lit (str "div") s1
            end) as [s2|] eqn:H2; [|intros H; discriminate H].
  cbn [mbind option_bind].
  destruct (self_closing s2) as [rest'|] eqn:H3; [|intros H; discriminate H].
  cbn [mbind option_bind]. intros [= <- <-]. split; [reflexivity|].
  apply match_lit_Some in H1. apply self_closing_Some in H3 as [a ->].
  subst s.
  destruct (match_lit (str "chapter") s1) as [s2'|] eqn:Hc.
  - injection H2 as ->. apply match_lit_Some in Hc. subst s1.
    exists (str "chapter" ++ a). rewrite <- app_assoc. reflexivity.
  - apply match_lit_Some in H2. subst s1.
    exists (str "div" ++ a). rewrite <- app_assoc. reflexivity.
Qed.

Lemma parse_html_verses_marked html_content inline_notes v :
  Forall (fun c => c <> "_"%char) html_content ->
  v ∈ parse_html_verses html_content inline_notes -> verse_marked v.
Proof.
  intros Hhtml. unfold parse_html_verses.
  set (html := re_sub re_structural html_content).
  assert (Hh : Forall (fun c => c <> "_"%char) html).
  { apply marked_zero.
    apply (re_sub_marked _ re_structural (fun _ _ _ => eq_refl)
             (removed_element _ _ re_structural_removed)).
    apply marked_text. exact Hhtml. }
  destruct (re_search re_span_open html); cbn [negb].
  - intros Hin.
    apply list_elem_of_omap in Hin
      as ([[[book chapter] number] content] & Hin & Hv).
    apply re_findall_elem in Hin
      as (prev & pre & post & rest & Heq & Hm).
    eapply html_verse_marked; [|exact Hv].
    eapply re_html_verse_content; [exact Hm|].
    rewrite Heq in Hh. apply Forall_app in Hh as [_ Hh]. exact Hh.
  - intros Hin.
    apply list_elem_of_omap in Hin
      as ([[[book chapter] number] content] & Hin & Hv).
    apply re_findall_elem in Hin
      as (prev & pre & post & rest & Heq & Hm).
    eapply plain_verse_marked; [|exact Hv].
    eapply re_plain_verse_content; [exact Hm|].
    rewrite Heq in Hh. apply Forall_app in Hh as [_ Hh]. exact Hh.
Qed.

(** X18: the placeholders of the notes are found again.  In a payload
    without underscore, every line of every verse the parser returns is
    rendered by [render_notes_in_text] without an exception, in every
    format and with the notes inline or not: each placeholder left in
    the line carries the index of a note of the verse. *)
Theorem parsed_verses_render (html_content fmt options : text)
    (inline_notes inline : bool) (v : verse) :
  Forall (fun c => c <> "_"%char) html_content ->
  v ∈ parse_html_verses html_content inline_notes ->
  Forall (fun line =>
            exists out,
              render_notes_in_text (process_text line fmt options) fmt
                (v_notes v) options inline = Ok out)
    (v_lines v).
Proof.
  intros Hhtml Hv.
  apply (verse_marked_renders fmt options inline v).
  exact (parse_html_verses_marked _ _ _ Hhtml Hv).
Qed.

End BackendsReturn.

Section BackendsNeverRaise.

Import BibleToFormat.

Lemma parsed_verses_render_witness :
  let payload :=
    str "Genesis 1:1: <span>In the beginning<note n=" ++ dq ++ str "a" ++ dq
    ++ str ">Heb. bereshit</note> God</span><br />" in
  let v := {| v_book := str "Genesis"; v_chapter := str "1"; v_number := 1;
              v_lines := [str "In the beginning__NOTE1__ God"];
              v_smallcaps := false;
              v_notes := [ {| n_label := str "note";
                              n_content := str "Heb. bereshit";
                              n_marker := str "a" |} ] |} in
  Forall (fun line =>
            exists out,
              render_notes_in_text (process_text line (str "org") [])
                (str "org") (v_notes v) [] false = Ok out)
    (v_lines v).
Proof.
  intros payload v.
  apply (parsed_verses_render payload (str "org") [] false false v).
  - apply Forall_forall. intros c Hin ->.
    assert (H : forallb (fun c => negb (Ascii.eqb c "_")) payload = true)
      by (vm_compute; reflexivity).
    rewrite forallb_forall in H. apply list_elem_of_In in Hin.
    specialize (H _ Hin). discriminate H.
  - vm_compute. left.
Defined.

(** A function call that returns. *)
Definition returns {A} (r : result A) : Prop := exists a, r = Ok a.

(** Every line of the verse renders with the notes of the verse. *)
Definition pverse_renders (fmt options : text) (inline_notes : bool)
    (v : pverse) : Prop :=
  Forall (renders fmt options inline_notes (pv_notes v)) (pv_lines v).

Lemma map_result_returns {A B} (f : A -> result B) items :
  Forall (fun x => returns (f x)) items -> returns (map_result f items).
Proof. apply map_result_total. Qed.

Lemma render_lines_returns fmt notes options inline_notes first other lines :
  Forall (renders fmt options inline_notes notes) lines ->
  returns (render_lines fmt notes options inline_notes first other lines).
Proof.
  intros Hlines. unfold render_lines. apply map_result_returns.
  apply Forall_forall. intros [i line] Hin.
  apply elem_of_lookup_imap in Hin as (j & line' & [= -> ->] & Hj).
  rewrite Forall_forall in Hlines.
  destruct (Hlines line' (list_elem_of_lookup_2 _ _ _ Hj)) as [out Hout].
  cbn [snd fst]. rewrite Hout. cbn [result_bind]. eexists. reflexivity.
Qed.

Ltac returns_bind H :=
  let x := fresh "x" in destruct H as [x ->]; cbn [result_bind].

Lemma latex_verse_returns options verse_nums inline_notes v :
  pverse_renders (str "tex") options inline_notes v ->
  returns (latex_verse options verse_nums inline_notes v).
Proof.
  intros Hv. unfold latex_verse.
  pose proof (render_lines_returns (str "tex") (pv_notes v) options
                inline_notes
                match format_verse_label (str "tex") (pv_number v) verse_nums with
                | [] => []
                | _ => str "\textsuperscript{"
                       ++ format_verse_label (str "tex") (pv_number v) verse_nums
                       ++ str "} "
                end (str "\vin ") (pv_lines v) Hv) as Hlines.
  unfold pverse_renders in Hv.
  destruct (pv_lines v) as [|line [|line' lines]].
  - returns_bind Hlines. eexists. reflexivity.
  - apply Forall_cons in Hv as [[out Hout] _]. rewrite Hout.
    cbn [result_bind]. eexists. reflexivity.
  - returns_bind Hlines. eexists. reflexivity.
Qed.

Lemma org_verse_returns options verse_nums inline_notes v :
  pverse_renders (str "org") options inline_notes v ->
  returns (org_verse options verse_nums inline_notes v).
Proof.
  intros Hv. unfold org_verse.
  destruct (render_lines_returns (str "org") (pv_notes v) options inline_notes
              (format_verse_prefix (str "org") (pv_number v) verse_nums)
              (str "   ") (pv_lines v) Hv) as [x ->].
  cbn [result_bind]. eexists. reflexivity.
Qed.

Lemma block_verse_returns fmt indent sep options verse_nums inline_notes v :
  pverse_renders fmt options inline_notes v ->
  returns (block_verse fmt indent sep options verse_nums inline_notes v).
Proof.
  intros Hv. unfold block_verse.
  destruct (render_lines_returns fmt (pv_notes v) options inline_notes
              (format_verse_prefix fmt (pv_number v) verse_nums)
              indent (pv_lines v) Hv) as [x ->].
  cbn [result_bind]. eexists. reflexivity.
Qed.

Lemma latex_simple_verse_returns options verse_nums inline_notes v :
  pverse_renders (str "tex") options inline_notes v ->
  returns (latex_simple_verse options verse_nums inline_notes v).
Proof.
  intros Hv. unfold latex_simple_verse.
  match goal with
  | |- context [render_lines ?f ?n ?o ?i ?a ?b ?l] =>
    destruct (render_lines_returns f n o i a b l Hv) as [x ->]
  end.
  cbn [result_bind]. eexists. reflexivity.
Qed.

Lemma typst_rows_returns options verse_nums inline_notes v :
  pverse_renders (str "typ") options inline_notes v ->
  returns (typst_rows options verse_nums inline_notes v).
Proof.
  intros Hv. unfold typst_rows.
  match goal with
  | |- context [map_result ?f ?l] =>
    destruct (map_result_returns f l) as [x ->]
  end.
  - apply Forall_forall. intros [i line] Hin.
    apply elem_of_lookup_imap in Hin as (j & line' & [= -> ->] & Hj).
    unfold pverse_renders in Hv. rewrite Forall_forall in Hv.
    destruct (Hv line' (list_elem_of_lookup_2 _ _ _ Hj)) as [out Hout].
    cbn [snd fst]. rewrite Hout. cbn [result_bind]. eexists. reflexivity.
  - cbn [result_bind]. eexists. reflexivity.
Qed.

Lemma typst_simple_verse_returns options verse_nums inline_notes v :
  pverse_renders (str "typ") options inline_notes v ->
  returns (typst_simple_verse options verse_nums inline_notes v).
Proof.
  intros Hv. unfold typst_simple_verse.
  match goal with
  | |- context [map_result ?f ?l] =>
    destruct (map_result_returns f l) as [x ->]
  end.
  - exact Hv.
  - cbn [result_bind]. eexists. reflexivity.
Qed.

Lemma backend_call_returns fmt style verses options verse_nums inline_notes r :
  Forall (pverse_renders fmt options inline_notes) verses ->
  backend_call fmt style verses options verse_nums inline_notes = Some r ->
  returns r.
Proof.
  intros Hv. unfold backend_call.
  assert (Hmap : forall (f : pverse -> result text),
            (forall v, pverse_renders fmt options inline_notes v ->
                       returns (f v)) ->
            returns (map_result f verses)).
  { intros f Hf. apply map_result_returns.
    eapply Forall_impl; [exact Hv|]. exact Hf. }
  assert (Hmap' : forall (f : pverse -> result (list text)),
            (forall v, pverse_renders fmt options inline_notes v ->
                       returns (f v)) ->
            returns (map_result f verses)).
  { intros f Hf. apply map_result_returns.
    eapply Forall_impl; [exact Hv|]. exact Hf. }
  destruct (fmt_is fmt "typ") eqn:Htyp.
  { apply bool_decide_eq_true in Htyp. subst fmt. intros [= <-].
    unfold format_typst. destruct (bool_decide (style = str "table")).
    - destruct (Hmap' (typst_rows options verse_nums inline_notes))
        as [x ->]; [apply typst_rows_returns|].
      cbn [result_bind]. eexists. reflexivity.
    - destruct (Hmap (typst_simple_verse options verse_nums inline_notes))
        as [x ->]; [apply typst_simple_verse_returns|].
      cbn [result_bind]. eexists. reflexivity. }
  destruct (fmt_is fmt "tex") eqn:Htex.
  { apply bool_decide_eq_true in Htex. subst fmt.
    destruct (bool_decide (style = str "simple")); intros [= <-].
    - unfold format_latex_simple.
      destruct (Hmap (latex_simple_verse options verse_nums inline_notes))
        as [x ->]; [apply latex_simple_verse_returns|].
      cbn [result_bind]. eexists. reflexivity.
    - unfold format_latex.
      destruct (Hmap' (latex_verse options verse_nums inline_notes))
        as [x ->]; [apply latex_verse_returns|].
      cbn [result_bind]. destruct (has_poetry verses); eexists; reflexivity. }
  destruct (fmt_is fmt "md") eqn:Hmd.
  { apply bool_decide_eq_true in Hmd. subst fmt.
    destruct (bool_decide (style = str "simple")); intros [= <-].
    - unfold format_markdown_simple.
      destruct (Hmap (block_verse (str "md") [] (str "  " ++ newline) options
                        verse_nums inline_notes))
        as [x ->]; [apply block_verse_returns|].
      cbn [result_bind]. eexists. reflexivity.
    - unfold format_markdown.
      destruct (Hmap (block_verse (str "md") (str "    ") newline options
                        verse_nums inline_notes))
        as [x ->]; [apply block_verse_returns|].
      cbn [result_bind]. eexists. reflexivity. }
  destruct (fmt_is fmt "org") eqn:Horg.
  { apply bool_decide_eq_true in Horg. subst fmt.
    destruct (bool_decide (style = str "simple")); intros [= <-].
    - unfold format_org.
      destruct (Hmap (org_verse options verse_nums inline_notes))
        as [x ->]; [apply org_verse_returns|].
      cbn [result_bind]. eexists. reflexivity.
    - unfold format_org_verse.
      destruct (Hmap (org_verse options verse_nums inline_notes))
        as [x ->]; [apply org_verse_returns|].
      cbn [result_bind]. destruct (has_poetry verses); eexists; reflexivity. }
  destruct (fmt_is fmt "plain") eqn:Hplain; [|intros H; discriminate H].
  apply bool_decide_eq_true in Hplain. subst fmt. intros [= <-].
  unfold format_plain.
  destruct (Hmap (block_verse (str "plain") (str "    ") newline options
                    verse_nums inline_notes))
    as [x ->]; [apply block_verse_returns|].
  cbn [result_bind]. eexists. reflexivity.
Qed.

Lemma group_passages_members verses p pv :
  p ∈ group_passages verses -> pv ∈ p_verses p ->
  exists v, v ∈ verses /\ v_lines v = pv_lines pv /\ v_notes v = pv_notes pv.
Proof.
  intros Hp Hpv.
  pose proof (grouped_fold verses _ _ grouped_start) as [Hv _ _ _].
  cbn [app] in Hv. fold (group_passages verses) in Hv.
  exists {| v_book := p_book p; v_chapter := p_chapter p;
            v_number := pv_number pv; v_lines := pv_lines pv;
            v_smallcaps := pv_smallcaps pv; v_notes := pv_notes pv |}.
  split; [|split; reflexivity].
  rewrite <- Hv. apply list_elem_of_In, in_concat. exists (verses_of p).
  split.
  - apply in_map, list_elem_of_In, Hp.
  - unfold verses_of.
    apply (in_map (fun v => {| v_book := p_book p; v_chapter := p_chapter p;
                               v_number := pv_number v; v_lines := pv_lines v;
                               v_smallcaps := pv_smallcaps v;
                               v_notes := pv_notes v |})).
    apply list_elem_of_In, Hpv.
Qed.

(** X19: no backend raises on what the parser and the grouping made of
    a payload without underscore: for every format and style [main] has
    a backend for, the backend returns on every passage. *)
Theorem backends_return (html_content fmt style options verse_nums : text)
    (inline_notes inline : bool) (p : passage) (r : result text) :
  Forall (fun c => c <> "_"%char) html_content ->
  p ∈ group_passages (parse_html_verses html_content inline_notes) ->
  backend_call fmt style (p_verses p) options verse_nums inline = Some r ->
  exists passage_out, r = Ok passage_out.
Proof.
  intros Hhtml Hp Hcall.
  apply (backend_call_returns fmt style (p_verses p) options verse_nums
           inline r); [|exact Hcall].
  apply Forall_forall. intros pv Hpv.
  destruct (group_passages_members _ _ _ Hp Hpv) as (v & Hv & Hlines & Hnotes).
  unfold pverse_renders. rewrite <- Hlines, <- Hnotes.
  apply verse_marked_renders.
  exact (parse_html_verses_marked _ _ _ Hhtml Hv).
Qed.

Lemma backends_return_witness :
  let payload :=
    str "Genesis 1:1: <span>In the beginning<note n=" ++ dq ++ str "a" ++ dq
    ++ str ">Heb. bereshit</note> God</span><br />" in
  let p := {| p_book := str "Genesis"; p_chapter := str "1";
              p_verses :=
                [ {| pv_number := 1;
                     pv_lines := [str "In the beginning__NOTE1__ God"];
                     pv_smallcaps := false;
                     pv_notes := [ {| n_label := str "note";
                                      n_content := str "Heb. bereshit";
                                      n_marker := str "a" |} ] |} ] |} in
  exists passage_out,
    format_latex (p_verses p) [] (str "dots") false = Ok passage_out.
Proof.
  intros payload p.
  apply (backends_return payload (str "tex") (str "verse") [] (str "dots")
           false false p
           (format_latex (p_verses p) [] (str "dots") false)).
  - apply Forall_forall. intros c Hin ->.
    assert (H : forallb (fun c => negb (Ascii.eqb c "_")) payload = true)
      by (vm_compute; reflexivity).
    rewrite forallb_forall in H. apply list_elem_of_In in Hin.
    specialize (H _ Hin). discriminate H.
  - vm_compute. left.
  - vm_compute. reflexivity.
Defined.

End BackendsNeverRaise.
